(** * Giveaway lifecycle and fair-draw engine

    A shallow embedding of the giveaway bot (schema and settings module,
    and the bot module with its selector, text builders, command
    handlers, join action and scheduler), followed by the properties of
    the specification that were checked against it.

    Modelling conventions.
    - SQLite integers and JavaScript numbers that hold integers are [Z];
      a finite number that may have a fraction, as the winner count may,
      is a rational [Q]; nullable columns are [option].
    - A table is the list of its rows in rowid order.
    - Node's [crypto] digests, [dayjs] formatting and the process
      environment ([ADMIN_IDS]) are parameters of the development.
    - An [async] handler is cut at each [await] on the messaging gateway
      whose result or timing can matter to the store: the part before the
      [await] runs as one atomic segment, the part after it as another,
      and other handlers may run in between (Node's event loop). *)

From Stdlib Require Import ZArith QArith Qround List String Ascii Bool Lia.
From Stdlib Require Import Permutation Sorted DecimalString DecimalZ OrderedTypeEx.
Import ListNotations.

Local Open Scope string_scope.
Local Open Scope list_scope.
Local Open Scope Z_scope.

(** ** JavaScript helpers *)

(** Template-literal conversion of an integral number: [`${n}`]. *)
Definition num_to_string (z : Z) : string :=
  NilZero.string_of_int (Z.to_int z).

(** [a.localeCompare(b)] on lowercase hexadecimal digests of equal length,
    which is what [digest("hex")] returns: on that alphabet the collation
    order is the order of the code units.  The sign is what the
    comparator of the selector looks at. *)
Definition localeCompare (a b : string) : Z :=
  match String.compare a b with
  | Lt => -1
  | Eq => 0
  | Gt => 1
  end.

(** [Array.prototype.sort(cmp)]: the sort is stable and, for a consistent
    comparator, every conforming engine returns the same array.  It is
    modelled as a stable insertion sort; [cmp a b <= 0] keeps [a] first. *)
Fixpoint sort_insert {A : Type} (cmp : A -> A -> Z) (x : A) (l : list A) : list A :=
  match l with
  | [] => [x]
  | y :: l' => if cmp x y <=? 0 then x :: y :: l' else y :: sort_insert cmp x l'
  end.

Definition array_sort {A : Type} (cmp : A -> A -> Z) (l : list A) : list A :=
  fold_right (sort_insert cmp) [] l.

(** [arr.slice(0, e)] for an integer [e]: a negative end counts from the
    end of the array, and the end is clamped to the length. *)
Definition slice0 {A : Type} (l : list A) (e : Z) : list A :=
  let len := Z.of_nat (List.length l) in
  let fin := if e <? 0 then Z.max (len + e) 0 else Z.min e len in
  firstn (Z.to_nat fin) l.

(** A finite JavaScript number is a rational.  [ToIntegerOrInfinity]
    drops its fraction, and [Math.min(k, n)] as the end of a [slice] is
    the integer [slice] makes of it. *)
Definition js_trunc (q : Q) : Z := Z.quot (Qnum q) (Zpos (Qden q)).

Definition min_as_end (k : Q) (n : Z) : Z :=
  if Qle_bool k (inject_Z n) then js_trunc k else n.

(** JavaScript truthiness of a number, and [x || d] on a nullable string. *)
Definition truthy (z : Z) : bool := negb (z =? 0).

Definition str_or (s : option string) (d : string) : string :=
  match s with
  | Some x => if String.eqb x "" then d else x
  | None => d
  end.

(** [escHtml]: the four replacements, the ampersand first; one pass over
    the characters gives the same string. *)
Definition esc_char (c : ascii) : string :=
  if Ascii.eqb c "&" then "&amp;"
  else if Ascii.eqb c "<" then "&lt;"
  else if Ascii.eqb c ">" then "&gt;"
  else if Ascii.eqb c (ascii_of_nat 34) then "&quot;"
  else String c "".

Fixpoint escHtml (s : string) : string :=
  match s with
  | "" => ""
  | String c r => (esc_char c ++ escHtml r)%string
  end.

(** ** Rows and tables *)

(** A row of [giveaways].  [winners] is the number the creation was
    called with, any finite number: the column keeps a value with a
    fraction as it is. *)
Record Giveaway := mkGiveaway {
  id : Z;
  chat_id : Z;
  message_id : Z;
  prize : string;
  sponsor : string;
  winners : Q;
  end_time : Z;
  ended : Z;
  created_at : Z;
  ended_at : option Z;
  seed : option string;
  seed_hash : option string;
  canceled : Z;
  cancel_reason : option string;
  announced : Z;
  announced_at : option Z
}.

(** A row of [participants]; its primary key is the pair
    [(giveaway_id, user_id)]. *)
Record ParticipantRow := mkParticipantRow {
  p_giveaway_id : Z;
  p_user_id : Z;
  p_name : string;
  joined_at : Z
}.

(** A row of [winners]. *)
Record WinnerRow := mkWinnerRow {
  w_giveaway_id : Z;
  w_user_id : Z;
  w_name : string
}.

(** What [SELECT user_id, name] returns, from either table. *)
Record User := mkUser {
  user_id : Z;
  name : string
}.

(** A participant extended with its rank: [{ ...p, rank }]. *)
Record Ranked := mkRanked {
  r_user_id : Z;
  r_name : string;
  rank : string
}.

(** The database: each table in rowid order, and the next value of the
    AUTOINCREMENT key of [giveaways].  The [settings] table only feeds the
    callers of [createGiveawayAndPost] with the target group and is left
    out. *)
Record Store := mkStore {
  giveaways : list Giveaway;
  participants : list ParticipantRow;
  winners_tbl : list WinnerRow;
  next_id : Z
}.

Definition empty_store : Store :=
  {| giveaways := []; participants := []; winners_tbl := []; next_id := 1 |}.

(** *** Row updates: the [SET] lists of the three [UPDATE] statements *)

(** [SET ended=1, ended_at=?] *)
Definition set_ended (now : Z) (g : Giveaway) : Giveaway :=
  {| id := id g; chat_id := chat_id g; message_id := message_id g;
     prize := prize g; sponsor := sponsor g; winners := winners g;
     end_time := end_time g; ended := 1; created_at := created_at g;
     ended_at := Some now; seed := seed g; seed_hash := seed_hash g;
     canceled := canceled g; cancel_reason := cancel_reason g;
     announced := announced g; announced_at := announced_at g |}.

(** [SET announced=1, announced_at=?] *)
Definition set_announced (now : Z) (g : Giveaway) : Giveaway :=
  {| id := id g; chat_id := chat_id g; message_id := message_id g;
     prize := prize g; sponsor := sponsor g; winners := winners g;
     end_time := end_time g; ended := ended g; created_at := created_at g;
     ended_at := ended_at g; seed := seed g; seed_hash := seed_hash g;
     canceled := canceled g; cancel_reason := cancel_reason g;
     announced := 1; announced_at := Some now |}.

(** [SET canceled=1, ended=1, ended_at=?, cancel_reason=?] *)
Definition set_canceled (now : Z) (reason : string) (g : Giveaway) : Giveaway :=
  {| id := id g; chat_id := chat_id g; message_id := message_id g;
     prize := prize g; sponsor := sponsor g; winners := winners g;
     end_time := end_time g; ended := 1; created_at := created_at g;
     ended_at := Some now; seed := seed g; seed_hash := seed_hash g;
     canceled := 1; cancel_reason := Some reason;
     announced := announced g; announced_at := announced_at g |}.

(** *** Statements *)

(** [SELECT ... FROM giveaways WHERE id=?] with [.get] *)
Definition get_giveaway (gid : Z) (st : Store) : option Giveaway :=
  find (fun g => id g =? gid) (giveaways st).

(** [UPDATE giveaways SET ... WHERE id=?]: no other condition is part of
    any of the statements. *)
Definition update_giveaway (gid : Z) (f : Giveaway -> Giveaway) (st : Store) : Store :=
  {| giveaways := map (fun g => if id g =? gid then f g else g) (giveaways st);
     participants := participants st;
     winners_tbl := winners_tbl st;
     next_id := next_id st |}.

(** [SELECT user_id, name FROM participants WHERE giveaway_id=?].  The
    rows are listed in rowid order; SQLite reads them through the index
    of the primary key, in the order of [user_id].  Of the code that
    reads them, the scheduler tests for emptiness and hands them to the
    selector, which sorts them first. *)
Definition participants_of (gid : Z) (st : Store) : list User :=
  map (fun p => mkUser (p_user_id p) (p_name p))
      (filter (fun p => p_giveaway_id p =? gid) (participants st)).

(** [SELECT COUNT( * ) AS c FROM participants WHERE giveaway_id=?] *)
Definition count_participants (gid : Z) (st : Store) : Z :=
  Z.of_nat (List.length (participants_of gid st)).

(** [SELECT user_id,name FROM winners WHERE giveaway_id=? ORDER BY rowid ASC] *)
Definition winners_of (gid : Z) (st : Store) : list User :=
  map (fun w => mkUser (w_user_id w) (w_name w))
      (filter (fun w => w_giveaway_id w =? gid) (winners_tbl st)).

Definition has_participant (gid uid : Z) (st : Store) : bool :=
  existsb (fun p => (p_giveaway_id p =? gid) && (p_user_id p =? uid)) (participants st).

(** [INSERT INTO participants ...]: throws ([None]) when the primary key
    is already present. *)
Definition insert_participant (gid uid : Z) (nm : string) (now : Z) (st : Store)
    : option Store :=
  if has_participant gid uid st then None
  else Some {| giveaways := giveaways st;
               participants := participants st ++ [mkParticipantRow gid uid nm now];
               winners_tbl := winners_tbl st;
               next_id := next_id st |}.

(** [INSERT INTO winners(giveaway_id,user_id,name)] *)
Definition insert_winner (gid uid : Z) (nm : string) (st : Store) : Store :=
  {| giveaways := giveaways st;
     participants := participants st;
     winners_tbl := winners_tbl st ++ [mkWinnerRow gid uid nm];
     next_id := next_id st |}.

(** [INSERT INTO giveaways(chat_id,message_id,prize,sponsor,winners,
    end_time,created_at,seed,seed_hash,announced) VALUES (...,0)]; the
    other columns take their defaults.  Returns [lastInsertRowid] too. *)
Definition insert_giveaway
    (chat mid : Z) (pr sp : string) (w : Q) (endt created : Z) (sd sh : string)
    (st : Store) : Store * Z :=
  let gid := next_id st in
  ({| giveaways := giveaways st ++
        [ {| id := gid; chat_id := chat; message_id := mid; prize := pr;
             sponsor := sp; winners := w; end_time := endt; ended := 0;
             created_at := created; ended_at := None; seed := Some sd;
             seed_hash := Some sh; canceled := 0; cancel_reason := None;
             announced := 0; announced_at := None |} ];
      participants := participants st;
      winners_tbl := winners_tbl st;
      next_id := gid + 1 |}, gid).

(** [db.transaction(body)()]: the statements of [body] run in order on the
    database; when one of them throws, or the commit does, everything
    written since the start is rolled back and the error is rethrown.
    [fault = Some i] makes the statement of index [i] throw (the commit has
    the index after the last statement); the flag of the result tells
    whether the body ran to the end. *)
Fixpoint run_statements (stmts : list (Store -> Store)) (fault : option nat) (st : Store)
    : Store * bool :=
  match stmts, fault with
  | _, Some O => (st, false)
  | [], _ => (st, true)
  | s :: rest, Some (S n) => run_statements rest (Some n) (s st)
  | s :: rest, None => run_statements rest None (s st)
  end.

Definition db_transaction (stmts : list (Store -> Store)) (fault : option nat) (st : Store)
    : Store * bool :=
  let '(st', done) := run_statements stmts fault st in
  if done then (st', true) else (st, false).

(** ** Messages, gateway calls and handler contexts *)

(** The sender and chat of an update. *)
Record Ctx := mkCtx {
  from_id : Z;
  first_name : option string;
  username : option string;
  chat_private : bool
}.

(** A text, kept as the builder that makes it and the builder's
    arguments: [MsgGiveawayPost] is [buildGiveawayTextPublic],
    [MsgWinners] is [buildWinnersTextPublic], [MsgCanceledPost] is
    [buildCanceledTextPublic], [MsgCancelNotice] and [MsgEmpty] are the
    notices of [/cancel] and of the scheduler, [MsgGinfo] is the text of
    [/ginfo] with the proof it may end with, [MsgCreated] and
    [MsgAnnounceFailed] are the replies that embed a number or an error
    description, [MsgText] is a fixed reply.  The proof text, whose
    content matters below, is carried rendered in [MsgProof]. *)
Inductive Message :=
| MsgGiveawayPost (pr sp : string) (w : Q) (endt count : Z)
| MsgWinners (g : Giveaway) (ws : list User)
| MsgCanceledPost (g : Giveaway) (reason : string) (count : Z)
| MsgCancelNotice (gid : Z) (pr reason : string)
| MsgEmpty (gid : Z) (pr sp : string)
| MsgProof (text : string)
| MsgGinfo (g : Giveaway) (count : Z) (ws : list User) (proof : option string)
| MsgCreated (gid endt : Z)
| MsgAnnounceFailed
| MsgText (text : string).

(** What a handler segment asks of the outside world. *)
Inductive Output :=
| SendMessage (chat : Z) (m : Message)
| EditMessageText (chat mid : Z) (m : Message)
| EditMessageReplyMarkup (chat mid : Z) (callback : string)
| GetChatMember (chat uid : Z)
| Reply (c : Ctx) (m : Message)
| AnswerCbQuery (c : Ctx) (text : string)
| LogError (tag : string) (gid : Z).

(** A handler suspended at an [await]: what it needs to go on. *)
Inductive Task :=
| TickEmptySent (now : Z) (g : Giveaway) (rest : list Giveaway)
| TickWinnersSent (now : Z) (g fresh : Giveaway) (rest : list Giveaway)
| JoinMemberAsked (c : Ctx) (gid : Z) (g : Giveaway) (now : Z)
| AnnounceSent (c : Ctx) (gid : Z) (g : Giveaway)
| CreateSent (c : Ctx) (targetGroupId : Z) (w : Q) (endUnix : Z) (pr sp : string)
    (sd sh : string)
| CreateMarkupSent (c : Ctx) (gid endUnix : Z).

(** The statement index that throws inside the draw transaction of a
    giveaway, if any. *)
Definition Faults := Z -> option nat.

Definition no_faults : Faults := fun _ => None.

(** What reaches the process.  [Resume i now r] settles the gateway call
    the in-flight task of index [i] waits for: [Some v] fulfils it with
    [v] (a message id, or 1/0 for a membership answer), [None] rejects
    it. *)
Inductive Event :=
| Tick (now : Z) (faults : Faults)
| Resume (i : nat) (now : Z) (r : option Z) (faults : Faults)
| CmdCancel (c : Ctx) (now : Z) (gid : Z) (reason : string)
| CmdAnnounce (c : Ctx) (gid : Z)
| CmdGinfo (c : Ctx) (gid : Z)
| CmdProof (c : Ctx) (gid : Z)
| ActJoin (c : Ctx) (now : Z) (gid : Z)
| Create (c : Ctx) (targetGroupId : Z) (w : Q) (endUnix : Z) (pr sp : string)
    (sd : string).

Record Sys := mkSys {
  store : Store;
  tasks : list Task
}.

Definition init_sys : Sys := {| store := empty_store; tasks := [] |}.

(** Fixed replies. *)
Definition txt_create_failed : string :=
  "❌ Bot không gửi được vào group. Hãy đảm bảo bot có quyền và đã /setgroup.".
Definition txt_join_missing : string := "❌ Giveaway không tồn tại".
Definition txt_join_canceled : string := "⛔ Giveaway đã bị hủy".
Definition txt_join_closed : string := "⏳ Giveaway đã đóng / đã quay".
Definition txt_join_not_member : string :=
  "❌ Bạn phải là member của group mới được tham gia".
Definition txt_join_already : string := "❗ Bạn đã tham gia rồi".
Definition txt_join_ok : string := "🎉 Tham gia thành công!".
Definition txt_cancel_usage : string := "Dùng: /cancel <id> [lý do]".
Definition txt_cancel_missing : string := "❌ Không tìm thấy giveaway.".
Definition txt_cancel_already : string := "⚠️ Giveaway đã bị hủy trước đó.".
Definition txt_cancel_ended : string := "⚠️ Giveaway đã kết thúc, không thể hủy.".
Definition txt_announce_dm : string := "ℹ️ Dùng /announce trong chat riêng với bot.".
Definition txt_announce_usage : string := "Dùng: /announce <id>".
Definition txt_missing : string := "Không tìm thấy giveaway.".
Definition txt_announce_canceled : string := "Giveaway đã bị hủy.".
Definition txt_announce_not_ended : string :=
  "Giveaway chưa đến giờ quay hoặc chưa quay.".
Definition txt_announce_no_winners : string :=
  "Chưa có winners trong DB (có thể bot chưa quay).".
Definition txt_ginfo_usage : string := "Dùng: /ginfo <id>".
Definition txt_proof_dm : string := "ℹ️ Dùng /proof trong chat riêng với bot.".
Definition txt_proof_usage : string := "Dùng: /proof <id>".
Definition txt_seed_hidden : string := "Chưa công bố".

(** A line feed and a double quote, as one-character strings. *)
Definition nl : string := String (ascii_of_nat 10) "".
Definition dquote : string := String (ascii_of_nat 34) "".

Definition opt_to_list {A : Type} (o : option A) : list A :=
  match o with
  | Some a => [a]
  | None => []
  end.

Definition remove_nth {A : Type} (i : nat) (l : list A) : list A :=
  firstn i l ++ skipn (S i) l.

(** ** The environment

    What the bot takes from outside its own code: [sha256Hex(input)] and
    [hmacSha256Hex(key, msg)], SHA-256 and HMAC-SHA256 as hexadecimal
    strings; [fmtUnix(unixTs)], the time of day and date in the
    configured zone; and [ADMINS], the operator ids of [ADMIN_IDS]. *)
Class Env := {
  sha256Hex : string -> string;
  hmacSha256Hex : string -> string -> string;
  fmtUnix : Z -> string;
  ADMINS : list Z
}.

(** ** Texts and numbers of the dialogue

    The text of an update is kept as the bytes of its UTF-8 encoding.
    The white space of [trim] and of the class [\s] is the same set of
    characters: tab, line feed, vertical tab, form feed, carriage return,
    space, U+00A0, U+1680, U+2000 to U+200A, U+2028, U+2029, U+202F,
    U+205F, U+3000 and U+FEFF; the word characters of [\w] are the ASCII
    letters and digits and the underscore. *)

Definition byte (a : ascii) : Z := Z.of_N (N_of_ascii a).

(** The length in bytes of the white space character a text starts with,
    0 when it starts with none. *)
Definition space_width (s : string) : nat :=
  match s with
  | String a r =>
      let x := byte a in
      if (x =? 9) || (x =? 10) || (x =? 11) || (x =? 12) || (x =? 13) || (x =? 32)
      then 1%nat
      else
        match r with
        | String b (String c _) =>
            let y := byte b in
            let z := byte c in
            if (x =? 194) && (y =? 160) then 2%nat
            else if (x =? 225) && (y =? 154) && (z =? 128) then 3%nat
            else if (x =? 226) && (y =? 128) && (128 <=? z) && (z <=? 138) then 3%nat
            else if (x =? 226) && (y =? 128) && ((z =? 168) || (z =? 169) || (z =? 175))
            then 3%nat
            else if (x =? 226) && (y =? 129) && (z =? 159) then 3%nat
            else if (x =? 227) && (y =? 128) && (z =? 128) then 3%nat
            else if (x =? 239) && (y =? 187) && (z =? 191) then 3%nat
            else 0%nat
        | String b "" => if (x =? 194) && (byte b =? 160) then 2%nat else 0%nat
        | "" => 0%nat
        end
  | "" => 0%nat
  end.

Definition flush (cur : string) : list string :=
  match cur with
  | "" => []
  | _ => [cur]
  end.

(** The words of a text: its maximal runs of characters that are not
    white space.  [skip] counts the bytes left of the white space
    character being passed, [cur] is the word being read. *)
Fixpoint words_from (skip : nat) (cur : string) (s : string) : list string :=
  match s with
  | "" => flush cur
  | String a r =>
      match skip with
      | S k => words_from k cur r
      | O =>
          match space_width s with
          | O => words_from O (cur ++ String a "") r
          | S k => flush cur ++ words_from k "" r
          end
      end
  end.

Definition words (s : string) : list string := words_from 0 "" s.

(** [t.trim().split(/\s+/)]: the words of [t], and one empty string when
    there is none. *)
Definition trim_split (t : string) : list string :=
  match words t with
  | [] => [""]
  | l => l
  end.

(** [s.trim()] *)
Fixpoint trim_start_from (skip : nat) (s : string) : string :=
  match s with
  | "" => ""
  | String a r =>
      match skip with
      | S k => trim_start_from k r
      | O =>
          match space_width s with
          | O => s
          | S k => trim_start_from k r
          end
      end
  end.

Fixpoint trim_end_from (skip : nat) (pend : string) (s : string) : string :=
  match s with
  | "" => ""
  | String a r =>
      match skip with
      | S k => trim_end_from k (pend ++ String a "") r
      | O =>
          match space_width s with
          | O => (pend ++ String a (trim_end_from O "" r))%string
          | S k => trim_end_from k (pend ++ String a "") r
          end
      end
  end.

Definition trim (s : string) : string :=
  trim_end_from 0 "" (trim_start_from 0 s).

(** [\w] *)
Definition is_word_char (a : ascii) : bool :=
  let x := byte a in
  ((48 <=? x) && (x <=? 57)) || ((65 <=? x) && (x <=? 90))
  || ((97 <=? x) && (x <=? 122)) || (x =? 95).

Fixpoint all_word (s : string) : bool :=
  match s with
  | "" => true
  | String a r => is_word_char a && all_word r
  end.

(** [s.replace(/@\w+$/, "")]: the text is cut at its first [@] that is
    followed, up to the end, by word characters only and by one at
    least. *)
Fixpoint strip_mention (s : string) : string :=
  match s with
  | "" => ""
  | String a r =>
      if Ascii.eqb a "@" && negb (String.eqb r "") && all_word r then ""
      else String a (strip_mention r)
  end.

(** [s.startsWith("/")] *)
Definition is_command (s : string) : bool :=
  match s with
  | String a _ => Ascii.eqb a "/"
  | "" => false
  end.

(** [s.length], the number of UTF-16 code units: one for a character of
    one to three bytes, two for a character of four bytes. *)
Fixpoint js_length (s : string) : Z :=
  match s with
  | "" => 0
  | String a r =>
      let x := byte a in
      (if x <? 128 then 1 else if x <? 192 then 0 else if x <? 240 then 1 else 2)
      + js_length r
  end.

(** A JavaScript number: not a number, an infinity, or a finite number,
    which is a rational. *)
Inductive JsNumber :=
| JNaN
| JInf (negative : bool)
| JFin (q : Q).

Definition js_int (z : Z) : JsNumber := JFin (inject_Z z).

(** The integer a number is, if it is one. *)
Definition as_integer (n : JsNumber) : option Z :=
  match n with
  | JFin q => if Zpos (Qden (Qred q)) =? 1 then Some (Qnum (Qred q)) else None
  | _ => None
  end.

(** [!n] *)
Definition js_not (n : JsNumber) : bool :=
  match n with
  | JNaN => true
  | JInf _ => false
  | JFin q => Qeq_bool q (inject_Z 0)
  end.

(** [Number.isFinite(n)], [n < k] and [n > k] for an integer [k]. *)
Definition js_isFinite (n : JsNumber) : bool :=
  match n with
  | JFin _ => true
  | _ => false
  end.

Definition js_lt (n : JsNumber) (k : Z) : bool :=
  match n with
  | JNaN => false
  | JInf negative => negative
  | JFin q => negb (Qle_bool (inject_Z k) q)
  end.

Definition js_gt (n : JsNumber) (k : Z) : bool :=
  match n with
  | JNaN => false
  | JInf negative => negb negative
  | JFin q => negb (Qle_bool q (inject_Z k))
  end.

(** The integer [z] when the text is [String(z)]. *)
Definition decimal (s : string) : option Z :=
  match NilZero.int_of_string s with
  | Some d =>
      let z := Z.of_int d in
      if String.eqb (num_to_string z) s then Some z else None
  | None => None
  end.

(** The characters [String(n)] is made of for a finite [n]: digits, the
    point, and the exponent with its sign. *)
Inductive NumChar := NDigit (d : nat) | NPoint | NExp | NPlus | NMinus.

Definition num_char (c : NumChar) : ascii :=
  match c with
  | NDigit d => ascii_of_nat (48 + d mod 10)
  | NPoint => "."
  | NExp => "e"
  | NPlus => "+"
  | NMinus => "-"
  end.

Fixpoint num_text (l : list NumChar) : string :=
  match l with
  | [] => ""
  | c :: rest => String (num_char c) (num_text rest)
  end.

(** What the bot takes from outside its own code: [Number(text)] on the
    texts that are not the decimal form of an integer of magnitude at
    most 2^53, [String(n)] on the finite numbers that are not such an
    integer (from 2^53 on the digits are those of the nearest double, and
    from 1e21 on the notation has an exponent), and the strict parser
    [dayjs(text, "HH:mm DD/MM/YYYY", true)], which gives the Unix time of
    a valid text. *)
Class Js := {
  number_of_text : string -> JsNumber;
  text_of_number : Q -> list NumChar;
  parse_time : string -> option Z
}.

Section Numbers.

Context {js : Js}.

(** [Number(text)] *)
Definition js_number (s : string) : JsNumber :=
  if String.eqb s "" then js_int 0
  else
    match decimal s with
    | Some z => if Z.abs z <=? 9007199254740992 then js_int z else number_of_text s
    | None => number_of_text s
    end.

(** [String(n)], which is also how a template renders [n]. *)
Definition js_string (n : JsNumber) : string :=
  match n with
  | JNaN => "NaN"
  | JInf negative => if negative then "-Infinity" else "Infinity"
  | JFin q =>
      match as_integer n with
      | Some z =>
          if Z.abs z <=? 9007199254740992 then num_to_string z
          else num_text (text_of_number q)
      | None => num_text (text_of_number q)
      end
  end.

End Numbers.

Section Bot.

Context {env : Env} {js : Js}.

Definition isAdmin (userId : Z) : bool := existsb (Z.eqb userId) ADMINS.

(** ** The selector *)

Definition rank_of (sd : string) (gid : Z) (p : User) : Ranked :=
  {| r_user_id := user_id p;
     r_name := name p;
     rank := hmacSha256Hex sd
               (num_to_string gid ++ ":" ++ num_to_string (user_id p))%string |}.

(** The comparator handed to [sort]. *)
Definition cmpRanked (a b : Ranked) : Z :=
  let c := localeCompare (rank a) (rank b) in
  if negb (c =? 0) then c else r_user_id a - r_user_id b.

Definition pickWinnersDeterministic
    (sd : string) (gid : Z) (ps : list User) (k : Q) : list Ranked :=
  let ranked := map (rank_of sd gid) ps in
  let ranked := array_sort cmpRanked ranked in
  slice0 ranked (min_as_end k (Z.of_nat (List.length ranked))).

(** The order the specification describes: rank ascending as a byte
    string, ties broken by participant id ascending. *)
Definition rank_then_id (a b : Ranked) : Prop :=
  String_as_OT.lt (rank a) (rank b)
  \/ (rank a = rank b /\ r_user_id a <= r_user_id b).

(** ** The proof text *)

Definition proof_commit_field (g : Giveaway) : string :=
  escHtml (str_or (seed_hash g) "N/A").

Definition proof_seed_field (g : Giveaway) : string :=
  escHtml (if truthy (ended g) && negb (truthy (canceled g))
           then str_or (seed g) "N/A"
           else txt_seed_hidden).

Definition proof_header (g : Giveaway) : string :=
  ("🔒 <b>PROOF (chỉ DM)</b>" ++ nl ++ nl ++
   "#" ++ num_to_string (id g) ++ nl ++
   "🎁 <b>Phần thưởng:</b> " ++ escHtml (prize g) ++ nl ++
   "🤝 <b>Nhà tài trợ:</b> " ++ escHtml (sponsor g) ++ nl ++
   "⏰ <b>Quay lúc:</b> " ++ fmtUnix (end_time g) ++ nl ++ nl)%string.

Definition proof_footer : string :=
  ("✅ <b>Verify:</b>" ++ nl ++
   "rank = HMAC_SHA256(seed, " ++ dquote ++ "&lt;id&gt;:&lt;user_id&gt;" ++ dquote ++
   "), sort asc, lấy top N.")%string.

Definition buildProofText (g : Giveaway) : string :=
  (proof_header g ++
   "🔒 <b>Commit:</b> <code>" ++ proof_commit_field g ++ "</code>" ++ nl ++
   "🔓 <b>Seed:</b> <code>" ++ proof_seed_field g ++ "</code>" ++ nl ++ nl ++
   proof_footer)%string.

(** The proof sent to every operator, each send fire-and-forget. *)
Definition proof_dms (g : Giveaway) : list Output :=
  map (fun adminId => SendMessage adminId (MsgProof (buildProofText g))) ADMINS.

(** ** The scheduler *)

(** The due query of [drawAndAnnounce]. *)
Definition due_query (now : Z) (st : Store) : list Giveaway :=
  filter (fun g => (canceled g =? 0) && (end_time g <=? now) && (announced g =? 0))
         (giveaways st).

(** The body of the draw transaction: one insert per picked winner, then
    the update of the giveaway. *)
Definition draw_statements (now gid : Z) (picked : list Ranked) : list (Store -> Store) :=
  map (fun w => insert_winner gid (r_user_id w) (r_name w)) picked
  ++ [update_giveaway gid (set_ended now)].

(** The announce step up to its [await]: winners read back from the
    table, then the row, then the public send. *)
Definition announce_from_db (now : Z) (g : Giveaway) (st : Store)
    : Store * option (list Giveaway -> Task) * list Output :=
  match winners_of (id g) st with
  | [] => (st, None, [LogError "AUTO_ANNOUNCE_NO_WINNERS_IN_DB" (id g)])
  | ws =>
      match get_giveaway (id g) st with
      | None => (st, None, [LogError "AUTO_ANNOUNCE_FAIL" (id g)])
      | Some fresh =>
          (st, Some (TickWinnersSent now g fresh),
           [SendMessage (chat_id fresh) (MsgWinners fresh ws)])
      end
  end.

(** One iteration of the loop over the pending rows, up to its first
    [await] or to its end; [g] is the row as the due query returned it. *)
Definition tick_body (now : Z) (faults : Faults) (g : Giveaway) (st : Store)
    : Store * option (list Giveaway -> Task) * list Output :=
  if ended g =? 0 then
    match participants_of (id g) st with
    | [] =>
        (update_giveaway (id g) (set_ended now) st,
         Some (TickEmptySent now g),
         [SendMessage (chat_id g) (MsgEmpty (id g) (prize g) (sponsor g))])
    | ps =>
        match seed g with
        | None => (st, None, [LogError "AUTO_ANNOUNCE_FAIL" (id g)])
        | Some sd =>
            let picked := pickWinnersDeterministic sd (id g) ps (winners g) in
            let '(st1, done) :=
              db_transaction (draw_statements now (id g) picked) (faults (id g)) st in
            if done then announce_from_db now g st1
            else (st1, None, [LogError "AUTO_ANNOUNCE_FAIL" (id g)])
        end
    end
  else announce_from_db now g st.

(** The loop, from the given pending rows to the next [await]. *)
Fixpoint tick_loop (now : Z) (faults : Faults) (rows : list Giveaway) (st : Store)
    : Store * option Task * list Output :=
  match rows with
  | [] => (st, None, [])
  | g :: rest =>
      match tick_body now faults g st with
      | (st1, Some k, out) => (st1, Some (k rest), out)
      | (st1, None, out) =>
          let '(st2, t, out2) := tick_loop now faults rest st1 in
          (st2, t, out ++ out2)
      end
  end.

(** [drawAndAnnounce()], from its start to its first [await]. *)
Definition drawAndAnnounce (now : Z) (faults : Faults) (st : Store)
    : Store * option Task * list Output :=
  tick_loop now faults (due_query now st) st.

(** After the send of the no-entrants notice has settled. *)
Definition tick_after_empty (now : Z) (g : Giveaway) (r : option Z) (st : Store)
    : Store * list Output :=
  match r with
  | Some _ =>
      let st1 := update_giveaway (id g) (set_announced now) st in
      (st1,
       match get_giveaway (id g) st1 with
       | Some fresh => proof_dms fresh
       | None => match ADMINS with
                 | [] => []
                 | _ => [LogError "AUTO_ANNOUNCE_FAIL" (id g)]
                 end
       end)
  | None => (st, [LogError "AUTO_ANNOUNCE_FAIL" (id g)])
  end.

(** After the send of the winners text has settled. *)
Definition tick_after_winners (now : Z) (g fresh : Giveaway) (r : option Z) (st : Store)
    : Store * list Output :=
  match r with
  | Some _ => (update_giveaway (id g) (set_announced now) st, proof_dms fresh)
  | None => (st, [LogError "AUTO_ANNOUNCE_FAIL" (id g)])
  end.

(** ** The join action *)

Definition join_name (c : Ctx) : string :=
  str_or (first_name c) (str_or (username c) "User").

(** Up to [await isGroupMember(...)]. *)
Definition join_action (c : Ctx) (now gid : Z) (st : Store)
    : option Task * list Output :=
  match get_giveaway gid st with
  | None => (None, [AnswerCbQuery c txt_join_missing])
  | Some g =>
      if canceled g =? 1 then (None, [AnswerCbQuery c txt_join_canceled])
      else if (ended g =? 1) || (now >=? end_time g)
      then (None, [AnswerCbQuery c txt_join_closed])
      else (Some (JoinMemberAsked c gid g now), [GetChatMember (chat_id g) (from_id c)])
  end.

(** [isGroupMember]: a rejected lookup counts as not a member. *)
Definition member_ok (r : option Z) : bool :=
  match r with
  | Some v => negb (v =? 0)
  | None => false
  end.

(** From the membership answer to the end of the handler. *)
Definition join_finish (c : Ctx) (gid : Z) (g : Giveaway) (now : Z) (r : option Z)
    (st : Store) : Store * list Output :=
  if negb (member_ok r) then (st, [AnswerCbQuery c txt_join_not_member])
  else
    match insert_participant gid (from_id c) (join_name c) now st with
    | None => (st, [AnswerCbQuery c txt_join_already])
    | Some st1 =>
        (st1,
         [EditMessageText (chat_id g) (message_id g)
            (MsgGiveawayPost (prize g) (sponsor g) (winners g) (end_time g)
               (count_participants gid st1));
          AnswerCbQuery c txt_join_ok])
    end.

(** ** Operator commands *)

(** [/cancel <id> [reason]] *)
Definition cmd_cancel (c : Ctx) (now gid : Z) (reason : string) (st : Store)
    : Store * list Output :=
  if negb (isAdmin (from_id c)) then (st, [])
  else if gid =? 0 then (st, [Reply c (MsgText txt_cancel_usage)])
  else
    match get_giveaway gid st with
    | None => (st, [Reply c (MsgText txt_cancel_missing)])
    | Some g =>
        if canceled g =? 1 then (st, [Reply c (MsgText txt_cancel_already)])
        else if ended g =? 1 then (st, [Reply c (MsgText txt_cancel_ended)])
        else
          let st1 := update_giveaway gid (set_canceled now reason) st in
          (st1,
           [EditMessageText (chat_id g) (message_id g)
              (MsgCanceledPost g reason (count_participants gid st1));
            SendMessage (chat_id g) (MsgCancelNotice gid (prize g) reason);
            Reply c (MsgText ("✅ Đã hủy giveaway #" ++ num_to_string gid ++ "."))])
    end.

(** [/announce <id>], up to the [await] of the public send. *)
Definition cmd_announce (c : Ctx) (gid : Z) (st : Store) : option Task * list Output :=
  if negb (isAdmin (from_id c)) then (None, [])
  else if negb (chat_private c) then (None, [Reply c (MsgText txt_announce_dm)])
  else if gid =? 0 then (None, [Reply c (MsgText txt_announce_usage)])
  else
    match get_giveaway gid st with
    | None => (None, [Reply c (MsgText txt_missing)])
    | Some g =>
        if truthy (canceled g) then (None, [Reply c (MsgText txt_announce_canceled)])
        else if negb (truthy (ended g))
        then (None, [Reply c (MsgText txt_announce_not_ended)])
        else
          match winners_of gid st with
          | [] => (None, [Reply c (MsgText txt_announce_no_winners)])
          | ws => (Some (AnnounceSent c gid g), [SendMessage (chat_id g) (MsgWinners g ws)])
          end
    end.

(** [/announce], after the public send has settled; [now] is the clock
    read for [announced_at] at that point. *)
Definition announce_finish (c : Ctx) (gid : Z) (g : Giveaway) (now : Z) (r : option Z)
    (st : Store) : Store * list Output :=
  match r with
  | Some _ =>
      (update_giveaway gid (set_announced now) st,
       proof_dms g ++
       [Reply c (MsgText ("✅ Đã gửi kết quả giveaway #" ++ num_to_string gid ++ " vào nhóm."))])
  | None => (st, [LogError "MANUAL_ANNOUNCE_FAIL" gid; Reply c MsgAnnounceFailed])
  end.

(** [/ginfo <id>]: the proof is appended in a private chat only. *)
Definition cmd_ginfo (c : Ctx) (gid : Z) (st : Store) : list Output :=
  if negb (isAdmin (from_id c)) then []
  else if gid =? 0 then [Reply c (MsgText txt_ginfo_usage)]
  else
    match get_giveaway gid st with
    | None => [Reply c (MsgText txt_missing)]
    | Some g =>
        [Reply c (MsgGinfo g (count_participants gid st) (winners_of gid st)
                    (if chat_private c then Some (buildProofText g) else None))]
    end.

(** [/proof <id>] *)
Definition cmd_proof (c : Ctx) (gid : Z) (st : Store) : list Output :=
  if negb (isAdmin (from_id c)) then []
  else if negb (chat_private c) then [Reply c (MsgText txt_proof_dm)]
  else if gid =? 0 then [Reply c (MsgText txt_proof_usage)]
  else
    match get_giveaway gid st with
    | None => [Reply c (MsgText txt_missing)]
    | Some g => [Reply c (MsgProof (buildProofText g))]
    end.

(** ** Creation *)

(** [createGiveawayAndPost], up to the [await] of the group post;
    [sd] is the value [makeSeed()] returned. *)
Definition createGiveawayAndPost
    (c : Ctx) (targetGroupId : Z) (w : Q) (endUnix : Z) (pr sp : string) (sd : string)
    : Task * list Output :=
  let sh := sha256Hex sd in
  (CreateSent c targetGroupId w endUnix pr sp sd sh,
   [SendMessage targetGroupId (MsgGiveawayPost pr sp w endUnix 0)]).

(** After the group post has settled: the insert, then the [await] of the
    button update. *)
Definition create_after_post
    (c : Ctx) (targetGroupId : Z) (w : Q) (endUnix : Z) (pr sp sd sh : string)
    (now : Z) (r : option Z) (st : Store) : Store * option Task * list Output :=
  match r with
  | Some mid =>
      let '(st1, gid) := insert_giveaway targetGroupId mid pr sp w endUnix now sd sh st in
      (st1, Some (CreateMarkupSent c gid endUnix),
       [EditMessageReplyMarkup targetGroupId mid ("join_" ++ num_to_string gid)])
  | None => (st, None, [Reply c (MsgText txt_create_failed)])
  end.

(** After the button update has settled. *)
Definition create_after_markup (c : Ctx) (gid endUnix : Z) (r : option Z) : list Output :=
  match r with
  | Some _ => [Reply c (MsgCreated gid endUnix)]
  | None => [Reply c (MsgText txt_create_failed)]
  end.

(** ** The process *)

(** Resuming a suspended handler with the outcome of its gateway call. *)
Definition resume (t : Task) (now : Z) (r : option Z) (faults : Faults) (st : Store)
    : Store * option Task * list Output :=
  match t with
  | TickEmptySent tnow g rest =>
      let '(st1, out) := tick_after_empty tnow g r st in
      let '(st2, t', out2) := tick_loop tnow faults rest st1 in
      (st2, t', out ++ out2)
  | TickWinnersSent tnow g fresh rest =>
      let '(st1, out) := tick_after_winners tnow g fresh r st in
      let '(st2, t', out2) := tick_loop tnow faults rest st1 in
      (st2, t', out ++ out2)
  | JoinMemberAsked c gid g jnow =>
      let '(st1, out) := join_finish c gid g jnow r st in (st1, None, out)
  | AnnounceSent c gid g =>
      let '(st1, out) := announce_finish c gid g now r st in (st1, None, out)
  | CreateSent c tg w endUnix pr sp sd sh =>
      create_after_post c tg w endUnix pr sp sd sh now r st
  | CreateMarkupSent c gid endUnix =>
      (st, None, create_after_markup c gid endUnix r)
  end.

Definition step (ev : Event) (sys : Sys) : Sys * list Output :=
  match ev with
  | Tick now faults =>
      let '(st, t, out) := drawAndAnnounce now faults (store sys) in
      ({| store := st; tasks := tasks sys ++ opt_to_list t |}, out)
  | Resume i now r faults =>
      match nth_error (tasks sys) i with
      | None => (sys, [])
      | Some t =>
          let '(st, t', out) := resume t now r faults (store sys) in
          ({| store := st; tasks := remove_nth i (tasks sys) ++ opt_to_list t' |}, out)
      end
  | CmdCancel c now gid reason =>
      let '(st, out) := cmd_cancel c now gid reason (store sys) in
      ({| store := st; tasks := tasks sys |}, out)
  | CmdAnnounce c gid =>
      let '(t, out) := cmd_announce c gid (store sys) in
      ({| store := store sys; tasks := tasks sys ++ opt_to_list t |}, out)
  | CmdGinfo c gid => (sys, cmd_ginfo c gid (store sys))
  | CmdProof c gid => (sys, cmd_proof c gid (store sys))
  | ActJoin c now gid =>
      let '(t, out) := join_action c now gid (store sys) in
      ({| store := store sys; tasks := tasks sys ++ opt_to_list t |}, out)
  | Create c tg w endUnix pr sp sd =>
      let '(t, out) := createGiveawayAndPost c tg w endUnix pr sp sd in
      ({| store := store sys; tasks := tasks sys ++ [t] |}, out)
  end.

(** A run: the events in the order the event loop serves them. *)
Fixpoint run (evs : list Event) (sys : Sys) : Sys * list Output :=
  match evs with
  | [] => (sys, [])
  | ev :: rest =>
      let '(sys1, out) := step ev sys in
      let '(sys2, out2) := run rest sys1 in
      (sys2, out ++ out2)
  end.

(** ** A tick that is not interleaved *)

(** The rest of one iteration once its public send has settled. *)
Definition tick_settle (t : Task) (r : option Z) (st : Store) : Store * list Output :=
  match t with
  | TickEmptySent now g _ => tick_after_empty now g r st
  | TickWinnersSent now g fresh _ => tick_after_winners now g fresh r st
  | _ => (st, [])
  end.

(** One iteration of the loop together with what follows its [await],
    when no other handler is served in between; [sends gid] is how the
    public send for the giveaway [gid] settles. *)
Definition tick_iteration (now : Z) (faults : Faults) (sends : Z -> option Z)
    (g : Giveaway) (rest : list Giveaway) (st : Store) : Store * list Output :=
  let '(st1, k, out) := tick_body now faults g st in
  match k with
  | Some k =>
      let '(st2, out2) := tick_settle (k rest) (sends (id g)) st1 in
      (st2, out ++ out2)
  | None => (st1, out)
  end.

(** A whole tick over the given pending rows, not interleaved. *)
Fixpoint tick_complete (now : Z) (faults : Faults) (sends : Z -> option Z)
    (rows : list Giveaway) (st : Store) : Store * list Output :=
  match rows with
  | [] => (st, [])
  | g :: rest =>
      let '(st1, out) := tick_iteration now faults sends g rest st in
      let '(st2, out2) := tick_complete now faults sends rest st1 in
      (st2, out ++ out2)
  end.

Definition drawAndAnnounce_complete (now : Z) (faults : Faults) (sends : Z -> option Z)
    (st : Store) : Store * list Output :=
  tick_complete now faults sends (due_query now st) st.

(** ** Handlers that are not interleaved *)

(** One handler run from its start to its end with nothing served in
    between; the gateway outcomes it meets are part of the turn. *)
Inductive Turn :=
| TurnTick (now : Z) (faults : Faults) (sends : Z -> option Z)
| TurnCancel (c : Ctx) (now gid : Z) (reason : string)
| TurnAnnounce (c : Ctx) (gid now : Z) (r : option Z)
| TurnJoin (c : Ctx) (now gid : Z) (r : option Z)
| TurnCreate (c : Ctx) (targetGroupId : Z) (w : Q) (endUnix : Z) (pr sp sd : string)
    (now : Z) (r : option Z).

Definition turn (t : Turn) (st : Store) : Store :=
  match t with
  | TurnTick now faults sends => fst (drawAndAnnounce_complete now faults sends st)
  | TurnCancel c now gid reason => fst (cmd_cancel c now gid reason st)
  | TurnAnnounce c gid now r =>
      match fst (cmd_announce c gid st) with
      | Some (AnnounceSent c' gid' g) => fst (announce_finish c' gid' g now r st)
      | _ => st
      end
  | TurnJoin c now gid r =>
      match fst (join_action c now gid st) with
      | Some (JoinMemberAsked c' gid' g jnow) => fst (join_finish c' gid' g jnow r st)
      | _ => st
      end
  | TurnCreate c tg w endUnix pr sp sd now r =>
      fst (fst (create_after_post c tg w endUnix pr sp sd (sha256Hex sd) now r st))
  end.

Definition turns (l : list Turn) (st : Store) : Store :=
  fold_left (fun s t => turn t s) l st.

(** ** Well-formed states *)

Definition flag (z : Z) : Prop := z = 0 \/ z = 1.

Definition committed (g : Giveaway) : Prop :=
  exists sd, seed g = Some sd /\ seed_hash g = Some (sha256Hex sd).

Definition row_ok (g : Giveaway) : Prop :=
  flag (ended g) /\ flag (canceled g) /\ flag (announced g) /\ committed g.

Definition participant_key (p : ParticipantRow) : Z * Z :=
  (p_giveaway_id p, p_user_id p).

(** What the schema and the handlers maintain: flags are 0 or 1, every
    row carries its commitment, keys are unique and below the next
    AUTOINCREMENT value, and entries refer to giveaways created before. *)
Definition store_ok (st : Store) : Prop :=
  Forall row_ok (giveaways st)
  /\ Forall (fun g => id g < next_id st) (giveaways st)
  /\ NoDup (map id (giveaways st))
  /\ Forall (fun p => p_giveaway_id p < next_id st) (participants st)
  /\ NoDup (map participant_key (participants st)).

Definition task_ok (st : Store) (t : Task) : Prop :=
  match t with
  | JoinMemberAsked _ gid g jnow =>
      gid < next_id st
      /\ id g = gid /\ ended g = 0 /\ canceled g = 0 /\ jnow < end_time g
  | CreateSent _ _ _ _ _ _ sd sh => sh = sha256Hex sd
  | _ => True
  end.

Definition sys_ok (sys : Sys) : Prop :=
  store_ok (store sys) /\ Forall (task_ok (store sys)) (tasks sys).

(** The commitment columns of a row, with its key. *)
Definition commitment (g : Giveaway) : Z * option string * option string :=
  (id g, seed g, seed_hash g).

(** Which outputs carry a proof view, and which deliveries are private to
    an operator: a direct message to an operator id, or a reply to an
    operator in a private chat. *)
Definition message_has_proof (m : Message) : bool :=
  match m with
  | MsgProof _ => true
  | MsgGinfo _ _ _ (Some _) => true
  | _ => false
  end.

Definition carries_proof (o : Output) : bool :=
  match o with
  | SendMessage _ m => message_has_proof m
  | EditMessageText _ _ m => message_has_proof m
  | Reply _ m => message_has_proof m
  | _ => false
  end.

Definition private_delivery (o : Output) : Prop :=
  match o with
  | SendMessage chat _ => In chat ADMINS
  | Reply c _ => chat_private c = true /\ In (from_id c) ADMINS
  | _ => False
  end.

(** ** Notions used by the properties *)

(** Running every statement in order. *)
Definition apply_all (stmts : list (Store -> Store)) (st : Store) : Store :=
  fold_left (fun s f => f s) stmts st.

(** The winners row written for a picked participant. *)
Definition winner_row (gid : Z) (w : Ranked) : WinnerRow :=
  mkWinnerRow gid (r_user_id w) (r_name w).

(** A change of the store that creates no giveaway row and leaves every
    commitment as it is. *)
Definition keeps_rows (st st' : Store) : Prop :=
  map commitment (giveaways st') = map commitment (giveaways st)
  /\ next_id st' = next_id st
  /\ (store_ok st -> store_ok st').

(** A text shows a value in the field of a label: after the label, the
    value stands between [<code>] and [</code>]. *)
Definition shows_field (text label value : string) : Prop :=
  exists before after,
    text = (before ++ label ++ "<code>" ++ value ++ "</code>" ++ after)%string.

(** The row with another value in its [seed] column. *)
Definition with_seed (sd : option string) (g : Giveaway) : Giveaway :=
  {| id := id g; chat_id := chat_id g; message_id := message_id g;
     prize := prize g; sponsor := sponsor g; winners := winners g;
     end_time := end_time g; ended := ended g; created_at := created_at g;
     ended_at := ended_at g; seed := sd; seed_hash := seed_hash g;
     canceled := canceled g; cancel_reason := cancel_reason g;
     announced := announced g; announced_at := announced_at g |}.

Definition all_private (out : list Output) : Prop :=
  forall o, In o out -> carries_proof o = true -> private_delivery o.

Definition no_proof (out : list Output) : Prop :=
  forall o, In o out -> carries_proof o = false.

(** A change of the store that leaves the row and the winners of every
    giveaway but [gid'] alone. *)
Definition only_touches (gid' : Z) (st st' : Store) : Prop :=
  forall gid, gid <> gid' ->
    get_giveaway gid st' = get_giveaway gid st
    /\ winners_of gid st' = winners_of gid st.

(** What a tick may change in the row of a giveaway it does not draw. *)
Definition draw_kept (g g' : Giveaway) : Prop :=
  ended g' = ended g /\ ended_at g' = ended_at g
  /\ canceled g' = canceled g /\ cancel_reason g' = cancel_reason g.

(** A change of the store that leaves [announced] and [announced_at] of
    every giveaway alone. *)
Definition announce_kept (st st' : Store) : Prop :=
  forall gid g,
    get_giveaway gid st = Some g ->
    exists g',
      get_giveaway gid st' = Some g'
      /\ announced g' = announced g /\ announced_at g' = announced_at g.

(** The tasks that wait for the public send about the giveaway [gid]. *)
Definition awaits_public_send (gid : Z) (t : Task) : Prop :=
  match t with
  | TickEmptySent _ g _ => id g = gid
  | TickWinnersSent _ g _ _ => id g = gid
  | AnnounceSent _ gid' _ => gid' = gid
  | _ => False
  end.

(** The lifecycle of a row: a giveaway that is not ended is neither
    announced nor drawn, and a canceled one is ended, not announced and
    not drawn. *)
Definition row_lifecycle (st : Store) (g : Giveaway) : Prop :=
  (ended g = 0 -> announced g = 0 /\ winners_of (id g) st = [])
  /\ (canceled g = 1 ->
      announced g = 0 /\ winners_of (id g) st = [] /\ ended g = 1).

Definition lifecycle_ok (st : Store) : Prop :=
  store_ok st
  /\ Forall (row_lifecycle st) (giveaways st)
  /\ Forall (fun w => w_giveaway_id w < next_id st) (winners_tbl st).

(** ** Notions used by the further properties *)

(** The columns of a giveaway row that no statement updates. *)
Definition terms (g : Giveaway)
    : Z * Z * Z * string * string * Q * Z * Z * option string * option string :=
  (id g, chat_id g, message_id g, prize g, sponsor g, winners g, end_time g,
   created_at g, seed g, seed_hash g).

(** What can become of a row: its terms stay, and a flag that is set
    stays set. *)
Definition row_step (g g' : Giveaway) : Prop :=
  terms g' = terms g
  /\ (ended g = 1 -> ended g' = 1)
  /\ (canceled g = 1 -> canceled g' = 1)
  /\ (announced g = 1 -> announced g' = 1).

(** What can become of the database: the giveaway rows are kept, in
    their order, each as [row_step] allows, and new ones come after them;
    the entries are kept; the winners rows are kept, new ones after
    them. *)
Definition grows (st st' : Store) : Prop :=
  (exists kept new,
     giveaways st' = kept ++ new /\ Forall2 row_step (giveaways st) kept)
  /\ incl (participants st) (participants st')
  /\ (exists more, winners_tbl st' = winners_tbl st ++ more).

(** A winners row that names an entry of its giveaway. *)
Definition entrant (st : Store) (w : WinnerRow) : Prop :=
  In (mkUser (w_user_id w) (w_name w)) (participants_of (w_giveaway_id w) st).

(** A row whose [ended_at] is not before its close time. *)
Definition late (g : Giveaway) : Prop :=
  exists t, ended_at g = Some t /\ end_time g <= t.

Definition closed_on_time (st : Store) (g : Giveaway) : Prop :=
  (ended g = 1 -> canceled g = 0 -> late g)
  /\ (winners_of (id g) st <> [] -> ended g = 1 /\ late g)
  /\ (announced g = 1 -> ended g = 1).

(** A row a tick holds since its due query at time [tnow]: the terms of a
    stored row, with a close time that has come. *)
Definition held_row (st : Store) (tnow : Z) (r : Giveaway) : Prop :=
  end_time r <= tnow
  /\ exists g, In g (giveaways st) /\ terms g = terms r.

Definition ended_in (st : Store) (gid : Z) : Prop :=
  exists g, In g (giveaways st) /\ id g = gid /\ ended g = 1.

(** What holds of the handlers suspended at a public send. *)
Definition task_due (st : Store) (t : Task) : Prop :=
  match t with
  | TickEmptySent tnow g rest =>
      Forall (held_row st tnow) (g :: rest) /\ ended_in st (id g)
  | TickWinnersSent tnow g _ rest =>
      Forall (held_row st tnow) (g :: rest) /\ ended_in st (id g)
  | AnnounceSent _ gid _ => ended_in st gid
  | _ => True
  end.

Definition draws_ok (st : Store) : Prop :=
  Forall (closed_on_time st) (giveaways st)
  /\ Forall (entrant st) (winners_tbl st).

Definition draw_ok (sys : Sys) : Prop :=
  sys_ok sys
  /\ draws_ok (store sys)
  /\ Forall (task_due (store sys)) (tasks sys).

(** A winners text that lists entries of its giveaway only. *)
Definition lists_entrants (st : Store) (o : Output) : Prop :=
  match o with
  | SendMessage _ (MsgWinners g ws) => incl ws (participants_of (id g) st)
  | _ => True
  end.

(** A picked participant as the winners table keeps it. *)
Definition to_user (r : Ranked) : User := mkUser (r_user_id r) (r_name r).

(** The winners rows of a drawn giveaway are what the selector returns on
    the stored seed, the stored entries and the stored winner count. *)
Definition selection_stored (st : Store) (g : Giveaway) : Prop :=
  ended g = 1 -> canceled g = 0 ->
  exists sd,
    seed g = Some sd
    /\ winners_of (id g) st
       = map to_user
           (pickWinnersDeterministic sd (id g) (participants_of (id g) st) (winners g)).

Definition fair_ok (st : Store) : Prop :=
  lifecycle_ok st /\ Forall (selection_stored st) (giveaways st).

(** ** The public texts

    The texts the bot sends to the group, as the builders make them.  In
    the messages above [MsgGiveawayPost] stands for
    [buildGiveawayTextPublic], [MsgWinners] for [buildWinnersTextPublic],
    [MsgCanceledPost g reason count] for [buildCanceledTextPublic] on the
    row with [cancel_reason] set to [reason], [MsgCancelNotice] and
    [MsgEmpty] for the notices of [/cancel] and of the scheduler. *)

Definition txt_no_reason : string := "Không có".

Definition buildGiveawayTextPublic (pr sp : string) (w : Q) (endt count : Z)
    : string :=
  ("🎉 <b>GIVEAWAY</b> 🎉" ++ nl ++ nl ++ "📌 <b>Nội dung:</b> " ++ escHtml pr ++ nl ++
   "🤝 <b>Nhà tài trợ:</b> " ++ escHtml sp ++ nl ++ "⏰ <b>Thời gian quay:</b> " ++
   fmtUnix endt ++ nl ++ "🏆 <b>Số người trúng:</b> " ++ js_string (JFin w) ++ nl ++
   "👥 <b>Số người tham gia:</b> " ++ num_to_string count ++ nl ++ nl ++
   "👇 Nhấn nút bên dưới để tham gia!")%string.

(** The lines [winners.forEach((w, i) => ...)] appends, from index [i]. *)
Fixpoint winners_lines (i : Z) (ws : list User) : string :=
  match ws with
  | [] => ""
  | w :: rest =>
      (num_to_string (i + 1) ++ ". " ++ escHtml (name w) ++ " (" ++
       num_to_string (user_id w) ++ ")" ++ nl ++
       winners_lines (i + 1) rest)%string
  end.

Definition buildWinnersTextPublic (g : Giveaway) (ws : list User) : string :=
  ("🎉 <b>CHÚC MỪNG NGƯỜI CHIẾN THẮNG!</b> 🎉" ++ nl ++ nl ++ "🏆 <b>Danh sách:</b>" ++ nl ++
   winners_lines 0 ws ++
   nl ++ "🎁 <b>Phần thưởng:</b> " ++ escHtml (prize g) ++ nl ++
   "🤝 <b>Nhà tài trợ:</b> " ++ escHtml (sponsor g) ++ nl ++ nl ++
   "📩 Vui lòng liên hệ nhà tài trợ để nhận quà.")%string.

Definition buildCanceledTextPublic (g : Giveaway) (count : Z) : string :=
  ("⛔ <b>GIVEAWAY ĐÃ BỊ HỦY</b>" ++ nl ++ nl ++ "📌 <b>Nội dung:</b> " ++
   escHtml (prize g) ++ nl ++ "🤝 <b>Nhà tài trợ:</b> " ++ escHtml (sponsor g) ++ nl ++
   "👥 <b>Đã tham gia:</b> " ++ num_to_string count ++ nl ++ "📝 <b>Lý do:</b> " ++
   escHtml (str_or (cancel_reason g) txt_no_reason) ++ nl)%string.

(** The notice of the scheduler for a giveaway without entries. *)
Definition emptyText (gid : Z) (pr sp : string) : string :=
  ("⛔ Giveaway #" ++ num_to_string gid ++ " kết thúc nhưng không có ai tham gia." ++
   nl ++ "🎁 <b>Phần thưởng:</b> " ++ escHtml pr ++ nl ++ "🤝 <b>Nhà tài trợ:</b> " ++
   escHtml sp ++ nl)%string.

(** The notice [/cancel] sends to the group. *)
Definition cancelNotice (gid : Z) (pr reason : string) : string :=
  ("⛔ Giveaway #" ++ num_to_string gid ++ " đã bị <b>hủy</b>." ++ nl ++
   "🎁 <b>Phần thưởng:</b> " ++ escHtml pr ++ nl ++ "📝 <b>Lý do:</b> " ++ escHtml reason)%string.

(** The characters that open or close markup in a text sent with
    [parse_mode: "HTML"], and how many of them a text holds. *)
Definition is_angle (c : ascii) : bool :=
  Ascii.eqb c "<" || Ascii.eqb c ">".

Fixpoint angle_count (s : string) : nat :=
  match s with
  | "" => O
  | String c r => ((if is_angle c then 1 else 0) + angle_count r)%nat
  end.

(** ** The settings table

    The rows of [settings] in rowid order: [key TEXT PRIMARY KEY],
    [value TEXT]. *)
Definition Settings := list (string * option string).

(** [getSetting(key)]: the value of the row, [null] when there is none. *)
Definition getSetting (key : string) (s : Settings) : option string :=
  match find (fun r => String.eqb (fst r) key) s with
  | Some r => snd r
  | None => None
  end.

(** [INSERT ... ON CONFLICT(key) DO UPDATE SET value=excluded.value] *)
Fixpoint upsert_setting (key : string) (value : option string) (s : Settings)
    : Settings :=
  match s with
  | [] => [(key, value)]
  | r :: rest =>
      if String.eqb (fst r) key then (fst r, value) :: rest
      else r :: upsert_setting key value rest
  end.

(** [setSetting(key, value)] for a number [value]: the row holds
    [String(value)]. *)
Definition setSetting (key : string) (value : JsNumber) (s : Settings) : Settings :=
  upsert_setting key (Some (js_string value)) s.

(** ** [/history] *)

(** [SELECT ... FROM giveaways ORDER BY id DESC LIMIT 10] *)
Definition history_query (st : Store) : list Giveaway :=
  firstn 10 (array_sort (fun a b => id b - id a) (giveaways st)).

Definition history_status (r : Giveaway) : string :=
  if truthy (canceled r) then "⛔ Hủy"
  else if truthy (ended r) then "✅ Đã quay" else "⏳ Đang chạy".

Definition history_ann (r : Giveaway) : string :=
  if truthy (announced r) then "📣" else "🕒".

Definition history_line (r : Giveaway) : string :=
  ("#" ++ num_to_string (id r) ++ " | " ++ history_status r ++ " " ++ history_ann r ++
   " | " ++ escHtml (prize r) ++ nl ++ "   ⏰ " ++ fmtUnix (end_time r) ++ nl)%string.

Definition history_text (rows : list Giveaway) : string :=
  ("📜 <b>LỊCH SỬ GIVEAWAY</b>" ++ nl ++ nl ++
   (match rows with [] => "(chưa có)" ++ nl | _ => "" end) ++
   String.concat "" (map history_line rows))%string.

(** [/history], for an operator. *)
Definition cmd_history (c : Ctx) (st : Store) : list Output :=
  if negb (isAdmin (from_id c)) then []
  else [Reply c (MsgText (history_text (history_query st)))].

(** ** The command router *)

(** [getCmd(ctx)]: the first word of the text, without the name of the
    bot it may be addressed to. *)
Definition getCmd (text : string) : string :=
  strip_mention (hd "" (trim_split text)).

(** The id and the reason of a command line: the second word as a
    number, and the words from the third on joined by one space each, or
    the default reason when there is none. *)
Definition arg_id (text : string) : JsNumber :=
  js_number (trim (nth 1 (trim_split text) "")).

Definition arg_reason (text : string) : string :=
  let r := trim (String.concat " " (skipn 2 (trim_split text))) in
  if String.eqb r "" then txt_no_reason else r.

(** The text of [/help]. *)
Definition help_text (isAdm : bool) : string :=
  ("📌 <b>BOT GIVEAWAY - HELP</b>" ++ nl ++ nl ++ "👤 <b>User:</b>" ++ nl ++
   "• <code>/start</code> - Bắt đầu" ++ nl ++
   "• Tham gia giveaway: bấm nút 🎉 Tham gia trong group" ++ nl ++ nl ++
   (if isAdm then
   "🛠️ <b>Admin (DM bot):</b>" ++ nl ++
   "• <code>/newgiveaway</code> - Tạo giveaway bằng form" ++ nl ++
   "• <code>/giveaway &lt;winners&gt;|&lt;HH:mm DD/MM/YYYY&gt;|&lt;prize&gt;|&lt;sponsor&gt;</code> - Tạo nhanh" ++
   nl ++ "• <code>/proof &lt;id&gt;</code> - Xem Commit/Seed/Verify (chỉ DM)" ++ nl ++
   "• <code>/announce &lt;id&gt;</code> - (Dự phòng) gửi kết quả vào nhóm" ++ nl ++
   nl ++ "🛠️ <b>Admin (Group hoặc DM):</b>" ++ nl ++
   "• <code>/setgroup</code> - Set group mặc định" ++ nl ++
   "• <code>/group</code> - Xem group mặc định" ++ nl ++
   "• <code>/history</code> - 10 giveaway gần nhất" ++ nl ++
   "• <code>/ginfo &lt;id&gt;</code> - Info + winners (Proof chỉ hiện trong DM)" ++
   nl ++ "• <code>/cancel &lt;id&gt; [lý do]</code> - Hủy giveaway" ++ nl
    else
   "🔒 Một số lệnh chỉ dành cho admin."))%string.

(** Running a command on the id it was given.  [!gid] holds of [NaN]
    and of 0, which take the same branch; a number that is not an
    integer is the key of no row. *)
Definition with_id {R : Type} (n : JsNumber) (run : Z -> R) (missing : R) : R :=
  match n with
  | JNaN => run 0
  | JInf _ => missing
  | JFin _ =>
      match as_integer n with
      | Some z => run z
      | None => missing
      end
  end.

(** The second [bot.on("text")] handler; [None] is [next?.()]. *)
Definition router (c : Ctx) (now : Z) (text : string) (sys : Sys)
    : option (Sys * list Output) :=
  let cmd := getCmd text in
  if negb (is_command cmd) then None
  else if String.eqb cmd "/help"
  then Some (sys, [Reply c (MsgText (help_text (isAdmin (from_id c))))])
  else if negb (isAdmin (from_id c)) then None
  else if String.eqb cmd "/history" then Some (sys, cmd_history c (store sys))
  else if String.eqb cmd "/ginfo"
  then Some (with_id (arg_id text)
               (fun gid => step (CmdGinfo c gid) sys)
               (sys, [Reply c (MsgText txt_missing)]))
  else if String.eqb cmd "/proof"
  then Some (with_id (arg_id text)
               (fun gid => step (CmdProof c gid) sys)
               (sys, [Reply c (MsgText (if chat_private c then txt_missing
                                        else txt_proof_dm))]))
  else if String.eqb cmd "/cancel"
  then Some (with_id (arg_id text)
               (fun gid => step (CmdCancel c now gid (arg_reason text)) sys)
               (sys, [Reply c (MsgText txt_cancel_missing)]))
  else if String.eqb cmd "/announce"
  then Some (with_id (arg_id text)
               (fun gid => step (CmdAnnounce c gid) sys)
               (sys, [Reply c (MsgText (if chat_private c then txt_missing
                                        else txt_announce_dm))]))
  else None.

(** ** The dialogue with an operator: settings, form and quick create *)

(** [getDefaultGroupId()]: [null] when the setting is absent or empty. *)
Definition getDefaultGroupId (s : Settings) : option JsNumber :=
  match getSetting "default_group_id" s with
  | Some v => if String.eqb v "" then None else Some (js_number v)
  | None => None
  end.

(** [!x] on a number that may be [null] or [undefined], and on a text. *)
Definition no_number (x : option JsNumber) : bool :=
  match x with
  | Some n => js_not n
  | None => true
  end.

Definition no_time (x : option Z) : bool :=
  match x with
  | Some t => t =? 0
  | None => true
  end.

Definition no_text (x : option string) : bool :=
  match x with
  | Some t => String.eqb t ""
  | None => true
  end.

(** An inline keyboard: its rows of buttons, each a label and the data
    of its callback. *)
Definition Keyboard := list (list (string * string)).

Definition winnersKeyboard : Keyboard :=
  [ [("1", "fw_w_1"); ("2", "fw_w_2"); ("3", "fw_w_3")];
    [("5", "fw_w_5"); ("10", "fw_w_10"); ("Nhập khác", "fw_w_custom")];
    [("❌ Hủy form", "fw_abort")] ].

Definition confirmKeyboard : Keyboard :=
  [ [("✅ Tạo giveaway", "fw_confirm"); ("❌ Hủy", "fw_abort")] ].

(** What a handler of the dialogue says: [ctx.reply], with the keyboard
    it may carry; [ctx.editMessageText], on the message of the pressed
    button; [ctx.answerCbQuery], as an alert or not. *)
Inductive Say :=
| SayReply (c : Ctx) (text : string) (kb : Keyboard)
| SayEdit (c : Ctx) (text : string)
| SayAnswer (c : Ctx) (text : string) (alert : bool).

(** [formState]: the forms in progress, by user id, in the order of the
    [Map]. *)
Record FormData := mkFormData {
  d_winners : option JsNumber;
  d_endUnix : option Z;
  d_prize : option string;
  d_sponsor : option string
}.

Record Form := mkForm {
  f_step : Z;
  f_data : FormData;
  expectingCustomWinners : bool
}.

Definition Forms := list (Z * Form).

Definition getForm (userId : Z) (forms : Forms) : option Form :=
  match find (fun e => fst e =? userId) forms with
  | Some e => Some (snd e)
  | None => None
  end.

(** [formState.set(userId, f)] *)
Fixpoint set_form (userId : Z) (f : Form) (forms : Forms) : Forms :=
  match forms with
  | [] => [(userId, f)]
  | e :: rest =>
      if fst e =? userId then (userId, f) :: rest
      else e :: set_form userId f rest
  end.

Definition startForm (userId : Z) (forms : Forms) : Forms :=
  set_form userId
    {| f_step := 1;
       f_data := mkFormData None None None None;
       expectingCustomWinners := false |} forms.

Definition stopForm (userId : Z) (forms : Forms) : Forms :=
  filter (fun e => negb (fst e =? userId)) forms.

(** The settings table and the forms. *)
Record Dialogue := mkDialogue {
  settings : Settings;
  formState : Forms
}.

Definition init_dialogue : Dialogue := {| settings := []; formState := [] |}.

(** A call of [createGiveawayAndPost]. *)
Record CreateCall := mkCreateCall {
  k_ctx : Ctx;
  k_targetGroupId : JsNumber;
  k_winners : JsNumber;
  k_endUnix : Z;
  k_prize : string;
  k_sponsor : string
}.

(** What a handler does: the state it leaves, what it says, and the call
    of [createGiveawayAndPost] it may end with, together with what it
    says once the call has returned. *)
Record Done := mkDone {
  left : Dialogue;
  said : list Say;
  call : option (CreateCall * list Say)
}.

Definition says (d : Dialogue) (l : list Say) : Done :=
  {| left := d; said := l; call := None |}.

Definition with_forms (d : Dialogue) (forms : Forms) : Dialogue :=
  {| settings := settings d; formState := forms |}.

(** [/setgroup], in the chat of id [chat], an integer. *)
Definition cmd_setgroup (c : Ctx) (chat : Z) (d : Dialogue) : Done :=
  if negb (isAdmin (from_id c)) then says d []
  else if chat_private c
  then says d [SayReply c "Vào group muốn bot đăng giveaway và gõ: /setgroup" []]
  else
    says {| settings := setSetting "default_group_id" (js_int chat) (settings d);
            formState := formState d |}
         [SayReply c ("✅ Đã set group mặc định: <code>" ++ js_string (js_int chat) ++ "</code>")%string []].

(** [/group] *)
Definition cmd_group (c : Ctx) (d : Dialogue) : Done :=
  if negb (isAdmin (from_id c)) then says d []
  else
    let gid := getDefaultGroupId (settings d) in
    says d
      [SayReply c
         (match gid with
          | Some n =>
              if js_not n then "⚠️ Chưa set group. Vào group và gõ /setgroup"
              else ("📌 Group mặc định: <code>" ++ js_string n ++ "</code>")%string
          | None => "⚠️ Chưa set group. Vào group và gõ /setgroup"
          end) []].

(** [/newgiveaway] *)
Definition cmd_newgiveaway (c : Ctx) (d : Dialogue) : Done :=
  if negb (isAdmin (from_id c)) then says d []
  else if negb (chat_private c)
  then says d [SayReply c "ℹ️ Dùng /newgiveaway trong chat riêng với bot." []]
  else if no_number (getDefaultGroupId (settings d))
  then says d [SayReply c "⚠️ Chưa set group. Vào group gõ /setgroup" []]
  else
    says (with_forms d (startForm (from_id c) (formState d)))
         [SayReply c ("🧾 <b>Tạo Giveaway (Form)</b>" ++ nl ++ nl ++ "Bước 1/5: Chọn <b>số người trúng</b>")%string
            winnersKeyboard].

(** [/abort] *)
Definition cmd_abort (c : Ctx) (d : Dialogue) : Done :=
  if negb (isAdmin (from_id c)) then says d []
  else says (with_forms d (stopForm (from_id c) (formState d)))
            [SayReply c "✅ Đã hủy form." []].

Definition txt_form_expired : string := "Form đã hết hạn.".

(** The action [fw_w_(\d+)]; [digits] is [ctx.match[1]], the digits the
    data of the button ends with, and [edited] tells whether the awaited
    [editMessageText] was fulfilled. *)
Definition act_winners (c : Ctx) (digits : string) (edited : bool) (d : Dialogue)
    : Done :=
  match getForm (from_id c) (formState d) with
  | None => says d [SayAnswer c txt_form_expired true]
  | Some st =>
      let st1 :=
        {| f_step := 2;
           f_data := mkFormData (Some (js_number digits)) (d_endUnix (f_data st))
                       (d_prize (f_data st)) (d_sponsor (f_data st));
           expectingCustomWinners := false |} in
      says (with_forms d (set_form (from_id c) st1 (formState d)))
           (SayEdit c ("Bước 2/5: Nhập <b>thời gian quay</b> theo format:" ++ nl ++ "<code>HH:mm DD/MM/YYYY</code>" ++ nl ++ "Ví dụ: <code>22:00 20/01/2026</code>" ++ nl ++ nl ++ "Gõ /abort để hủy.")%string
            :: (if edited then [SayAnswer c "OK" false] else []))
  end.

(** The action [fw_w_custom] *)
Definition act_custom (c : Ctx) (edited : bool) (d : Dialogue) : Done :=
  match getForm (from_id c) (formState d) with
  | None => says d [SayAnswer c txt_form_expired true]
  | Some st =>
      let st1 :=
        {| f_step := f_step st; f_data := f_data st; expectingCustomWinners := true |} in
      says (with_forms d (set_form (from_id c) st1 (formState d)))
           (SayEdit c ("Nhập <b>số người trúng</b> (ví dụ: 7)." ++ nl ++ nl ++ "Gõ /abort để hủy.")%string
            :: (if edited then [SayAnswer c "Nhập số" false] else []))
  end.

(** The action [fw_abort]: a failure of the edit is caught. *)
Definition act_abort (c : Ctx) (d : Dialogue) : Done :=
  says (with_forms d (stopForm (from_id c) (formState d)))
       [SayEdit c "✅ Đã hủy form."; SayAnswer c "Đã hủy" false].

(** The action [fw_confirm] *)
Definition act_confirm (c : Ctx) (edited : bool) (d : Dialogue) : Done :=
  match getForm (from_id c) (formState d) with
  | None => says d [SayAnswer c txt_form_expired true]
  | Some st =>
      let targetGroupId := getDefaultGroupId (settings d) in
      match targetGroupId with
      | Some tg =>
          if js_not tg
          then says (with_forms d (stopForm (from_id c) (formState d)))
                    [SayAnswer c "Chưa set group (/setgroup)." true]
          else
            match d_winners (f_data st), d_endUnix (f_data st),
                  d_prize (f_data st), d_sponsor (f_data st) with
            | Some w, Some e, Some pr, Some sp =>
                if js_not w || (e =? 0) || String.eqb pr "" || String.eqb sp ""
                then says d [SayAnswer c "Thiếu dữ liệu form." true]
                else
                  {| left := with_forms d (stopForm (from_id c) (formState d));
                     said := [SayEdit c "⏳ Đang tạo giveaway..."];
                     call := if edited
                             then Some (mkCreateCall c tg w e pr sp,
                                        [SayAnswer c "Đã tạo" false])
                             else None |}
            | _, _, _, _ => says d [SayAnswer c "Thiếu dữ liệu form." true]
            end
      | None =>
          says (with_forms d (stopForm (from_id c) (formState d)))
               [SayAnswer c "Chưa set group (/setgroup)." true]
      end
  end.

(** [usageText()] *)
Definition usageText : string :=
  ("❌ Sai cú pháp" ++ nl ++ "Dùng:" ++ nl ++
   "/giveaway <số_trúng>|<HH:mm DD/MM/YYYY>|<phần thưởng>|<nhà tài trợ>" ++ nl ++ nl ++
   "Ví dụ:" ++ nl ++
   "/giveaway 3|22:00 20/01/2026|ADMIN CHATGPT BUSINESS 1 THÁNG|@zaaraowo" ++ nl ++
   nl ++ "Hoặc dùng form:" ++ nl ++ "/newgiveaway")%string.

(** How a template renders a field of the form that may be absent, and
    what [fmtUnix] returns on an absent time. *)
Definition show_number (x : option JsNumber) : string :=
  match x with
  | Some n => js_string n
  | None => "undefined"
  end.

Definition show_time (x : option Z) : string :=
  match x with
  | Some t => fmtUnix t
  | None => "Invalid Date"
  end.

Definition show_text (x : option string) : string :=
  match x with
  | Some t => t
  | None => ""
  end.

Definition buildPreviewText (d : FormData) : string :=
  ("🧾 <b>PREVIEW GIVEAWAY</b>" ++ nl ++ nl ++ "🏆 <b>Số người trúng:</b> " ++
   show_number (d_winners d) ++ nl ++ "⏰ <b>Thời gian quay:</b> " ++
   show_time (d_endUnix d) ++ nl ++ "🎁 <b>Phần thưởng:</b> " ++
   escHtml (show_text (d_prize d)) ++ nl ++ "🤝 <b>Nhà tài trợ:</b> " ++
   escHtml (show_text (d_sponsor d)) ++ nl ++ nl ++ "Chọn ✅ để tạo và đăng vào group.")%string.

(** The first [bot.on("text")] handler, which feeds the form; [None] is
    [next?.()], and [now] is the clock the time of step 2 is compared
    with. *)
Definition form_text (c : Ctx) (now : Z) (message : string) (d : Dialogue)
    : option Done :=
  match getForm (from_id c) (formState d) with
  | None => None
  | Some st =>
      if negb (chat_private c) then None
      else if negb (isAdmin (from_id c)) then None
      else
        let text := trim message in
        if String.eqb text "" || is_command text then None
        else
          let reply t := Some (says d [SayReply c t []]) in
          let go st1 t kb :=
            Some (says (with_forms d (set_form (from_id c) st1 (formState d)))
                       [SayReply c t kb]) in
          let data := f_data st in
          if expectingCustomWinners st then
            let n := js_number text in
            if negb (js_isFinite n) || js_lt n 1 || js_gt n 1000
            then reply "❌ Số không hợp lệ. Nhập số từ 1 đến 1000."
            else
              go {| f_step := 2;
                    f_data := mkFormData (Some n) (d_endUnix data) (d_prize data)
                                (d_sponsor data);
                    expectingCustomWinners := false |}
                 ("✅ Số người trúng: <b>" ++ js_string n ++ "</b>" ++ nl ++ nl ++ "Bước 2/5: Nhập <b>thời gian quay</b> (HH:mm DD/MM/YYYY)" ++ nl ++ "Ví dụ: <code>22:00 20/01/2026</code>")%string []
          else if f_step st =? 2 then
            match parse_time text with
            | None => reply "❌ Sai format. Ví dụ: 22:00 20/01/2026"
            | Some e =>
                if e <=? now then reply "❌ Thời gian phải ở tương lai."
                else
                  go {| f_step := 3;
                        f_data := mkFormData (d_winners data) (Some e) (d_prize data)
                                    (d_sponsor data);
                        expectingCustomWinners := expectingCustomWinners st |}
                     "Bước 3/5: Nhập <b>phần thưởng</b>" []
            end
          else if f_step st =? 3 then
            if js_length text <? 2 then reply "❌ Phần thưởng quá ngắn."
            else
              go {| f_step := 4;
                    f_data := mkFormData (d_winners data) (d_endUnix data) (Some text)
                                (d_sponsor data);
                    expectingCustomWinners := expectingCustomWinners st |}
                 "Bước 4/5: Nhập <b>nhà tài trợ</b> (ví dụ: @zaaraowo)" []
          else if f_step st =? 4 then
            if js_length text <? 2 then reply "❌ Nhà tài trợ quá ngắn."
            else
              let data1 := mkFormData (d_winners data) (d_endUnix data) (d_prize data)
                             (Some text) in
              go {| f_step := 5; f_data := data1;
                    expectingCustomWinners := expectingCustomWinners st |}
                 (buildPreviewText data1) confirmKeyboard
          else None
  end.

(** ** Quick create *)

(** The ASCII letter in lower case; the flag [i] of a pattern folds the
    case of ASCII letters only. *)
Definition lower (a : ascii) : ascii :=
  let x := byte a in
  if (65 <=? x) && (x <=? 90) then ascii_of_N (N_of_ascii a + 32) else a.

(** What follows the prefix [p], a text in lower case, at the start of
    [s], whatever the case there. *)
Fixpoint after_prefix_ci (p s : string) : option string :=
  match p, s with
  | "", _ => Some s
  | String a p', String b s' =>
      if Ascii.eqb a (lower b) then after_prefix_ci p' s' else None
  | String _ _, "" => None
  end.

Fixpoint skip_word (s : string) : string :=
  match s with
  | String a r => if is_word_char a then skip_word r else s
  | "" => ""
  end.

(** [s.replace(/^\/giveaway(@\w+)?\s*/i, "")] *)
Definition strip_giveaway_prefix (s : string) : string :=
  match after_prefix_ci "/giveaway" s with
  | None => s
  | Some r =>
      trim_start_from 0
        (match r with
         | String a (String b _ as r') =>
             if Ascii.eqb a "@" && is_word_char b then skip_word r' else r
         | _ => r
         end)
  end.

(** [s.replace(/｜/g, "|")]: the full-width bar U+FF5C is three bytes. *)
Fixpoint replace_fullwidth_from (skip : nat) (s : string) : string :=
  match s with
  | "" => ""
  | String a r =>
      match skip with
      | S k => replace_fullwidth_from k r
      | O =>
          match r with
          | String b (String c _) =>
              if (byte a =? 239) && (byte b =? 189) && (byte c =? 156)
              then String "|" (replace_fullwidth_from 2 r)
              else String a (replace_fullwidth_from O r)
          | _ => String a (replace_fullwidth_from O r)
          end
      end
  end.

Definition replace_fullwidth (s : string) : string := replace_fullwidth_from 0 s.

(** [s.replace(/\s*\|\s*/g, "|")]: a bar takes the white space around
    it.  [pend] is the white space read since the last other character,
    [after_bar] tells that only white space was read since a bar. *)
Fixpoint tighten_bars_from (skip : nat) (after_bar : bool) (pend : string) (s : string)
    : string :=
  match s with
  | "" => pend
  | String a r =>
      let keep := if after_bar then "" else (pend ++ String a "")%string in
      match skip with
      | S k => tighten_bars_from k after_bar keep r
      | O =>
          if Ascii.eqb a "|" then String "|" (tighten_bars_from O true "" r)
          else
            match space_width s with
            | O => (pend ++ String a (tighten_bars_from O false "" r))%string
            | S k => tighten_bars_from k after_bar keep r
            end
      end
  end.

Definition tighten_bars (s : string) : string := tighten_bars_from 0 false "" s.

(** [s.split("|")] *)
Fixpoint split_bar_from (cur : string) (s : string) : list string :=
  match s with
  | "" => [cur]
  | String a r =>
      if Ascii.eqb a "|" then cur :: split_bar_from "" r
      else split_bar_from (cur ++ String a "") r
  end.

Definition split_bar (s : string) : list string := split_bar_from "" s.

Inductive ParseError := BAD_FORMAT | BAD_WINNERS | BAD_TIME | BAD_PRIZE | BAD_SPONSOR.

Record GiveawayArgs := mkGiveawayArgs {
  a_winners : JsNumber;
  a_endUnix : Z;
  a_prize : string;
  a_sponsor : string
}.

(** [parseGiveawayArgs(fullText)]: the error it throws, or its result. *)
Definition parseGiveawayArgs (fullText : string) : ParseError + GiveawayArgs :=
  let raw :=
    trim (tighten_bars (replace_fullwidth (strip_giveaway_prefix fullText))) in
  let parts := split_bar raw in
  if Z.of_nat (List.length parts) <? 4 then inl BAD_FORMAT
  else
    let winnersStr := trim (nth 0 parts "") in
    let timeStr := trim (nth 1 parts "") in
    let sponsor := trim (last parts "") in
    let prize :=
      trim (String.concat "|" (firstn (List.length parts - 3) (skipn 2 parts))) in
    let winners := js_number winnersStr in
    if negb (js_isFinite winners) || js_lt winners 1 then inl BAD_WINNERS
    else
      match parse_time timeStr with
      | None => inl BAD_TIME
      | Some endUnix =>
          if String.eqb prize "" then inl BAD_PRIZE
          else if String.eqb sponsor "" then inl BAD_SPONSOR
          else inr (mkGiveawayArgs winners endUnix prize sponsor)
      end.

(** [/giveaway ...] *)
Definition cmd_giveaway (c : Ctx) (message : string) (d : Dialogue) : Done :=
  if negb (isAdmin (from_id c)) then says d []
  else if negb (chat_private c)
  then says d [SayReply c "ℹ️ Tạo giveaway bằng DM hoặc dùng /newgiveaway." []]
  else
    match getDefaultGroupId (settings d) with
    | None => says d [SayReply c "⚠️ Chưa set group. Vào group gõ /setgroup" []]
    | Some tg =>
        if js_not tg then says d [SayReply c "⚠️ Chưa set group. Vào group gõ /setgroup" []]
        else
          match parseGiveawayArgs message with
          | inl _ => says d [SayReply c usageText []]
          | inr a =>
              {| left := d;
                 said := [];
                 call := Some (mkCreateCall c tg (a_winners a) (a_endUnix a)
                                 (a_prize a) (a_sponsor a), []) |}
          end
    end.

(** ** The dialogue as a process *)

(** The updates of the dialogue.  [UWinners c digits edited] is a button
    whose data is [fw_w_] followed by [digits]; [UFormText] is a text
    that no command handler takes. *)
Inductive Update :=
| USetGroup (c : Ctx) (chat : Z)
| UGroup (c : Ctx)
| UNewGiveaway (c : Ctx)
| UAbort (c : Ctx)
| UGiveaway (c : Ctx) (message : string)
| UFormText (c : Ctx) (now : Z) (message : string)
| UWinners (c : Ctx) (digits : string) (edited : bool)
| UCustom (c : Ctx) (edited : bool)
| UFormAbort (c : Ctx)
| UConfirm (c : Ctx) (edited : bool).

Definition dialogue_step (u : Update) (d : Dialogue) : Done :=
  match u with
  | USetGroup c chat => cmd_setgroup c chat d
  | UGroup c => cmd_group c d
  | UNewGiveaway c => cmd_newgiveaway c d
  | UAbort c => cmd_abort c d
  | UGiveaway c message => cmd_giveaway c message d
  | UFormText c now message =>
      match form_text c now message d with
      | Some r => r
      | None => says d []
      end
  | UWinners c digits edited => act_winners c digits edited d
  | UCustom c edited => act_custom c edited d
  | UFormAbort c => act_abort c d
  | UConfirm c edited => act_confirm c edited d
  end.

(** The state after the given updates. *)
Definition dialogue_after (us : list Update) (d : Dialogue) : Dialogue :=
  fold_left (fun s u => left (dialogue_step u s)) us d.

(** A text message that no command handler takes: the form, and the
    router when the form passes it on. *)
Inductive TextOutcome :=
| FormTook (r : Done)
| RouterTook (sys : Sys) (out : list Output)
| NoneTook.

Definition on_text (c : Ctx) (now : Z) (message : string) (d : Dialogue) (sys : Sys)
    : TextOutcome :=
  match form_text c now message d with
  | Some r => FormTook r
  | None =>
      match router c now message sys with
      | Some (sys1, out) => RouterTook sys1 out
      | None => NoneTook
      end
  end.

(** The event of the engine a call is, once [makeSeed()] has returned
    [sd].  The engine keeps the group as an integer, which the id of a
    chat is, and the winner count as a finite number: no caller passes
    [NaN], and only a button of more than 308 digits gives an infinite
    count. *)
Definition call_event (k : CreateCall) (sd : string) : option Event :=
  match as_integer (k_targetGroupId k), k_winners k with
  | Some tg, JFin w =>
      Some (Create (k_ctx k) tg w (k_endUnix k) (k_prize k) (k_sponsor k) sd)
  | _, _ => None
  end.

(** ** Notions used by the properties of the dialogue *)

(** White space of one byte, and the texts made of it. *)
Definition is_blank (a : ascii) : bool :=
  let x := byte a in
  (x =? 9) || (x =? 10) || (x =? 11) || (x =? 12) || (x =? 13) || (x =? 32).

Fixpoint blank (s : string) : bool :=
  match s with
  | "" => true
  | String a r => is_blank a && blank r
  end.

(** The first bytes of the white space characters of several bytes. *)
Definition is_lead (a : ascii) : bool :=
  let x := byte a in
  (x =? 194) || (x =? 225) || (x =? 226) || (x =? 227) || (x =? 239).

(** After the first byte [a] of a white space character of several
    bytes, a byte [b] that no such character has there. *)
Definition clear_after (a b : ascii) : bool :=
  let x := byte a in
  let y := byte b in
  if x =? 194 then negb (y =? 160)
  else if x =? 225 then negb (y =? 154)
  else if x =? 226 then negb ((y =? 128) || (y =? 129))
  else if x =? 227 then negb (y =? 128)
  else if x =? 239 then negb (y =? 187)
  else true.

(** A word that no white space character starts in, whatever comes
    after the word: none of its bytes is white space, and a byte that
    could start a longer white space character is followed, in the
    word, by a byte that rules it out. *)
Fixpoint solid (w : string) : bool :=
  match w with
  | "" => true
  | String a r =>
      negb (is_blank a)
      && match r with
         | String b _ => clear_after a b
         | "" => negb (is_lead a)
         end
      && solid r
  end.

(** The form of an operator: a field is there from its step on. *)
Definition form_ok (e : Z * Form) : Prop :=
  isAdmin (fst e) = true
  /\ (2 <= f_step (snd e) -> d_winners (f_data (snd e)) <> None)
  /\ (3 <= f_step (snd e) -> d_endUnix (f_data (snd e)) <> None)
  /\ (4 <= f_step (snd e) -> d_prize (f_data (snd e)) <> None)
  /\ (5 <= f_step (snd e) -> d_sponsor (f_data (snd e)) <> None)
  /\ 1 <= f_step (snd e) <= 5.

Definition dialogue_ok (d : Dialogue) : Prop :=
  Forall form_ok (formState d) /\ NoDup (map fst (formState d)).

(** A command line: white space, the command, the mention it may carry,
    white space, the id in decimal form, the words of a reason, each
    after white space, and white space. *)
Fixpoint spaced (ws : list (string * string)) : string :=
  match ws with
  | [] => ""
  | p :: rest => (fst p ++ snd p ++ spaced rest)%string
  end.

Definition command_line (lead name mention sep : string) (gid : Z)
    (ws : list (string * string)) (trail : string) : string :=
  (lead ++ (name ++ mention) ++ sep ++ num_to_string gid ++ spaced ws ++ trail)%string.

Definition is_mention (m : string) : Prop :=
  m = "" \/ exists bot, m = String "@" bot /\ bot <> "" /\ all_word bot = true.

Definition spaced_ok (p : string * string) : Prop :=
  blank (fst p) = true /\ fst p <> "" /\ solid (snd p) = true /\ snd p <> "".

(** The reason a command line gives. *)
Definition reason_of (ws : list (string * string)) : string :=
  match ws with
  | [] => txt_no_reason
  | _ => String.concat " " (map snd ws)
  end.

(** The handler of the engine a command is for. *)
Definition engine_event (name : string) (c : Ctx) (now gid : Z) (reason : string)
    : option Event :=
  if String.eqb name "/ginfo" then Some (CmdGinfo c gid)
  else if String.eqb name "/proof" then Some (CmdProof c gid)
  else if String.eqb name "/cancel" then Some (CmdCancel c now gid reason)
  else if String.eqb name "/announce" then Some (CmdAnnounce c gid)
  else None.

(** Who sent an update. *)
Definition update_ctx (u : Update) : Ctx :=
  match u with
  | USetGroup c _ | UGroup c | UNewGiveaway c | UAbort c | UGiveaway c _
  | UFormText c _ _ | UWinners c _ _ | UCustom c _ | UFormAbort c | UConfirm c _ => c
  end.

(** A text with no bar, and with none of the characters U+FF40 to
    U+FF7F, among which the full-width bar is. *)
Fixpoint bar_free (w : string) : bool :=
  match w with
  | "" => true
  | String a r =>
      negb (Ascii.eqb a "|")
      && (if byte a =? 239
          then match r with
               | String b _ => negb (byte b =? 189)
               | "" => false
               end
          else true)
      && bar_free r
  end.

Definition word_ok (w : string) : Prop :=
  solid w = true /\ w <> "" /\ bar_free w = true.

(** A field of a quick-create line: a word, and further words, each
    after white space. *)
Definition is_field (f : string) : Prop :=
  exists w ws,
    f = (w ++ spaced ws)%string /\ word_ok w
    /\ Forall (fun p => spaced_ok p /\ bar_free (snd p) = true) ws.

(** A bar with the white space around it. *)
Definition bar_with (b : string * string) : string :=
  (fst b ++ "|" ++ snd b)%string.

Definition pad_ok (b : string * string) : Prop :=
  blank (fst b) = true /\ blank (snd b) = true.

(** A quick-create line: the command, the mention it may carry, white
    space, and the number of winners, the time, the prize and the
    sponsor with a bar between them. *)
Definition giveaway_line (mention sep : string) (n : Z) (b1 : string * string)
    (t : string) (b2 : string * string) (pz : string) (b3 : string * string)
    (sp : string) (trail : string) : string :=
  ("/giveaway" ++ mention ++ sep ++ num_to_string n ++ bar_with b1 ++ t
   ++ bar_with b2 ++ pz ++ bar_with b3 ++ sp ++ trail)%string.

End Bot.

(** ** Concrete inputs

    Values used to run the definitions on explicit inputs: stand-ins for
    the digests (the results shown with them do not depend on which
    function is used), one operator, two members, and a few event
    sequences. *)

Definition example_digest (s : string) : string :=
  string_of_list_ascii (rev (list_ascii_of_string s)).

Definition example_hmac (key msg : string) : string :=
  example_digest (key ++ msg)%string.

Definition example_env : Env :=
  {| sha256Hex := example_digest;
     hmacSha256Hex := example_hmac;
     fmtUnix := num_to_string;
     ADMINS := [900] |}.

Definition operator : Ctx := mkCtx 900 (Some "Op") None true.
Definition ann : Ctx := mkCtx 101 (Some "Ann") None false.
Definition bob : Ctx := mkCtx 102 None (Some "bob") false.

Definition four_users : list User :=
  [mkUser 1 "A"; mkUser 2 "B"; mkUser 10 "C"; mkUser 21 "D"].

(** Giveaway 1 is created, closing at time 100. *)
Definition open_one : list Event :=
  [ Create operator (-500) (inject_Z 1) 100 "Prize" "Sponsor" "5eed01";
    Resume 0 10 (Some 7) no_faults;
    Resume 0 10 (Some 1) no_faults ].

(** Giveaway 1 closes with no entrant and the send of the notice fails. *)
Definition notice_fails : list Event :=
  open_one ++ [ Tick 100 no_faults; Resume 0 101 None no_faults ].

(** Giveaway 1 gets one entrant. *)
Definition one_entry : list Event :=
  open_one ++ [ ActJoin ann 50 1; Resume 0 51 (Some 1) no_faults ].

(** Giveaway 1 is drawn and the send of the winners fails. *)
Definition winners_fail : list Event :=
  one_entry ++ [ Tick 100 no_faults; Resume 0 101 None no_faults ].

(** Giveaway 1 is drawn and announced by the scheduler. *)
Definition announced_one : list Event :=
  one_entry ++ [ Tick 100 no_faults; Resume 0 101 (Some 9) no_faults ].

(** The operator then runs the manual announce, which succeeds at time 200. *)
Definition announced_twice : list Event :=
  announced_one ++ [ CmdAnnounce operator 1; Resume 0 200 (Some 11) no_faults ].

(** Giveaways 1 and 2 are open, each with one entrant, both closing at
    time 100. *)
Definition two_open : list Event :=
  one_entry ++
  [ Create operator (-500) (inject_Z 1) 100 "Other" "Sponsor" "5eed02";
    Resume 0 11 (Some 8) no_faults;
    Resume 0 11 (Some 1) no_faults;
    ActJoin bob 60 2;
    Resume 0 61 (Some 1) no_faults ].

(** The tick of time 100 draws giveaway 1 and waits for its public send;
    the operator cancels giveaway 2 meanwhile. *)
Definition cancel_during_tick : list Event :=
  two_open ++ [ Tick 100 no_faults; CmdCancel operator 101 2 "withdrawn" ].

(** The send for giveaway 1 settles and the tick goes on with the row of
    giveaway 2 it read at its start; that send settles too. *)
Definition tick_goes_on : list Event :=
  cancel_during_tick ++
  [ Resume 0 102 (Some 9) no_faults; Resume 0 103 (Some 10) no_faults ].

(** The row of giveaway 1 while it is open, and once drawn and announced. *)
Definition row_one_open : Giveaway :=
  {| id := 1; chat_id := -500; message_id := 7; prize := "Prize";
     sponsor := "Sponsor"; winners := inject_Z 1; end_time := 100; ended := 0;
     created_at := 10; ended_at := None; seed := Some "5eed01";
     seed_hash := Some "10dee5"; canceled := 0; cancel_reason := None;
     announced := 0; announced_at := None |}.

Definition row_one_announced : Giveaway :=
  set_announced 100 (set_ended 100 row_one_open).

(** The transaction fault that makes the second statement throw. *)
Definition second_statement_throws : Faults := fun _ => Some 1%nat.

(** Giveaway 1 is created and canceled, and then a tick and a manual
    announce are tried on it, every handler running to its end. *)
Definition cancel_then_try : list Turn :=
  [ TurnCreate operator (-500) (inject_Z 1) 100 "Prize" "Sponsor" "5eed01" 10 (Some 7);
    TurnCancel operator 20 1 "withdrawn";
    TurnTick 100 no_faults (fun _ => Some 9);
    TurnAnnounce operator 1 200 (Some 11) ].

(** Ticks at the given delays after time 100. *)
Definition later_ticks (delays : list nat) : list Event :=
  map (fun d => Tick (100 + Z.of_nat d) no_faults) delays.

(** Giveaway 1 is created, gets one entrant and is drawn and announced by
    the tick of time 100, every handler running to its end. *)
Definition drawn_in_turn : list Turn :=
  [ TurnCreate operator (-500) (inject_Z 1) 100 "Prize" "Sponsor" "5eed01" 10 (Some 7);
    TurnJoin ann 50 1 (Some 1);
    TurnTick 100 no_faults (fun _ => Some 9) ].

(** Ann presses the join button of giveaway 1 at time 99; while her
    membership is looked up the tick of time 100 closes the giveaway,
    and its notice is sent; then the lookup answers that she is a
    member. *)
Definition join_over_close : list Event :=
  open_one ++
  [ ActJoin ann 99 1; Tick 100 no_faults; Resume 1 101 (Some 9) no_faults ].

(** Ann presses the join button at time 50 and the operator cancels the
    giveaway while her membership is looked up. *)
Definition join_over_cancel : list Event :=
  open_one ++ [ ActJoin ann 50 1; CmdCancel operator 60 1 "withdrawn" ].

(** A giveaway of two and a half winners is created, gets three
    entrants and is drawn by the tick of time 100, every handler running
    to its end. *)
Definition cyd : Ctx := mkCtx 103 (Some "Cyd") None false.

Definition fraction_drawn : list Turn :=
  [ TurnCreate operator (-500) (5 # 2) 100 "Prize" "Sponsor" "5eed01" 10 (Some 7);
    TurnJoin ann 50 1 (Some 1);
    TurnJoin bob 60 1 (Some 1);
    TurnJoin cyd 70 1 (Some 1);
    TurnTick 100 no_faults (fun _ => Some 9) ].

(** Stand-ins for the conversions of the dialogue: two texts that are
    numbers without being the decimal form of an integer, and one valid
    time. *)
Definition example_js : Js :=
  {| number_of_text := fun s =>
       if String.eqb s "2.5" then JFin (5 # 2)
       else if String.eqb s "Infinity" then JInf false
       else JNaN;
     text_of_number := fun _ => [NDigit 2; NPoint; NDigit 5];
     parse_time := fun s =>
       if String.eqb s "22:00 20/01/2026" then Some 1768921200 else None |}.

(** The operator in a group chat, and the updates that set the default
    group and fill a form. *)
Definition operator_in_group : Ctx := mkCtx 900 (Some "Op") None false.

Definition group_set : list Update := [USetGroup operator_in_group (-500)].

Definition form_filled : list Update :=
  group_set ++
  [ UNewGiveaway operator; UWinners operator "2" true;
    UFormText operator 20 "22:00 20/01/2026";
    UFormText operator 21 " Prize ";
    UFormText operator 22 "Sponsor" ].

(** * Properties *)

Section Properties.

Context {env : Env} {js : Js}.

Ltac no_proof_list :=
  let o := fresh "o" in
  let H := fresh "H" in
  intros o H; simpl in H;
  repeat (destruct H as [<- | H]; [reflexivity |]); contradiction.

(** ** The selector *)

Lemma localeCompare_zero a b : localeCompare a b = 0 <-> a = b.
Proof.
  unfold localeCompare. destruct (String.compare a b) eqn:E; split; intro H; try lia.
  - now apply String_as_OT.cmp_eq.
  - apply String_as_OT.cmp_eq in H. unfold String_as_OT.cmp in H. congruence.
  - apply String_as_OT.cmp_eq in H. unfold String_as_OT.cmp in H. congruence.
Qed.

Lemma localeCompare_neg a b : localeCompare a b < 0 <-> String_as_OT.lt a b.
Proof.
  rewrite <- String_as_OT.cmp_lt. unfold String_as_OT.cmp, localeCompare.
  destruct (String.compare a b); split; intro H; try lia; try discriminate; reflexivity.
Qed.

Lemma cmpRanked_le a b : cmpRanked a b <= 0 <-> rank_then_id a b.
Proof.
  unfold cmpRanked, rank_then_id.
  destruct (localeCompare (rank a) (rank b) =? 0) eqn:E; simpl.
  - apply Z.eqb_eq in E. apply localeCompare_zero in E. split.
    + intro H. right. split; [assumption | lia].
    + intros [H | [_ H]]; [| lia].
      exfalso. apply (String_as_OT.lt_not_eq _ _ H). exact E.
  - apply Z.eqb_neq in E. split.
    + intro H. left. apply localeCompare_neg. lia.
    + intros [H | [H _]].
      * apply localeCompare_neg in H. lia.
      * apply localeCompare_zero in H. contradiction.
Qed.

Lemma rank_then_id_total a b : rank_then_id a b \/ rank_then_id b a.
Proof.
  unfold rank_then_id.
  destruct (String_as_OT.compare (rank a) (rank b)) as [H | H | H].
  - left. now left.
  - unfold String_as_OT.eq in H. rewrite H.
    destruct (Z.le_ge_cases (r_user_id a) (r_user_id b)).
    + left. right. now split.
    + right. right. now split.
  - right. now left.
Qed.

Lemma rank_then_id_trans a b c :
  rank_then_id a b -> rank_then_id b c -> rank_then_id a c.
Proof.
  unfold rank_then_id. intros [H1 | [E1 L1]] [H2 | [E2 L2]].
  - left. eapply String_as_OT.lt_trans; eauto.
  - left. now rewrite <- E2.
  - left. now rewrite E1.
  - right. split; [congruence | lia].
Qed.

Lemma rank_then_id_antisym a b :
  rank_then_id a b -> rank_then_id b a ->
  rank a = rank b /\ r_user_id a = r_user_id b.
Proof.
  unfold rank_then_id. intros [H1 | [E1 L1]] [H2 | [E2 L2]].
  - exfalso. apply (String_as_OT.lt_not_eq (rank a) (rank a)); [| reflexivity].
    eapply String_as_OT.lt_trans; eauto.
  - exfalso. apply (String_as_OT.lt_not_eq _ _ H1). now symmetry.
  - exfalso. apply (String_as_OT.lt_not_eq _ _ H2). now symmetry.
  - split; [assumption | lia].
Qed.

Section SortFacts.

Context {A : Type} (cmp : A -> A -> Z).

Let le (a b : A) : Prop := cmp a b <= 0.

Hypothesis le_total : forall a b, le a b \/ le b a.
Hypothesis le_trans : forall a b c, le a b -> le b c -> le a c.

Lemma sort_insert_perm x l : Permutation (sort_insert cmp x l) (x :: l).
Proof.
  induction l as [| y l IH]; simpl; [reflexivity |].
  destruct (cmp x y <=? 0); [reflexivity |].
  rewrite IH. apply perm_swap.
Qed.

Lemma array_sort_perm l : Permutation (array_sort cmp l) l.
Proof.
  induction l as [| x l IH]; simpl; [constructor |].
  unfold array_sort in *. simpl. rewrite sort_insert_perm. now constructor.
Qed.

Lemma sort_insert_sorted x l :
  StronglySorted le l -> StronglySorted le (sort_insert cmp x l).
Proof.
  induction 1 as [| y l Hs IH Hy]; simpl.
  - repeat constructor.
  - destruct (cmp x y <=? 0) eqn:E.
    + apply Z.leb_le in E. constructor; [now constructor |].
      constructor; [exact E |].
      eapply Forall_impl; [| exact Hy]. intros z Hz. eapply le_trans; eauto.
    + apply Z.leb_gt in E. constructor; [exact IH |].
      eapply Permutation_Forall; [symmetry; apply sort_insert_perm |].
      constructor; [| exact Hy].
      destruct (le_total y x) as [H | H]; [exact H | unfold le in H; lia].
Qed.

Lemma array_sort_sorted l : StronglySorted le (array_sort cmp l).
Proof.
  induction l as [| x l IH]; [constructor |].
  unfold array_sort in *. simpl. now apply sort_insert_sorted.
Qed.

Lemma sorted_perm_unique (l1 : list A) :
  forall l2,
    Permutation l1 l2 ->
    StronglySorted le l1 -> StronglySorted le l2 ->
    (forall a b, In a l1 -> In b l1 -> le a b -> le b a -> a = b) ->
    l1 = l2.
Proof.
  induction l1 as [| a l1 IH]; intros l2 Hp H1 H2 Hanti.
  - apply Permutation_nil in Hp. now subst.
  - destruct l2 as [| b l2]; [symmetry in Hp; now apply Permutation_nil in Hp |].
    inversion H1 as [| ? ? Hs1 Ha]; subst.
    inversion H2 as [| ? ? Hs2 Hb]; subst.
    assert (Hab : a = b).
    { assert (Hin_a : In a (b :: l2)) by (eapply Permutation_in; [exact Hp | now left]).
      assert (Hin_b : In b (a :: l1)) by (eapply Permutation_in; [symmetry; exact Hp | now left]).
      destruct Hin_a as [-> | Hin_a]; [reflexivity |].
      destruct Hin_b as [-> | Hin_b]; [reflexivity |].
      rewrite Forall_forall in Ha, Hb.
      apply Hanti; [now left | now right | now apply Ha | now apply Hb]. }
    subst b. f_equal.
    apply IH; auto.
    + now apply Permutation_cons_inv in Hp.
    + intros x y Hx Hy. apply Hanti; now right.
Qed.

End SortFacts.

Lemma cmpRanked_total a b : cmpRanked a b <= 0 \/ cmpRanked b a <= 0.
Proof. rewrite !cmpRanked_le. apply rank_then_id_total. Qed.

Lemma cmpRanked_trans a b c :
  cmpRanked a b <= 0 -> cmpRanked b c <= 0 -> cmpRanked a c <= 0.
Proof. rewrite !cmpRanked_le. apply rank_then_id_trans. Qed.

Lemma sorted_by_cmpRanked l :
  StronglySorted (fun a b => cmpRanked a b <= 0) l <-> StronglySorted rank_then_id l.
Proof.
  split; induction 1; constructor; auto;
    (eapply Forall_impl; [| eassumption]); intros x Hx; now apply cmpRanked_le.
Qed.

(** Dropping the fraction of a number that is not negative gives its
    integer part. *)
Lemma js_trunc_floor q : (0 <= q)%Q -> js_trunc q = Qfloor q.
Proof.
  destruct q as [n d]. unfold Qle, js_trunc, Qfloor. simpl. intro H.
  apply Z.quot_div_nonneg; lia.
Qed.

(** The end [slice] gets from [Math.min(k, n)] for a count [k] that is
    not negative: the smaller of the integer part of [k] and [n]. *)
Lemma min_as_end_floor k n :
  (0 <= k)%Q -> 0 <= n ->
  0 <= min_as_end k n /\ Z.min (min_as_end k n) n = Z.min (Qfloor k) n.
Proof.
  intros Hk Hn. unfold min_as_end.
  assert (F : 0 <= Qfloor k).
  { rewrite <- (Qfloor_Z 0). now apply Qfloor_resp_le. }
  destruct (Qle_bool k (inject_Z n)) eqn:E.
  - rewrite js_trunc_floor by exact Hk. auto.
  - split; [exact Hn |].
    assert (L : n <= Qfloor k).
    { rewrite <- (Qfloor_Z n). apply Qfloor_resp_le. apply Qlt_le_weak.
      apply Qnot_le_lt. intro K. apply Qle_bool_iff in K. congruence. }
    lia.
Qed.

Lemma slice0_prefix {A : Type} (l : list A) (k : Q) :
  (0 <= k)%Q ->
  slice0 l (min_as_end k (Z.of_nat (List.length l)))
  = firstn (Z.to_nat (Z.min (Qfloor k) (Z.of_nat (List.length l)))) l.
Proof.
  intro Hk. unfold slice0.
  destruct (min_as_end_floor k (Z.of_nat (List.length l)) Hk) as [P M]; [lia |].
  destruct (min_as_end k (Z.of_nat (List.length l)) <? 0) eqn:E.
  - apply Z.ltb_lt in E. lia.
  - now rewrite M.
Qed.

Lemma NoDup_map_eq {A B : Type} (f : A -> B) (l : list A) x y :
  NoDup (map f l) -> In x l -> In y l -> f x = f y -> x = y.
Proof.
  induction l as [| a l IH]; simpl; intros Hnd Hx Hy Hf; [contradiction |].
  inversion Hnd as [| ? ? Hna Hnd']; subst.
  destruct Hx as [-> | Hx], Hy as [-> | Hy]; auto.
  - exfalso. apply Hna. rewrite Hf. now apply in_map.
  - exfalso. apply Hna. rewrite <- Hf. now apply in_map.
Qed.

Lemma ranked_sort_unique sd gid ps ps' :
  NoDup (map user_id ps) ->
  Permutation ps ps' ->
  array_sort cmpRanked (map (rank_of sd gid) ps')
  = array_sort cmpRanked (map (rank_of sd gid) ps).
Proof.
  intros Hnd Hp.
  assert (Hnd' : NoDup (map user_id ps')).
  { eapply Permutation_NoDup; [| exact Hnd]. now apply Permutation_map. }
  apply (sorted_perm_unique cmpRanked).
  - rewrite !(array_sort_perm cmpRanked). apply Permutation_map. now symmetry.
  - apply array_sort_sorted; [apply cmpRanked_total | apply cmpRanked_trans].
  - apply array_sort_sorted; [apply cmpRanked_total | apply cmpRanked_trans].
  - intros a b Ha Hb Hab Hba.
    apply cmpRanked_le in Hab. apply cmpRanked_le in Hba.
    destruct (rank_then_id_antisym _ _ Hab Hba) as [_ Hid].
    apply (Permutation_in _ (array_sort_perm cmpRanked _)) in Ha.
    apply (Permutation_in _ (array_sort_perm cmpRanked _)) in Hb.
    apply in_map_iff in Ha. destruct Ha as [p [<- Hp1]].
    apply in_map_iff in Hb. destruct Hb as [q [<- Hq1]].
    simpl in Hid. f_equal.
    eapply NoDup_map_eq; eauto.
Qed.

Lemma ranked_users sd gid ps :
  map (fun r => (r_user_id r, r_name r)) (map (rank_of sd gid) ps)
  = map (fun p => (user_id p, name p)) ps.
Proof. now rewrite map_map. Qed.

(** C1. For every seed, giveaway id, participant list and winner count
    that is not negative, the selector returns the first [min k n]
    entries ([k] without its fraction, when it has one) of the
    participants, each with the rank HMAC-SHA256(seed, gid ":" user_id),
    ordered by rank ascending as a byte string, ties broken by
    participant id ascending; for participants with distinct ids, which
    the primary key of the table ensures, the result does not depend on
    the order in which they are enumerated; and no participants give no
    winners. *)
Theorem pickWinnersDeterministic_spec sd gid ps k :
  ((0 <= k)%Q ->
   exists sorted,
     Permutation (map (fun r => (r_user_id r, r_name r)) sorted)
                 (map (fun p => (user_id p, name p)) ps)
     /\ Forall (fun r =>
                  rank r
                  = hmacSha256Hex sd
                      (num_to_string gid ++ ":" ++ num_to_string (r_user_id r))%string)
               sorted
     /\ StronglySorted
          (fun a b =>
             String_as_OT.lt (rank a) (rank b)
             \/ (rank a = rank b /\ r_user_id a <= r_user_id b))
          sorted
     /\ pickWinnersDeterministic sd gid ps k
        = firstn (Z.to_nat (Z.min (Qfloor k) (Z.of_nat (List.length ps)))) sorted)
  /\ (forall ps',
        NoDup (map user_id ps) -> Permutation ps ps' ->
        pickWinnersDeterministic sd gid ps' k = pickWinnersDeterministic sd gid ps k)
  /\ pickWinnersDeterministic sd gid [] k = [].
Proof.
  split; [| split].
  - intro Hk. exists (array_sort cmpRanked (map (rank_of sd gid) ps)).
    split.
    { rewrite <- (ranked_users sd gid ps). apply Permutation_map.
      apply array_sort_perm. }
    split.
    { apply Forall_forall. intros r Hr.
      apply (Permutation_in _ (array_sort_perm cmpRanked _)) in Hr.
      apply in_map_iff in Hr. destruct Hr as [p [<- _]]. reflexivity. }
    split.
    + apply sorted_by_cmpRanked.
      apply array_sort_sorted; [apply cmpRanked_total | apply cmpRanked_trans].
    + unfold pickWinnersDeterministic. cbv zeta.
      rewrite slice0_prefix by exact Hk.
      rewrite (Permutation_length (array_sort_perm cmpRanked _)).
      now rewrite length_map.
  - intros ps' Hnd Hp. unfold pickWinnersDeterministic. cbv zeta.
    now rewrite (ranked_sort_unique sd gid ps ps' Hnd Hp).
  - unfold pickWinnersDeterministic, slice0. simpl.
    destruct (min_as_end k 0 <? 0); apply firstn_nil.
Qed.

(** The participants the scheduler reads for a giveaway have distinct
    ids whenever the primary key of the table holds. *)
Lemma participants_of_distinct gid st :
  NoDup (map participant_key (participants st)) ->
  NoDup (map user_id (participants_of gid st)).
Proof.
  unfold participants_of. generalize (participants st) as rows.
  intros rows N. induction rows as [| p rows IH]; simpl in *; [constructor |].
  assert (Np : ~ In (participant_key p) (map participant_key rows))
    by (inversion N; assumption).
  assert (N' : NoDup (map participant_key rows)) by (inversion N; assumption).
  destruct (p_giveaway_id p =? gid) eqn:E; simpl; [| auto].
  apply Z.eqb_eq in E.
  constructor; [| auto].
  intro Hin. apply Np.
  apply in_map_iff in Hin. destruct Hin as [u [Eu Hu]].
  apply in_map_iff in Hu. destruct Hu as [q [Eq Hq]].
  apply filter_In in Hq. destruct Hq as [Hq Eg]. apply Z.eqb_eq in Eg.
  apply in_map_iff. exists q. split; [| exact Hq].
  unfold participant_key. subst u. simpl in Eu. congruence.
Qed.

(** ** The draw transaction *)

Lemma run_statements_done stmts : forall fault st st',
  run_statements stmts fault st = (st', true) -> st' = apply_all stmts st.
Proof.
  induction stmts as [| s rest IH]; intros fault st st' H; simpl in H.
  - destruct fault as [[| n] |]; inversion H; reflexivity.
  - destruct fault as [[| n] |]; [discriminate | |]; apply IH in H; exact H.
Qed.

Lemma db_transaction_all_or_nothing stmts fault st :
  db_transaction stmts fault st = (apply_all stmts st, true)
  \/ db_transaction stmts fault st = (st, false).
Proof.
  unfold db_transaction.
  destruct (run_statements stmts fault st) as [st' done] eqn:E.
  destruct done; [left | now right].
  now rewrite (run_statements_done _ _ _ _ E).
Qed.

Lemma db_transaction_no_fault stmts st :
  db_transaction stmts None st = (apply_all stmts st, true).
Proof.
  unfold db_transaction.
  assert (H : forall s, run_statements stmts None s = (apply_all stmts s, true)).
  { induction stmts as [| f rest IH]; intro s; simpl; [reflexivity | apply IH]. }
  now rewrite H.
Qed.

Lemma apply_inserts gid picked : forall st,
  apply_all (map (fun w => insert_winner gid (r_user_id w) (r_name w)) picked) st
  = {| giveaways := giveaways st;
       participants := participants st;
       winners_tbl := winners_tbl st ++ map (winner_row gid) picked;
       next_id := next_id st |}.
Proof.
  unfold apply_all.
  induction picked as [| w picked IH]; intro st; simpl.
  - rewrite app_nil_r. now destruct st.
  - rewrite IH. simpl. now rewrite <- app_assoc.
Qed.

Lemma apply_draw_statements now gid picked st :
  apply_all (draw_statements now gid picked) st
  = {| giveaways := map (fun g => if id g =? gid then set_ended now g else g) (giveaways st);
       participants := participants st;
       winners_tbl := winners_tbl st ++ map (winner_row gid) picked;
       next_id := next_id st |}.
Proof.
  unfold draw_statements, apply_all. rewrite fold_left_app. simpl.
  fold (apply_all (map (fun w => insert_winner gid (r_user_id w) (r_name w)) picked) st).
  now rewrite apply_inserts.
Qed.

Lemma announce_from_db_store now g st :
  fst (fst (announce_from_db now g st)) = st.
Proof.
  unfold announce_from_db.
  destruct (winners_of (id g) st); [reflexivity |].
  now destruct (get_giveaway (id g) st).
Qed.


(** ** Well-formedness is preserved *)

Lemma keeps_rows_refl st : keeps_rows st st.
Proof. unfold keeps_rows. auto. Qed.

Lemma keeps_rows_trans st1 st2 st3 :
  keeps_rows st1 st2 -> keeps_rows st2 st3 -> keeps_rows st1 st3.
Proof.
  intros (A1 & B1 & C1) (A2 & B2 & C2).
  split; [congruence |]. split; [congruence | auto].
Qed.

Lemma ids_of_commitments l l' :
  map commitment l' = map commitment l -> map id l' = map id l.
Proof.
  intro H.
  assert (E : forall x, map id x = map (fun c => fst (fst c)) (map commitment x)).
  { intro x. rewrite map_map. apply map_ext. reflexivity. }
  now rewrite !E, H.
Qed.

Lemma update_keeps_rows gid f st :
  (forall g, commitment (f g) = commitment g) ->
  (forall g, row_ok g -> row_ok (f g)) ->
  keeps_rows st (update_giveaway gid f st).
Proof.
  intros Hc Hr.
  assert (E : map commitment (giveaways (update_giveaway gid f st))
              = map commitment (giveaways st)).
  { simpl. rewrite map_map. apply map_ext. intro g.
    destruct (id g =? gid); [apply Hc | reflexivity]. }
  split; [exact E |]. split; [reflexivity |].
  intros (R & I & N & P & K). unfold store_ok.
  rewrite (ids_of_commitments _ _ E). simpl.
  repeat split; auto.
  - apply Forall_map. eapply Forall_impl; [| exact R].
    intros g Hg. destruct (id g =? gid); auto.
  - apply Forall_map. eapply Forall_impl; [| exact I].
    intros g Hg. simpl.
    destruct (id g =? gid); [| exact Hg].
    assert (Hid : id (f g) = id g)
      by (specialize (Hc g); unfold commitment in Hc; congruence).
    now rewrite Hid.
Qed.

Lemma set_ended_ok now g : row_ok g -> row_ok (set_ended now g).
Proof. intros (A & B & C & D). repeat split; simpl; auto. now right. Qed.

Lemma set_announced_ok now g : row_ok g -> row_ok (set_announced now g).
Proof. intros (A & B & C & D). repeat split; simpl; auto. now right. Qed.

Lemma set_canceled_ok now reason g : row_ok g -> row_ok (set_canceled now reason g).
Proof. intros (A & B & C & D). repeat split; simpl; auto; now right. Qed.

Lemma ended_keeps_rows now gid st :
  keeps_rows st (update_giveaway gid (set_ended now) st).
Proof. apply update_keeps_rows; [reflexivity | apply set_ended_ok]. Qed.

Lemma announced_keeps_rows now gid st :
  keeps_rows st (update_giveaway gid (set_announced now) st).
Proof. apply update_keeps_rows; [reflexivity | apply set_announced_ok]. Qed.

Lemma canceled_keeps_rows now reason gid st :
  keeps_rows st (update_giveaway gid (set_canceled now reason) st).
Proof. apply update_keeps_rows; [reflexivity | apply set_canceled_ok]. Qed.

Lemma winners_keep_rows st rows :
  keeps_rows st {| giveaways := giveaways st; participants := participants st;
                   winners_tbl := rows; next_id := next_id st |}.
Proof. unfold keeps_rows, store_ok. simpl. auto. Qed.

Lemma has_participant_false gid uid st :
  has_participant gid uid st = false ->
  ~ In (gid, uid) (map participant_key (participants st)).
Proof.
  unfold has_participant. intros H Hin.
  apply in_map_iff in Hin. destruct Hin as [p [Hk Hp]].
  assert (T : existsb (fun p => (p_giveaway_id p =? gid) && (p_user_id p =? uid))
                (participants st) = true).
  { apply existsb_exists. exists p. split; [exact Hp |].
    unfold participant_key in Hk. inversion Hk. now rewrite !Z.eqb_refl. }
  congruence.
Qed.

Lemma has_participant_true gid uid st :
  In (gid, uid) (map participant_key (participants st)) ->
  has_participant gid uid st = true.
Proof.
  intro Hin. destruct (has_participant gid uid st) eqn:E; [reflexivity |].
  now apply has_participant_false in E.
Qed.

Lemma insert_participant_keeps_rows gid uid nm now st st' :
  insert_participant gid uid nm now st = Some st' ->
  gid < next_id st ->
  keeps_rows st st'.
Proof.
  unfold insert_participant. intros H Hlt.
  destruct (has_participant gid uid st) eqn:E; [discriminate |].
  inversion H; subst; clear H.
  repeat split; simpl; auto; destruct H as (R & I & N & P & K); auto.
  - apply Forall_app. split; [exact P |]. now repeat constructor.
  - rewrite map_app. simpl.
    apply NoDup_app_remove_l with (l := []). simpl.
    apply Permutation_NoDup with (l := (gid, uid) :: map participant_key (participants st)).
    + apply Permutation_cons_append.
    + constructor; [now apply has_participant_false | exact K].
Qed.

Lemma draw_keeps_rows now gid picked fault st st' done :
  db_transaction (draw_statements now gid picked) fault st = (st', done) ->
  keeps_rows st st'.
Proof.
  intro H.
  destruct (db_transaction_all_or_nothing (draw_statements now gid picked) fault st)
    as [E | E]; rewrite E in H; inversion H; subst; [| apply keeps_rows_refl].
  rewrite apply_draw_statements.
  apply (keeps_rows_trans _ _ _ (ended_keeps_rows now gid st)).
  apply (winners_keep_rows (update_giveaway gid (set_ended now) st)).
Qed.

Lemma tick_body_keeps_rows now faults g st st' k out :
  tick_body now faults g st = (st', k, out) -> keeps_rows st st'.
Proof.
  unfold tick_body. intro H.
  assert (A : forall s, announce_from_db now g s = (st', k, out) -> keeps_rows s st').
  { intros s Hs. pose proof (announce_from_db_store now g s) as Hst.
    rewrite Hs in Hst. simpl in Hst. subst. apply keeps_rows_refl. }
  destruct (ended g =? 0); [| now apply A].
  destruct (participants_of (id g) st).
  - inversion H; subst. apply ended_keeps_rows.
  - destruct (seed g); [| inversion H; subst; apply keeps_rows_refl].
    destruct (db_transaction _ _ st) as [st1 done] eqn:E.
    apply draw_keeps_rows in E.
    destruct done.
    + eapply keeps_rows_trans; [exact E | now apply A].
    + inversion H; subst. exact E.
Qed.

Lemma tick_loop_keeps_rows now faults rows : forall st st' t out,
  tick_loop now faults rows st = (st', t, out) -> keeps_rows st st'.
Proof.
  induction rows as [| g rest IH]; intros st st' t out H; simpl in H.
  - inversion H; subst. apply keeps_rows_refl.
  - destruct (tick_body now faults g st) as [[st1 k] o1] eqn:E.
    apply tick_body_keeps_rows in E.
    destruct k.
    + inversion H; subst. exact E.
    + destruct (tick_loop now faults rest st1) as [[st2 t2] o2] eqn:E2.
      inversion H; subst. eapply keeps_rows_trans; [exact E |]. eapply IH; eauto.
Qed.

Lemma tick_after_empty_keeps_rows now g r st :
  keeps_rows st (fst (tick_after_empty now g r st)).
Proof.
  unfold tick_after_empty. destruct r; simpl;
    [apply announced_keeps_rows | apply keeps_rows_refl].
Qed.

Lemma tick_after_winners_keeps_rows now g fresh r st :
  keeps_rows st (fst (tick_after_winners now g fresh r st)).
Proof.
  unfold tick_after_winners. destruct r; simpl;
    [apply announced_keeps_rows | apply keeps_rows_refl].
Qed.

Lemma announce_finish_keeps_rows c gid g now r st :
  keeps_rows st (fst (announce_finish c gid g now r st)).
Proof.
  unfold announce_finish. destruct r; simpl;
    [apply announced_keeps_rows | apply keeps_rows_refl].
Qed.

Lemma cmd_cancel_keeps_rows c now gid reason st :
  keeps_rows st (fst (cmd_cancel c now gid reason st)).
Proof.
  unfold cmd_cancel.
  destruct (negb (isAdmin (from_id c))); [apply keeps_rows_refl |].
  destruct (gid =? 0); [apply keeps_rows_refl |].
  destruct (get_giveaway gid st); [| apply keeps_rows_refl].
  destruct (canceled g =? 1); [apply keeps_rows_refl |].
  destruct (ended g =? 1); [apply keeps_rows_refl |].
  apply canceled_keeps_rows.
Qed.

Lemma join_finish_keeps_rows c gid g now r st :
  gid < next_id st ->
  keeps_rows st (fst (join_finish c gid g now r st)).
Proof.
  intro Hlt. unfold join_finish.
  destruct (negb (member_ok r)); [apply keeps_rows_refl |].
  destruct (insert_participant gid (from_id c) (join_name c) now st) eqn:E;
    [| apply keeps_rows_refl].
  simpl. eapply insert_participant_keeps_rows; eauto.
Qed.

Lemma task_ok_next st st' t :
  next_id st <= next_id st' -> task_ok st t -> task_ok st' t.
Proof. destruct t; simpl; auto. intros Hn (A & B); split; [lia | exact B]. Qed.

Lemma tasks_ok_next st st' ts :
  next_id st <= next_id st' -> Forall (task_ok st) ts -> Forall (task_ok st') ts.
Proof.
  intros Hn H. eapply Forall_impl; [| exact H]. intros t. now apply task_ok_next.
Qed.

Lemma remove_nth_incl {A : Type} i (l : list A) x : In x (remove_nth i l) -> In x l.
Proof.
  unfold remove_nth. intro H. apply in_app_or in H.
  destruct H as [H | H].
  - rewrite <- (firstn_skipn i l). apply in_or_app. now left.
  - rewrite <- (firstn_skipn (S i) l). apply in_or_app. now right.
Qed.

Lemma get_giveaway_some gid st g :
  get_giveaway gid st = Some g -> In g (giveaways st) /\ id g = gid.
Proof.
  unfold get_giveaway. intro H. apply find_some in H.
  destruct H as [Hin He]. split; [exact Hin | now apply Z.eqb_eq].
Qed.

Lemma tick_body_task now faults g st st' k out :
  tick_body now faults g st = (st', Some k, out) ->
  forall rest s, task_ok s (k rest).
Proof.
  unfold tick_body, announce_from_db. intros H rest s.
  repeat match type of H with
         | context [if ?b then _ else _] => destruct b
         | context [match ?x with _ => _ end] => destruct x eqn:?
         end; inversion H; subst; exact I.
Qed.

Lemma tick_loop_task now faults rows : forall st st' t out s,
  tick_loop now faults rows st = (st', Some t, out) -> task_ok s t.
Proof.
  induction rows as [| g rest IH]; intros st st' t out s H; simpl in H.
  - discriminate.
  - destruct (tick_body now faults g st) as [[st1 k] o1] eqn:E.
    destruct k.
    + inversion H; subst. eapply tick_body_task; eauto.
    + destruct (tick_loop now faults rest st1) as [[st2 t2] o2] eqn:E2.
      inversion H; subst. eapply IH; eauto.
Qed.

Lemma insert_giveaway_ok chat mid pr sp w endt created sd st :
  store_ok st ->
  store_ok (fst (insert_giveaway chat mid pr sp w endt created sd (sha256Hex sd) st)).
Proof.
  intros (R & I & N & P & K). unfold store_ok. simpl.
  repeat split.
  - apply Forall_app. split; [exact R |]. constructor; [| constructor].
    repeat split; simpl; try (now left). now exists sd.
  - apply Forall_app. split.
    + eapply Forall_impl; [| exact I]. simpl. intros; lia.
    + constructor; [simpl; lia | constructor].
  - rewrite map_app. simpl.
    apply Permutation_NoDup with (l := next_id st :: map id (giveaways st)).
    + apply Permutation_cons_append.
    + constructor; [| exact N].
      intro Hin. apply in_map_iff in Hin. destruct Hin as [g [Hg Hin]].
      rewrite Forall_forall in I. specialize (I g Hin). lia.
  - eapply Forall_impl; [| exact P]. simpl. intros; lia.
  - exact K.
Qed.

Lemma flag_not_one z : flag z -> (z =? 1) = false -> z = 0.
Proof. intros [H | H] E; [exact H |]. subst. discriminate. Qed.

(** The join action goes on to the membership lookup only for a giveaway
    that is neither ended nor canceled, before its close time. *)
Lemma join_action_guard c now gid st g t out :
  store_ok st ->
  get_giveaway gid st = Some g ->
  join_action c now gid st = (Some t, out) ->
  t = JoinMemberAsked c gid g now /\ task_ok st t.
Proof.
  intros (R & I & _) G E. unfold join_action in E. rewrite G in E.
  apply get_giveaway_some in G. destruct G as [Gin Gid].
  rewrite Forall_forall in R, I.
  destruct (R g Gin) as (Fe & Fc & _).
  destruct (canceled g =? 1) eqn:Ec; [discriminate |].
  destruct ((ended g =? 1) || (now >=? end_time g)) eqn:Ee; [discriminate |].
  apply orb_false_iff in Ee. destruct Ee as [Ee En].
  inversion E; subst. split; [reflexivity |]. simpl.
  rewrite Z.geb_leb in En. apply Z.leb_gt in En.
  repeat split; auto using flag_not_one.
Qed.

(** Every step of the process keeps the state well-formed. *)
Lemma step_ok ev sys : sys_ok sys -> sys_ok (fst (step ev sys)).
Proof.
  intros [Hs Ht].
  assert (Keep : forall st' ts',
             keeps_rows (store sys) st' ->
             (forall t, In t ts' -> In t (tasks sys) \/ task_ok st' t) ->
             sys_ok {| store := st'; tasks := ts' |}).
  { intros st' ts' (A & B & C) Hts. split; simpl; [auto |].
    apply Forall_forall. intros t Hin.
    destruct (Hts t Hin) as [Hold | Hnew]; [| exact Hnew].
    rewrite Forall_forall in Ht.
    apply (task_ok_next (store sys)); [lia | auto]. }
  destruct ev as [now faults | i now r faults | c now gid reason | c gid | c gid | c gid
                 | c now gid | c tg w endUnix pr sp sd]; simpl.
  - unfold drawAndAnnounce.
    destruct (tick_loop now faults (due_query now (store sys)) (store sys))
      as [[st t] out] eqn:E. simpl.
    apply Keep; [eapply tick_loop_keeps_rows; eauto |].
    intros t0 Hin. apply in_app_or in Hin. destruct Hin as [Hin | Hin]; [now left |].
    right. destruct t; simpl in Hin; [| contradiction].
    destruct Hin as [<- | []]. eapply tick_loop_task; eauto.
  - destruct (nth_error (tasks sys) i) as [t |] eqn:En; [| now split].
    assert (Htask : task_ok (store sys) t).
    { rewrite Forall_forall in Ht. apply Ht. eapply nth_error_In; eauto. }
    assert (Old : forall st' t' x,
               In x (remove_nth i (tasks sys) ++ opt_to_list t') ->
               (forall y, t' = Some y -> task_ok st' y) ->
               In x (tasks sys) \/ task_ok st' x).
    { intros st' t' x Hin Hnew. apply in_app_or in Hin.
      destruct Hin as [Hin | Hin]; [left; eapply remove_nth_incl; eauto |].
      right. destruct t'; simpl in Hin; [| contradiction].
      destruct Hin as [<- | []]. now apply Hnew. }
    destruct t as [tnow g rest | tnow g fresh rest | c gid g jnow | c gid g
                  | c tg w endUnix pr sp sd sh | c gid endUnix]; simpl.
    + destruct (tick_after_empty tnow g r (store sys)) as [st1 o1] eqn:E1.
      destruct (tick_loop tnow faults rest st1) as [[st2 t2] o2] eqn:E2. simpl.
      apply Keep.
      * eapply keeps_rows_trans; [| eapply tick_loop_keeps_rows; eauto].
        pose proof (tick_after_empty_keeps_rows tnow g r (store sys)) as K.
        now rewrite E1 in K.
      * intros x Hin. eapply Old; eauto.
        intros y ->. eapply tick_loop_task; eauto.
    + destruct (tick_after_winners tnow g fresh r (store sys)) as [st1 o1] eqn:E1.
      destruct (tick_loop tnow faults rest st1) as [[st2 t2] o2] eqn:E2. simpl.
      apply Keep.
      * eapply keeps_rows_trans; [| eapply tick_loop_keeps_rows; eauto].
        pose proof (tick_after_winners_keeps_rows tnow g fresh r (store sys)) as K.
        now rewrite E1 in K.
      * intros x Hin. eapply Old; eauto.
        intros y ->. eapply tick_loop_task; eauto.
    + destruct (join_finish c gid g jnow r (store sys)) as [st1 o1] eqn:E1. simpl.
      apply Keep.
      * pose proof (join_finish_keeps_rows c gid g jnow r (store sys) (proj1 Htask)) as K.
        now rewrite E1 in K.
      * intros x Hin. apply (Old st1 None x Hin). intros y Hy. discriminate Hy.
    + destruct (announce_finish c gid g now r (store sys)) as [st1 o1] eqn:E1. simpl.
      apply Keep.
      * pose proof (announce_finish_keeps_rows c gid g now r (store sys)) as K.
        now rewrite E1 in K.
      * intros x Hin. apply (Old st1 None x Hin). intros y Hy. discriminate Hy.
    + unfold create_after_post. destruct r as [mid |]; simpl.
      * simpl in Htask. subst sh.
        pose proof (insert_giveaway_ok tg mid pr sp w endUnix now sd (store sys) Hs) as Hok.
        split; simpl; [exact Hok |].
        apply Forall_app. split; [| now repeat constructor].
        apply (tasks_ok_next (store sys)); [simpl; lia |].
        apply Forall_forall. intros x Hin. rewrite Forall_forall in Ht.
        apply Ht. eapply remove_nth_incl; eauto.
      * apply Keep; [apply keeps_rows_refl |].
        intros x Hin. left. rewrite app_nil_r in Hin. eapply remove_nth_incl; eauto.
    + apply Keep; [apply keeps_rows_refl |].
      intros x Hin. left. rewrite app_nil_r in Hin. eapply remove_nth_incl; eauto.
  - destruct (cmd_cancel c now gid reason (store sys)) as [st out] eqn:E. simpl.
    apply Keep; [| now left].
    pose proof (cmd_cancel_keeps_rows c now gid reason (store sys)) as K.
    now rewrite E in K.
  - destruct (cmd_announce c gid (store sys)) as [t out] eqn:E. simpl.
    apply Keep; [apply keeps_rows_refl |].
    intros x Hin. apply in_app_or in Hin. destruct Hin as [Hin | Hin]; [now left |].
    right. unfold cmd_announce in E.
    repeat match type of E with
           | context [if ?b then _ else _] => destruct b
           | context [match ?x with _ => _ end] => destruct x eqn:?
           end; inversion E; subst; simpl in Hin; try contradiction;
      destruct Hin as [<- | []]; exact I.
  - now split.
  - now split.
  - destruct (join_action c now gid (store sys)) as [t out] eqn:E. simpl.
    apply Keep; [apply keeps_rows_refl |].
    intros x Hin. apply in_app_or in Hin. destruct Hin as [Hin | Hin]; [now left |].
    right. destruct t as [t |]; simpl in Hin; [| contradiction].
    destruct Hin as [<- | []].
    destruct (get_giveaway gid (store sys)) as [g |] eqn:G.
    + now destruct (join_action_guard c now gid (store sys) g t out Hs G E).
    + unfold join_action in E. rewrite G in E. discriminate.
  - apply Keep; [apply keeps_rows_refl |].
    intros x Hin. apply in_app_or in Hin. destruct Hin as [Hin | Hin]; [now left |].
    right. destruct Hin as [<- | []]. reflexivity.
Qed.

Lemma init_ok : sys_ok init_sys.
Proof.
  split; simpl; [| constructor].
  unfold store_ok. simpl. repeat split; constructor.
Qed.

Lemma run_app evs1 : forall evs2 sys,
  fst (run (evs1 ++ evs2) sys) = fst (run evs2 (fst (run evs1 sys))).
Proof.
  induction evs1 as [| ev evs1 IH]; intros evs2 sys; simpl; [reflexivity |].
  destruct (step ev sys) as [sys1 o1].
  specialize (IH evs2 sys1).
  destruct (run (evs1 ++ evs2) sys1) as [sa oa].
  destruct (run evs1 sys1) as [sb ob]. simpl in *. exact IH.
Qed.

Lemma run_ok evs : forall sys, sys_ok sys -> sys_ok (fst (run evs sys)).
Proof.
  induction evs as [| ev evs IH]; intros sys H; simpl; [exact H |].
  pose proof (step_ok ev sys H) as H1.
  destruct (step ev sys) as [sys1 o1]. simpl in H1.
  specialize (IH sys1 H1).
  now destruct (run evs sys1) as [sys2 o2].
Qed.

(** ** The commitment *)

Lemma filter_none {A : Type} (f : A -> bool) (l : list A) :
  (forall x, In x l -> f x = false) -> filter f l = [].
Proof.
  induction l as [| a l IH]; intro H; simpl; [reflexivity |].
  rewrite (H a) by now left. apply IH. intros x Hx. apply H. now right.
Qed.

(** The entries are untouched by everything but an accepted join. *)
Lemma tick_body_entries now faults g st :
  participants (fst (fst (tick_body now faults g st))) = participants st.
Proof.
  unfold tick_body.
  destruct (ended g =? 0); [| now rewrite announce_from_db_store].
  destruct (participants_of (id g) st) as [| p ps]; [reflexivity |].
  destruct (seed g) as [sd |]; [| reflexivity].
  destruct (db_transaction_all_or_nothing
              (draw_statements now (id g)
                 (pickWinnersDeterministic sd (id g) (p :: ps) (winners g)))
              (faults (id g)) st) as [E | E]; rewrite E; [| reflexivity].
  now rewrite announce_from_db_store, apply_draw_statements.
Qed.

Lemma tick_loop_entries now faults rows : forall st,
  participants (fst (fst (tick_loop now faults rows st))) = participants st.
Proof.
  induction rows as [| g rest IH]; intro st; simpl; [reflexivity |].
  pose proof (tick_body_entries now faults g st) as Hb.
  destruct (tick_body now faults g st) as [[st1 k] o1]. simpl in Hb.
  destruct k; [exact Hb |].
  specialize (IH st1). destruct (tick_loop now faults rest st1) as [[st2 t2] o2].
  simpl in *. congruence.
Qed.

Lemma tick_after_empty_entries now g r st :
  participants (fst (tick_after_empty now g r st)) = participants st.
Proof. unfold tick_after_empty. now destruct r. Qed.

Lemma tick_after_winners_entries now g fresh r st :
  participants (fst (tick_after_winners now g fresh r st)) = participants st.
Proof. unfold tick_after_winners. now destruct r. Qed.

Lemma announce_finish_entries c gid g now r st :
  participants (fst (announce_finish c gid g now r st)) = participants st.
Proof. unfold announce_finish. now destruct r. Qed.

Lemma cmd_cancel_entries c now gid reason st :
  participants (fst (cmd_cancel c now gid reason st)) = participants st.
Proof.
  unfold cmd_cancel.
  repeat match goal with
         | |- context [if ?b then _ else _] => destruct b
         | |- context [match get_giveaway ?a ?b with _ => _ end] =>
             destruct (get_giveaway a b)
         end; reflexivity.
Qed.

(** What a step can do to the giveaway rows and to the entries: change
    neither the commitments nor the entries; or accept one join; or
    create one giveaway. *)
Lemma step_kind ev sys :
  sys_ok sys ->
  (keeps_rows (store sys) (store (fst (step ev sys)))
   /\ participants (store (fst (step ev sys))) = participants (store sys))
  \/ (exists i now r faults c gid g jnow,
        ev = Resume i now r faults
        /\ nth_error (tasks sys) i = Some (JoinMemberAsked c gid g jnow)
        /\ member_ok r = true
        /\ insert_participant gid (from_id c) (join_name c) jnow (store sys)
           = Some (store (fst (step ev sys)))
        /\ keeps_rows (store sys) (store (fst (step ev sys))))
  \/ (exists i now mid faults c tg w endUnix pr sp sd sh,
        ev = Resume i now (Some mid) faults
        /\ nth_error (tasks sys) i = Some (CreateSent c tg w endUnix pr sp sd sh)
        /\ store (fst (step ev sys))
           = fst (insert_giveaway tg mid pr sp w endUnix now sd sh (store sys))).
Proof.
  intros [Hs Ht].
  destruct ev as [now faults | i now r faults | c now gid reason | c gid | c gid | c gid
                 | c now gid | c tg w endUnix pr sp sd]; simpl.
  - left. unfold drawAndAnnounce.
    pose proof (tick_loop_entries now faults (due_query now (store sys)) (store sys)) as P.
    destruct (tick_loop now faults (due_query now (store sys)) (store sys))
      as [[st t] out] eqn:E. simpl in *.
    split; [eapply tick_loop_keeps_rows; eauto | exact P].
  - destruct (nth_error (tasks sys) i) as [t |] eqn:En;
      [| left; split; [apply keeps_rows_refl | reflexivity]].
    assert (Htask : task_ok (store sys) t).
    { rewrite Forall_forall in Ht. apply Ht. eapply nth_error_In; eauto. }
    destruct t as [tnow g rest | tnow g fresh rest | c gid g jnow | c gid g
                  | c tg w endUnix pr sp sd sh | c gid endUnix]; simpl.
    + left.
      pose proof (tick_after_empty_keeps_rows tnow g r (store sys)) as K.
      pose proof (tick_after_empty_entries tnow g r (store sys)) as P1.
      destruct (tick_after_empty tnow g r (store sys)) as [st1 o1].
      pose proof (tick_loop_entries tnow faults rest st1) as P2.
      destruct (tick_loop tnow faults rest st1) as [[st2 t2] o2] eqn:E2. simpl in *.
      split; [| congruence].
      eapply keeps_rows_trans; [exact K | eapply tick_loop_keeps_rows; eauto].
    + left.
      pose proof (tick_after_winners_keeps_rows tnow g fresh r (store sys)) as K.
      pose proof (tick_after_winners_entries tnow g fresh r (store sys)) as P1.
      destruct (tick_after_winners tnow g fresh r (store sys)) as [st1 o1].
      pose proof (tick_loop_entries tnow faults rest st1) as P2.
      destruct (tick_loop tnow faults rest st1) as [[st2 t2] o2] eqn:E2. simpl in *.
      split; [| congruence].
      eapply keeps_rows_trans; [exact K | eapply tick_loop_keeps_rows; eauto].
    + pose proof (join_finish_keeps_rows c gid g jnow r (store sys) (proj1 Htask)) as K.
      unfold join_finish in *.
      destruct (member_ok r) eqn:Em; simpl in *;
        [| left; split; [exact K | reflexivity]].
      destruct (insert_participant gid (from_id c) (join_name c) jnow (store sys))
        as [st1 |] eqn:Ei; simpl in *; [| left; split; [exact K | reflexivity]].
      right. left. exists i, now, r, faults, c, gid, g, jnow. auto.
    + left.
      pose proof (announce_finish_keeps_rows c gid g now r (store sys)) as K.
      pose proof (announce_finish_entries c gid g now r (store sys)) as P.
      now destruct (announce_finish c gid g now r (store sys)).
    + unfold create_after_post. destruct r as [mid |]; simpl.
      * right. right. exists i, now, mid, faults, c, tg, w, endUnix, pr, sp, sd, sh. auto.
      * left. split; [apply keeps_rows_refl | reflexivity].
    + left. split; [apply keeps_rows_refl | reflexivity].
  - left.
    pose proof (cmd_cancel_keeps_rows c now gid reason (store sys)) as K.
    pose proof (cmd_cancel_entries c now gid reason (store sys)) as P.
    now destruct (cmd_cancel c now gid reason (store sys)).
  - left. destruct (cmd_announce c gid (store sys)).
    split; [apply keeps_rows_refl | reflexivity].
  - left. split; [apply keeps_rows_refl | reflexivity].
  - left. split; [apply keeps_rows_refl | reflexivity].
  - left. destruct (join_action c now gid (store sys)).
    split; [apply keeps_rows_refl | reflexivity].
  - left. split; [apply keeps_rows_refl | reflexivity].
Qed.

Lemma step_commitments ev sys :
  sys_ok sys ->
  exists new,
    map commitment (giveaways (store (fst (step ev sys))))
    = map commitment (giveaways (store sys)) ++ new.
Proof.
  intro H.
  destruct (step_kind ev sys H)
    as [((A & _) & _) | [(i & now & r & f & c & gid & g & jnow & _ & _ & _ & _ & A & _)
       | (i & now & mid & f & c & tg & w & endUnix & pr & sp & sd & sh & _ & _ & A)]].
  - exists []. now rewrite app_nil_r.
  - exists []. now rewrite app_nil_r.
  - rewrite A. simpl. rewrite map_app. eexists. reflexivity.
Qed.

Lemma run_commitments evs : forall sys,
  sys_ok sys ->
  exists new,
    map commitment (giveaways (store (fst (run evs sys))))
    = map commitment (giveaways (store sys)) ++ new.
Proof.
  induction evs as [| ev evs IH]; intros sys H; simpl.
  - exists []. now rewrite app_nil_r.
  - destruct (step_commitments ev sys H) as [n1 E1].
    pose proof (step_ok ev sys H) as H1.
    destruct (step ev sys) as [sys1 o1]. simpl in *.
    destruct (IH sys1 H1) as [n2 E2].
    destruct (run evs sys1) as [sys2 o2]. simpl in *.
    exists (n1 ++ n2). now rewrite E2, E1, app_assoc.
Qed.

(** C6. In every state the process can reach, every giveaway row holds a
    seed and the SHA-256 of that seed as its commitment; whatever happens
    next, the rows already there keep their key, seed and commitment (new
    rows come after them); and a row enters the table with its seed and
    commitment already set and with no entry recorded for it. *)
Theorem commitment_binding evs :
  let sys := fst (run evs init_sys) in
  (forall g, In g (giveaways (store sys)) -> committed g)
  /\ (forall evs', exists new,
        map commitment (giveaways (store (fst (run evs' sys))))
        = map commitment (giveaways (store sys)) ++ new)
  /\ (forall ev g,
        In g (giveaways (store (fst (step ev sys)))) ->
        ~ In (id g) (map id (giveaways (store sys))) ->
        committed g /\ participants_of (id g) (store (fst (step ev sys))) = []).
Proof.
  intro sys.
  assert (Hok : sys_ok sys) by (apply run_ok, init_ok).
  split; [| split].
  - intros g Hin. destruct Hok as [(R & _) _].
    rewrite Forall_forall in R. now apply R.
  - intro evs'. now apply run_commitments.
  - intros ev g Hin Hnew.
    pose proof (step_ok ev sys Hok) as [(R' & _) _].
    split; [rewrite Forall_forall in R'; now apply R' |].
    destruct (step_kind ev sys Hok)
      as [((A & _) & _) | [(i & now & r & f & c & gid & g0 & jnow & _ & _ & _ & _ & A & _)
         | (i & now & mid & f & c & tg & w & endUnix & pr & sp & sd & sh & _ & _ & A)]].
    + exfalso. apply Hnew. rewrite <- (ids_of_commitments _ _ A). now apply in_map.
    + exfalso. apply Hnew. rewrite <- (ids_of_commitments _ _ A). now apply in_map.
    + rewrite A in Hin |- *. simpl in Hin. apply in_app_or in Hin.
      destruct Hin as [Hin | [<- | []]]; [exfalso; apply Hnew; now apply in_map |].
      unfold participants_of. simpl.
      destruct Hok as [(_ & _ & _ & P & _) _].
      replace (filter (fun p => p_giveaway_id p =? next_id (store sys))
                 (participants (store sys))) with (@nil ParticipantRow); [reflexivity |].
      symmetry. apply filter_none.
      intros p Hp. rewrite Forall_forall in P. specialize (P p Hp).
      apply Z.eqb_neq. lia.
Qed.

(** ** The proof view *)

Lemma no_proof_private out : no_proof out -> all_private out.
Proof. intros H o Hin Hc. rewrite (H o Hin) in Hc. discriminate. Qed.

Lemma all_private_app o1 o2 : all_private o1 -> all_private o2 -> all_private (o1 ++ o2).
Proof. intros H1 H2 o Hin. apply in_app_or in Hin. destruct Hin; auto. Qed.

Lemma no_proof_app o1 o2 : no_proof o1 -> no_proof o2 -> no_proof (o1 ++ o2).
Proof. intros H1 H2 o Hin. apply in_app_or in Hin. destruct Hin; auto. Qed.

Lemma proof_dms_private g : all_private (proof_dms g).
Proof.
  unfold proof_dms. intros o Hin _.
  apply in_map_iff in Hin. destruct Hin as [a [<- Ha]]. exact Ha.
Qed.

Lemma announce_from_db_no_proof now g st :
  no_proof (snd (announce_from_db now g st)).
Proof.
  unfold announce_from_db.
  destruct (winners_of (id g) st); [no_proof_list |].
  destruct (get_giveaway (id g) st); no_proof_list.
Qed.

Lemma tick_body_no_proof now faults g st : no_proof (snd (tick_body now faults g st)).
Proof.
  unfold tick_body.
  destruct (ended g =? 0); [| apply announce_from_db_no_proof].
  destruct (participants_of (id g) st); [no_proof_list |].
  destruct (seed g); [| no_proof_list].
  destruct (db_transaction _ _ st) as [st1 done].
  destruct done; [apply announce_from_db_no_proof | no_proof_list].
Qed.

Lemma tick_loop_no_proof now faults rows : forall st,
  no_proof (snd (tick_loop now faults rows st)).
Proof.
  induction rows as [| g rest IH]; intro st; simpl; [no_proof_list |].
  pose proof (tick_body_no_proof now faults g st) as Hb.
  destruct (tick_body now faults g st) as [[st1 k] o1]. simpl in Hb.
  destruct k; [exact Hb |].
  specialize (IH st1). destruct (tick_loop now faults rest st1) as [[st2 t2] o2].
  simpl in *. now apply no_proof_app.
Qed.

Lemma isAdmin_In uid : isAdmin uid = true -> In uid ADMINS.
Proof.
  unfold isAdmin. intro H. apply existsb_exists in H.
  destruct H as [a [Ha He]]. apply Z.eqb_eq in He. now subst.
Qed.

Lemma step_outputs_private ev sys : all_private (snd (step ev sys)).
Proof.
  destruct ev as [now faults | i now r faults | c now gid reason | c gid | c gid | c gid
                 | c now gid | c tg w endUnix pr sp sd]; simpl.
  - unfold drawAndAnnounce.
    pose proof (tick_loop_no_proof now faults (due_query now (store sys)) (store sys)) as H.
    destruct (tick_loop now faults (due_query now (store sys)) (store sys)) as [[st t] out].
    now apply no_proof_private.
  - destruct (nth_error (tasks sys) i) as [t |]; [| now apply no_proof_private].
    destruct t as [tnow g rest | tnow g fresh rest | c gid g jnow | c gid g
                  | c tg w endUnix pr sp sd sh | c gid endUnix]; simpl.
    + assert (H1 : all_private (snd (tick_after_empty tnow g r (store sys)))).
      { unfold tick_after_empty. destruct r; simpl; [| apply no_proof_private; no_proof_list].
        destruct (get_giveaway _ _); [apply proof_dms_private |].
        apply no_proof_private. destruct ADMINS; no_proof_list. }
      destruct (tick_after_empty tnow g r (store sys)) as [st1 o1].
      pose proof (tick_loop_no_proof tnow faults rest st1) as H2.
      destruct (tick_loop tnow faults rest st1) as [[st2 t2] o2]. simpl in *.
      apply all_private_app; [exact H1 | now apply no_proof_private].
    + assert (H1 : all_private (snd (tick_after_winners tnow g fresh r (store sys)))).
      { unfold tick_after_winners. destruct r; simpl;
          [apply proof_dms_private | apply no_proof_private; no_proof_list]. }
      destruct (tick_after_winners tnow g fresh r (store sys)) as [st1 o1].
      pose proof (tick_loop_no_proof tnow faults rest st1) as H2.
      destruct (tick_loop tnow faults rest st1) as [[st2 t2] o2]. simpl in *.
      apply all_private_app; [exact H1 | now apply no_proof_private].
    + unfold join_finish.
      destruct (negb (member_ok r)); [apply no_proof_private; no_proof_list |].
      destruct (insert_participant _ _ _ _ _); apply no_proof_private; no_proof_list.
    + unfold announce_finish. destruct r; simpl;
        [| apply no_proof_private; no_proof_list].
      apply all_private_app; [apply proof_dms_private |].
      apply no_proof_private; no_proof_list.
    + unfold create_after_post. destruct r; simpl; apply no_proof_private; no_proof_list.
    + unfold create_after_markup. destruct r; apply no_proof_private; no_proof_list.
  - unfold cmd_cancel.
    repeat match goal with
           | |- context [if ?b then _ else _] => destruct b
           | |- context [match get_giveaway ?a ?b with _ => _ end] =>
               destruct (get_giveaway a b)
           end; apply no_proof_private; no_proof_list.
  - unfold cmd_announce.
    repeat match goal with
           | |- context [if ?b then _ else _] => destruct b
           | |- context [match get_giveaway ?a ?b with _ => _ end] =>
               destruct (get_giveaway a b)
           | |- context [match winners_of ?a ?b with _ => _ end] =>
               destruct (winners_of a b)
           end; apply no_proof_private; no_proof_list.
  - unfold cmd_ginfo.
    destruct (isAdmin (from_id c)) eqn:Ha; simpl; [| apply no_proof_private; no_proof_list].
    destruct (gid =? 0); [apply no_proof_private; no_proof_list |].
    destruct (get_giveaway gid (store sys)); [| apply no_proof_private; no_proof_list].
    intros o [<- | []] Hc. simpl in *.
    destruct (chat_private c); [| discriminate].
    split; [reflexivity | now apply isAdmin_In].
  - unfold cmd_proof.
    destruct (isAdmin (from_id c)) eqn:Ha; simpl; [| apply no_proof_private; no_proof_list].
    destruct (chat_private c) eqn:Hp; simpl; [| apply no_proof_private; no_proof_list].
    destruct (gid =? 0); [apply no_proof_private; no_proof_list |].
    destruct (get_giveaway gid (store sys)); [| apply no_proof_private; no_proof_list].
    intros o [<- | []] Hc. simpl.
    split; [exact Hp | now apply isAdmin_In].
  - unfold join_action.
    repeat match goal with
           | |- context [if ?b then _ else _] => destruct b
           | |- context [match get_giveaway ?a ?b with _ => _ end] =>
               destruct (get_giveaway a b)
           end; apply no_proof_private; no_proof_list.
  - apply no_proof_private; no_proof_list.
Qed.

Lemma escHtml_seed_hidden : escHtml txt_seed_hidden = txt_seed_hidden.
Proof. reflexivity. Qed.

Lemma str_or_nonempty sd d : sd <> "" -> str_or (Some sd) d = sd.
Proof.
  intro H. simpl. destruct (String.eqb sd "") eqn:E; [| reflexivity].
  apply String.eqb_eq in E. contradiction.
Qed.

Lemma text_app_assoc (a b c : string) :
  ((a ++ b) ++ c)%string = (a ++ (b ++ c))%string.
Proof. induction a as [| x a IH]; simpl; [reflexivity | now rewrite IH]. Qed.

Lemma text_length_app (a b : string) :
  String.length (a ++ b) = (String.length a + String.length b)%nat.
Proof. induction a as [| x a IH]; simpl; [reflexivity | now rewrite IH]. Qed.

Lemma escHtml_one_more a : escHtml (a ++ "x") = (escHtml a ++ "x")%string.
Proof.
  induction a as [| c a IH]; [reflexivity |].
  simpl. now rewrite IH, text_app_assoc.
Qed.

(** The proof text around its two fields. *)
Lemma buildProofText_fields g :
  buildProofText g
  = ((proof_header g ++ "🔒 <b>Commit:</b> <code>" ++ proof_commit_field g ++ "</code>" ++ nl)
     ++ "🔓 <b>Seed:</b> <code>" ++ proof_seed_field g ++ "</code>" ++ nl ++ nl ++ proof_footer)%string.
Proof. unfold buildProofText. now rewrite !text_app_assoc. Qed.

(** C7. The proof text of a giveaway shows the raw seed in its seed
    field when the row has [ended=1] and [canceled=0], and only then:
    when the giveaway is still open or is canceled the field shows the
    placeholder and the whole text is the same whatever the seed is, so
    the text depends on the seed exactly when [ended=1] and
    [canceled=0]; the commitment field shows the stored hash in every
    state; and every output that carries a proof text is a direct
    message to an operator or a reply to an operator in a private
    chat. *)
Theorem proof_view_reveal_policy :
  (forall g sd,
     seed g = Some sd -> sd <> "" ->
     ended g = 1 -> canceled g = 0 ->
     shows_field (buildProofText g) "🔓 <b>Seed:</b> " (escHtml sd))
  /\ (forall g,
        ended g = 0 \/ canceled g = 1 ->
        shows_field (buildProofText g) "🔓 <b>Seed:</b> " txt_seed_hidden
        /\ forall sd', buildProofText (with_seed sd' g) = buildProofText g)
  /\ (forall g,
        flag (ended g) -> flag (canceled g) ->
        ((exists sd', buildProofText (with_seed sd' g) <> buildProofText g)
         <-> ended g = 1 /\ canceled g = 0))
  /\ (forall g h,
        seed_hash g = Some h -> h <> "" ->
        shows_field (buildProofText g) "🔒 <b>Commit:</b> " (escHtml h))
  /\ (forall ev sys o,
        In o (snd (step ev sys)) -> carries_proof o = true -> private_delivery o).
Proof.
  assert (Shown : forall g sd,
             seed g = Some sd -> sd <> "" -> ended g = 1 -> canceled g = 0 ->
             proof_seed_field g = escHtml sd).
  { intros g sd Hs Hne He Hc. unfold proof_seed_field.
    rewrite He, Hc, Hs.
    change (truthy 1 && negb (truthy 0)) with true. cbv iota.
    now rewrite str_or_nonempty. }
  assert (Hidden : forall g,
             ended g = 0 \/ canceled g = 1 -> proof_seed_field g = txt_seed_hidden).
  { intros g H. unfold proof_seed_field.
    destruct H as [H | H]; rewrite H; simpl.
    - reflexivity.
    - now rewrite andb_false_r. }
  assert (Seed : forall g,
             shows_field (buildProofText g) "🔓 <b>Seed:</b> " (proof_seed_field g)).
  { intro g. eexists. eexists. apply buildProofText_fields. }
  assert (Same : forall g,
             ended g = 0 \/ canceled g = 1 ->
             forall sd', buildProofText (with_seed sd' g) = buildProofText g).
  { intros g H sd'. unfold buildProofText.
    rewrite (Hidden g H), (Hidden (with_seed sd' g)) by exact H. reflexivity. }
  split.
  { intros g sd Hs Hne He Hc. rewrite <- (Shown g sd Hs Hne He Hc). apply Seed. }
  split.
  { intros g H. split; [| now apply Same].
    rewrite <- (Hidden g H). apply Seed. }
  split.
  { intros g Fe Fc. split.
    - intros [sd' Hd].
      destruct Fe as [He | He]; [exfalso; apply Hd, Same; now left |].
      destruct Fc as [Hc | Hc]; [now split |].
      exfalso. apply Hd, Same. now right.
    - intros [He Hc].
      exists (Some (str_or (seed g) "N/A" ++ "x")%string).
      intro E. apply (f_equal String.length) in E.
      rewrite !buildProofText_fields in E.
      unfold proof_seed_field in E. cbn [ended canceled seed with_seed] in E.
      rewrite He, Hc in E.
      change (truthy 1 && negb (truthy 0)) with true in E. cbv iota in E.
      assert (N : str_or (Some (str_or (seed g) "N/A" ++ "x")%string) "N/A"
                  = (str_or (seed g) "N/A" ++ "x")%string).
      { apply str_or_nonempty. destruct (str_or (seed g) "N/A"); discriminate. }
      rewrite N, escHtml_one_more in E.
      change (proof_header (with_seed (Some (str_or (seed g) "N/A" ++ "x")%string) g))
        with (proof_header g) in E.
      change (proof_commit_field
                (with_seed (Some (str_or (seed g) "N/A" ++ "x")%string) g))
        with (proof_commit_field g) in E.
      rewrite !text_length_app in E. simpl in E. lia. }
  split.
  { intros g h Hh Hne. exists (proof_header g).
    eexists. unfold buildProofText, proof_commit_field.
    rewrite Hh, str_or_nonempty by exact Hne. reflexivity. }
  intros ev sys. apply step_outputs_private.
Qed.

(** ** Joining *)

Lemma insert_participant_some gid uid nm now st st' :
  insert_participant gid uid nm now st = Some st' ->
  has_participant gid uid st = false
  /\ participants st' = participants st ++ [mkParticipantRow gid uid nm now].
Proof.
  unfold insert_participant. intro H.
  destruct (has_participant gid uid st); [discriminate |].
  inversion H; subst. auto.
Qed.

Lemma has_participant_app gid uid st st' extra :
  participants st' = participants st ++ extra ->
  has_participant gid uid st = true -> has_participant gid uid st' = true.
Proof.
  unfold has_participant. intros -> H. rewrite existsb_app, H. reflexivity.
Qed.

(** What the join action checks, in every state the process can reach.
    When the button is pressed the action goes on only for a giveaway
    whose stored row is not ended and not canceled, at a time before its
    close time; an entry is written only when such a join is resumed,
    after the membership lookup, for a member who has no entry yet, and
    it is that one entry, with the time of the press; an attempt by a
    participant who already has an entry for the giveaway changes
    nothing in the store, and is answered with the already-joined alert
    when it passes the membership check; an entry, once there, stays;
    and no two entries share giveaway and participant. *)
Theorem join_guard_and_no_double_join evs :
  let sys := fst (run evs init_sys) in
  (forall c now gid t out,
     join_action c now gid (store sys) = (Some t, out) ->
     exists g,
       get_giveaway gid (store sys) = Some g
       /\ ended g = 0 /\ canceled g = 0 /\ now < end_time g
       /\ t = JoinMemberAsked c gid g now)
  /\ (forall ev,
        participants (store (fst (step ev sys))) <> participants (store sys) ->
        exists i now r faults c gid g jnow,
          ev = Resume i now r faults
          /\ nth_error (tasks sys) i = Some (JoinMemberAsked c gid g jnow)
          /\ id g = gid /\ ended g = 0 /\ canceled g = 0 /\ jnow < end_time g
          /\ member_ok r = true
          /\ has_participant gid (from_id c) (store sys) = false
          /\ participants (store (fst (step ev sys)))
             = participants (store sys)
               ++ [mkParticipantRow gid (from_id c) (join_name c) jnow])
  /\ (forall c gid g now r,
        has_participant gid (from_id c) (store sys) = true ->
        fst (join_finish c gid g now r (store sys)) = store sys
        /\ (member_ok r = true ->
            snd (join_finish c gid g now r (store sys))
            = [AnswerCbQuery c txt_join_already]))
  /\ (forall ev gid uid,
        has_participant gid uid (store sys) = true ->
        has_participant gid uid (store (fst (step ev sys))) = true)
  /\ NoDup (map participant_key (participants (store sys))).
Proof.
  intro sys.
  assert (Hok : sys_ok sys) by (apply run_ok, init_ok).
  split; [| split; [| split; [| split]]].
  - intros c now gid t out E.
    destruct (get_giveaway gid (store sys)) as [g |] eqn:G.
    + destruct (join_action_guard c now gid (store sys) g t out (proj1 Hok) G E)
        as (-> & _ & _ & He & Hc & Hn).
      exists g. auto.
    + unfold join_action in E. rewrite G in E. discriminate.
  - intros ev Hne.
    destruct (step_kind ev sys Hok)
      as [(_ & A) | [(i & now & r & f & c & gid & g & jnow & Hev & Hn & Hm & Hi & _)
         | (i & now & mid & f & c & tg & w & endUnix & pr & sp & sd & sh & _ & _ & A)]].
    + contradiction.
    + exists i, now, r, f, c, gid, g, jnow.
      destruct (insert_participant_some _ _ _ _ _ _ Hi) as [Hh Hp].
      assert (Htask : task_ok (store sys) (JoinMemberAsked c gid g jnow)).
      { destruct Hok as [_ Ht]. rewrite Forall_forall in Ht. apply Ht.
        eapply nth_error_In; eauto. }
      destruct Htask as (_ & T1 & T2 & T3 & T4).
      repeat split; auto.
    + exfalso. apply Hne. now rewrite A.
  - intros c gid g now r Hh. unfold join_finish, insert_participant. rewrite Hh.
    destruct (member_ok r); simpl; split; auto. discriminate.
  - intros ev gid uid Hh.
    destruct (step_kind ev sys Hok)
      as [(_ & A) | [(i & now & r & f & c & gid' & g & jnow & _ & _ & _ & Hi & _)
         | (i & now & mid & f & c & tg & w & endUnix & pr & sp & sd & sh & _ & _ & A)]].
    + apply (has_participant_app gid uid (store sys) _ []); [| exact Hh].
      now rewrite app_nil_r.
    + destruct (insert_participant_some _ _ _ _ _ _ Hi) as [_ Hp].
      eapply has_participant_app; eauto.
    + rewrite A. apply (has_participant_app gid uid (store sys) _ []); [| exact Hh].
      simpl. now rewrite app_nil_r.
  - now destruct Hok as [(_ & _ & _ & _ & K) _].
Qed.

(** ** Creation *)

(** C10. A giveaway row is inserted only after the public post has been
    sent: starting a creation sends the post and leaves the store as it
    is; when the send fails the store is unchanged and the operator gets
    the failure reply, not the success message; when it succeeds the row
    is appended; and in every state the process can reach nothing else
    adds a giveaway row. *)
Theorem create_inserts_only_after_post evs :
  let sys := fst (run evs init_sys) in
  (forall c tg w endUnix pr sp sd,
     store (fst (step (Create c tg w endUnix pr sp sd) sys)) = store sys
     /\ snd (step (Create c tg w endUnix pr sp sd) sys)
        = [SendMessage tg (MsgGiveawayPost pr sp w endUnix 0)])
  /\ (forall i now faults c tg w endUnix pr sp sd sh,
        nth_error (tasks sys) i = Some (CreateSent c tg w endUnix pr sp sd sh) ->
        store (fst (step (Resume i now None faults) sys)) = store sys
        /\ snd (step (Resume i now None faults) sys) = [Reply c (MsgText txt_create_failed)])
  /\ (forall i now mid faults c tg w endUnix pr sp sd sh,
        nth_error (tasks sys) i = Some (CreateSent c tg w endUnix pr sp sd sh) ->
        store (fst (step (Resume i now (Some mid) faults) sys))
        = fst (insert_giveaway tg mid pr sp w endUnix now sd sh (store sys)))
  /\ (forall ev,
        List.length (giveaways (store (fst (step ev sys))))
        <> List.length (giveaways (store sys)) ->
        exists i now mid faults c tg w endUnix pr sp sd sh,
          ev = Resume i now (Some mid) faults
          /\ nth_error (tasks sys) i = Some (CreateSent c tg w endUnix pr sp sd sh)
          /\ store (fst (step ev sys))
             = fst (insert_giveaway tg mid pr sp w endUnix now sd sh (store sys))).
Proof.
  intro sys.
  assert (Hok : sys_ok sys) by (apply run_ok, init_ok).
  split; [| split; [| split]].
  - intros. simpl. auto.
  - intros i now faults c tg w endUnix pr sp sd sh Hn. simpl. rewrite Hn. simpl. auto.
  - intros i now mid faults c tg w endUnix pr sp sd sh Hn. simpl. rewrite Hn. reflexivity.
  - intros ev Hne.
    destruct (step_kind ev sys Hok)
      as [((A & _) & _) | [(i & now & r & f & c & gid & g & jnow & _ & _ & _ & _ & A & _)
         | H]].
    + exfalso. apply Hne. now rewrite <- (length_map commitment), A, length_map.
    + exfalso. apply Hne. now rewrite <- (length_map commitment), A, length_map.
    + exact H.
Qed.

(** ** Re-running lifecycle steps *)

Lemma only_touches_refl gid' st : only_touches gid' st st.
Proof. intros gid _. auto. Qed.

Lemma only_touches_trans gid' st1 st2 st3 :
  only_touches gid' st1 st2 -> only_touches gid' st2 st3 -> only_touches gid' st1 st3.
Proof.
  intros H1 H2 gid Hne. destruct (H1 gid Hne), (H2 gid Hne). split; congruence.
Qed.

Lemma find_map_id (f : Giveaway -> Giveaway) gid (l : list Giveaway) :
  (forall g, id (f g) = id g) ->
  find (fun g => id g =? gid) (map f l) = option_map f (find (fun g => id g =? gid) l).
Proof.
  intro Hf. induction l as [| a l IH]; simpl; [reflexivity |].
  rewrite Hf. destruct (id a =? gid); [reflexivity | exact IH].
Qed.

Lemma get_after_update gid gid' f st :
  (forall g, id (f g) = id g) ->
  get_giveaway gid (update_giveaway gid' f st)
  = option_map (fun g => if id g =? gid' then f g else g) (get_giveaway gid st).
Proof.
  intro Hf. unfold get_giveaway, update_giveaway. simpl.
  apply find_map_id. intro g. destruct (id g =? gid'); auto.
Qed.

Lemma update_only_touches gid' f st :
  (forall g, id (f g) = id g) ->
  only_touches gid' st (update_giveaway gid' f st).
Proof.
  intros Hf gid Hne. split; [| reflexivity].
  rewrite get_after_update by exact Hf.
  destruct (get_giveaway gid st) as [g |] eqn:G; [| reflexivity].
  apply get_giveaway_some in G. destruct G as [_ Gid]. simpl.
  destruct (id g =? gid') eqn:E; [| reflexivity].
  apply Z.eqb_eq in E. congruence.
Qed.

Lemma draw_only_touches now gid' picked st :
  only_touches gid' st (apply_all (draw_statements now gid' picked) st).
Proof.
  rewrite apply_draw_statements. intros gid Hne. split.
  - apply (update_only_touches gid' (set_ended now) st); auto.
  - unfold winners_of. simpl. rewrite filter_app.
    rewrite (filter_none _ (map (winner_row gid') picked)); [now rewrite app_nil_r |].
    intros w Hw. apply in_map_iff in Hw. destruct Hw as [x [<- _]]. simpl.
    apply Z.eqb_neq. congruence.
Qed.

Lemma tick_body_only_touches now faults g st :
  only_touches (id g) st (fst (fst (tick_body now faults g st))).
Proof.
  unfold tick_body.
  destruct (ended g =? 0);
    [| rewrite announce_from_db_store; apply only_touches_refl].
  destruct (participants_of (id g) st) as [| p ps];
    [apply update_only_touches; reflexivity |].
  destruct (seed g) as [sd |]; [| apply only_touches_refl].
  destruct (db_transaction_all_or_nothing
              (draw_statements now (id g)
                 (pickWinnersDeterministic sd (id g) (p :: ps) (winners g)))
              (faults (id g)) st) as [E | E]; rewrite E;
    [| apply only_touches_refl].
  rewrite announce_from_db_store. apply draw_only_touches.
Qed.

(** The task an iteration leaves behind is about the row it processed. *)
Lemma tick_body_task_row now faults g st st' k out rest :
  tick_body now faults g st = (st', Some k, out) ->
  k rest = TickEmptySent now g rest
  \/ exists fresh, k rest = TickWinnersSent now g fresh rest.
Proof.
  unfold tick_body, announce_from_db. intro H.
  repeat match type of H with
         | context [if ?b then _ else _] => destruct b
         | context [match ?x with _ => _ end] => destruct x eqn:?
         end; inversion H; subst; eauto.
Qed.

Lemma tick_settle_only_touches now g rest r st t :
  t = TickEmptySent now g rest \/ (exists fresh, t = TickWinnersSent now g fresh rest) ->
  only_touches (id g) st (fst (tick_settle t r st)).
Proof.
  intros [-> | [fresh ->]]; simpl.
  - unfold tick_after_empty. destruct r; simpl;
      [apply update_only_touches; reflexivity | apply only_touches_refl].
  - unfold tick_after_winners. destruct r; simpl;
      [apply update_only_touches; reflexivity | apply only_touches_refl].
Qed.

Lemma tick_iteration_only_touches now faults sends g rest st :
  only_touches (id g) st (fst (tick_iteration now faults sends g rest st)).
Proof.
  unfold tick_iteration.
  pose proof (tick_body_only_touches now faults g st) as Hb.
  destruct (tick_body now faults g st) as [[st1 k] out] eqn:E. simpl in Hb.
  destruct k as [k |]; [| exact Hb].
  pose proof (tick_settle_only_touches now g rest (sends (id g)) st1 (k rest)
                (tick_body_task_row _ _ _ _ _ _ _ rest E)) as Hs.
  destruct (tick_settle (k rest) (sends (id g)) st1) as [st2 out2]. simpl in *.
  eapply only_touches_trans; eauto.
Qed.

(** On a row that is already ended, an iteration performs no draw: the
    store is left as it is, or only [announced] and [announced_at] of
    that giveaway are set. *)
Lemma tick_iteration_ended now faults sends g rest st :
  ended g <> 0 ->
  fst (tick_iteration now faults sends g rest st) = st
  \/ fst (tick_iteration now faults sends g rest st)
     = update_giveaway (id g) (set_announced now) st.
Proof.
  intro He. apply Z.eqb_neq in He.
  unfold tick_iteration, tick_body. rewrite He. unfold announce_from_db.
  destruct (winners_of (id g) st); [now left |].
  destruct (get_giveaway (id g) st); [| now left].
  simpl. unfold tick_after_winners. destruct (sends (id g)); simpl; auto.
Qed.

Lemma tick_complete_others now faults sends gid rows : forall st,
  (forall r, In r rows -> id r <> gid) ->
  get_giveaway gid (fst (tick_complete now faults sends rows st)) = get_giveaway gid st
  /\ winners_of gid (fst (tick_complete now faults sends rows st)) = winners_of gid st.
Proof.
  induction rows as [| r rest IH]; intros st H; simpl; [auto |].
  pose proof (tick_iteration_only_touches now faults sends r rest st) as Hi.
  destruct (tick_iteration now faults sends r rest st) as [st1 o1]. simpl in Hi.
  assert (Hr : gid <> id r) by (intro E; apply (H r); [now left | auto]).
  destruct (Hi gid Hr) as [A B].
  destruct (IH st1 (fun x Hx => H x (or_intror Hx))) as [C D].
  destruct (tick_complete now faults sends rest st1) as [st2 o2]. simpl in *.
  split; congruence.
Qed.

Lemma tick_complete_no_draw now faults sends g rows : forall st g0,
  (forall r, In r rows -> id r = id g -> ended r <> 0) ->
  get_giveaway (id g) st = Some g0 -> draw_kept g g0 ->
  exists g',
    get_giveaway (id g) (fst (tick_complete now faults sends rows st)) = Some g'
    /\ draw_kept g g'
    /\ winners_of (id g) (fst (tick_complete now faults sends rows st))
       = winners_of (id g) st.
Proof.
  induction rows as [| r rest IH]; intros st g0 H G K; simpl; [eauto |].
  assert (Step : exists g1,
             get_giveaway (id g) (fst (tick_iteration now faults sends r rest st)) = Some g1
             /\ draw_kept g g1
             /\ winners_of (id g) (fst (tick_iteration now faults sends r rest st))
                = winners_of (id g) st).
  { destruct (Z.eq_dec (id r) (id g)) as [E | E].
    - destruct (tick_iteration_ended now faults sends r rest st (H r (or_introl eq_refl) E))
        as [-> | ->]; [eauto |].
      rewrite E, get_after_update, G by reflexivity. simpl.
      destruct (get_giveaway_some _ _ _ G) as [_ ->]. rewrite Z.eqb_refl.
      eexists. split; [reflexivity |]. split; [exact K | reflexivity].
    - destruct (tick_iteration_only_touches now faults sends r rest st (id g)) as [A B];
        [congruence |].
      rewrite A, B. eauto. }
  destruct Step as (g1 & G1 & K1 & W1).
  destruct (tick_iteration now faults sends r rest st) as [st1 o1]. simpl in *.
  destruct (IH st1 g1 (fun x Hx => H x (or_intror Hx)) G1 K1) as (g' & G' & K' & W').
  destruct (tick_complete now faults sends rest st1) as [st2 o2]. simpl in *.
  exists g'. repeat split; auto; try apply K'. congruence.
Qed.

Lemma due_query_row now st r g :
  NoDup (map id (giveaways st)) ->
  get_giveaway (id g) st = Some g ->
  In r (due_query now st) -> id r = id g ->
  r = g /\ announced g = 0.
Proof.
  intros N G Hin E. unfold due_query in Hin. apply filter_In in Hin.
  destruct Hin as [Hin Hf].
  destruct (get_giveaway_some _ _ _ G) as [Gin _].
  assert (r = g) by (eapply NoDup_map_eq; eauto). subst r.
  split; [reflexivity |].
  apply andb_true_iff in Hf. destruct Hf as [_ Hf]. now apply Z.eqb_eq.
Qed.

Lemma cmd_cancel_refused c now gid reason st g :
  get_giveaway gid st = Some g ->
  ended g = 1 \/ canceled g = 1 ->
  fst (cmd_cancel c now gid reason st) = st.
Proof.
  intros G H. unfold cmd_cancel. rewrite G.
  destruct (negb (isAdmin (from_id c))); [reflexivity |].
  destruct (gid =? 0); [reflexivity |].
  destruct (canceled g =? 1) eqn:Ec; [reflexivity |].
  destruct (ended g =? 1) eqn:Ee; [reflexivity |].
  exfalso. destruct H as [H | H]; rewrite H in *; discriminate.
Qed.

Lemma cmd_announce_again c gid st g :
  isAdmin (from_id c) = true -> chat_private c = true -> gid <> 0 ->
  get_giveaway gid st = Some g ->
  canceled g = 0 -> ended g = 1 -> winners_of gid st <> [] ->
  cmd_announce c gid st
  = (Some (AnnounceSent c gid g), [SendMessage (chat_id g) (MsgWinners g (winners_of gid st))]).
Proof.
  intros Ha Hp Hg G Hc He Hw. unfold cmd_announce.
  rewrite Ha, Hp, G, Hc, He. simpl.
  apply Z.eqb_neq in Hg. rewrite Hg.
  destruct (winners_of gid st); [contradiction | reflexivity].
Qed.

(** C4, as amended.  No [UPDATE] carries a condition on [ended] or
    [announced]; the handlers check the row they have read.  In every
    state the process can reach: a tick that runs without another handler
    in between leaves [ended], [ended_at], the cancellation columns and
    the winners rows of every giveaway that is already ended as they
    are, and leaves the whole row and the winners rows of every giveaway
    that is already announced as they are; [/cancel] on a giveaway that
    is ended or canceled leaves the store as it is; and [/announce] on an
    ended, not canceled giveaway with winners rows publishes them and,
    when the send succeeds, sets [announced_at] to the time of that
    moment, whether or not the giveaway was announced before. *)
Theorem lifecycle_guards_in_handlers evs :
  let st := store (fst (run evs init_sys)) in
  (forall now faults sends g,
     get_giveaway (id g) st = Some g -> ended g = 1 ->
     exists g',
       get_giveaway (id g) (fst (drawAndAnnounce_complete now faults sends st)) = Some g'
       /\ draw_kept g g'
       /\ winners_of (id g) (fst (drawAndAnnounce_complete now faults sends st))
          = winners_of (id g) st)
  /\ (forall now faults sends g,
        get_giveaway (id g) st = Some g -> announced g = 1 ->
        get_giveaway (id g) (fst (drawAndAnnounce_complete now faults sends st)) = Some g
        /\ winners_of (id g) (fst (drawAndAnnounce_complete now faults sends st))
           = winners_of (id g) st)
  /\ (forall c now gid reason g,
        get_giveaway gid st = Some g -> ended g = 1 \/ canceled g = 1 ->
        fst (cmd_cancel c now gid reason st) = st)
  /\ (forall c gid g now mid,
        isAdmin (from_id c) = true -> chat_private c = true -> gid <> 0 ->
        get_giveaway gid st = Some g ->
        canceled g = 0 -> ended g = 1 -> winners_of gid st <> [] ->
        cmd_announce c gid st
        = (Some (AnnounceSent c gid g),
           [SendMessage (chat_id g) (MsgWinners g (winners_of gid st))])
        /\ get_giveaway gid (fst (announce_finish c gid g now (Some mid) st))
           = Some (set_announced now g)).
Proof.
  intro st.
  assert (Hok : sys_ok (fst (run evs init_sys))) by (apply run_ok, init_ok).
  destruct Hok as [(_ & _ & N & _) _]. fold st in N.
  split; [| split; [| split]].
  - intros now faults sends g G He. unfold drawAndAnnounce_complete.
    apply (tick_complete_no_draw now faults sends g (due_query now st) st g).
    + intros r Hin E. destruct (due_query_row now st r g N G Hin E) as [-> _]. lia.
    + exact G.
    + repeat split.
  - intros now faults sends g G Ha. unfold drawAndAnnounce_complete.
    destruct (tick_complete_others now faults sends (id g) (due_query now st) st)
      as [A B]; [| split; congruence].
    intros r Hin E. destruct (due_query_row now st r g N G Hin E) as [_ H0]. lia.
  - intros c now gid reason g G H. eapply cmd_cancel_refused; eauto.
  - intros c gid g now mid Ha Hp Hg G Hc He Hw.
    split; [now apply cmd_announce_again |].
    simpl. rewrite get_after_update, G by reflexivity. simpl.
    destruct (get_giveaway_some _ _ _ G) as [_ ->]. now rewrite Z.eqb_refl.
Qed.

(** ** Publishing *)



Lemma announce_kept_refl st : announce_kept st st.
Proof. intros gid g G. eauto. Qed.

Lemma announce_kept_trans st1 st2 st3 :
  announce_kept st1 st2 -> announce_kept st2 st3 -> announce_kept st1 st3.
Proof.
  intros H1 H2 gid g G.
  destruct (H1 gid g G) as (g1 & G1 & A1 & B1).
  destruct (H2 gid g1 G1) as (g2 & G2 & A2 & B2).
  exists g2. repeat split; congruence.
Qed.

Lemma same_giveaways_announce_kept st st' :
  giveaways st' = giveaways st -> announce_kept st st'.
Proof. intros E gid g G. exists g. unfold get_giveaway in *. rewrite E. auto. Qed.

Lemma update_announce_kept gid' f st :
  (forall g, id (f g) = id g) ->
  (forall g, announced (f g) = announced g /\ announced_at (f g) = announced_at g) ->
  announce_kept st (update_giveaway gid' f st).
Proof.
  intros Hid Hf gid g G. rewrite get_after_update, G by exact Hid. simpl.
  eexists. split; [reflexivity |].
  destruct (id g =? gid'); [apply Hf | auto].
Qed.

Lemma draw_announce_kept now gid' picked st :
  announce_kept st (apply_all (draw_statements now gid' picked) st).
Proof.
  rewrite apply_draw_statements.
  eapply announce_kept_trans.
  - apply (update_announce_kept gid' (set_ended now) st); auto.
  - now apply same_giveaways_announce_kept.
Qed.

Lemma tick_body_announce_kept now faults g st :
  announce_kept st (fst (fst (tick_body now faults g st))).
Proof.
  unfold tick_body.
  destruct (ended g =? 0);
    [| rewrite announce_from_db_store; apply announce_kept_refl].
  destruct (participants_of (id g) st) as [| p ps];
    [apply update_announce_kept; auto |].
  destruct (seed g) as [sd |]; [| apply announce_kept_refl].
  destruct (db_transaction_all_or_nothing
              (draw_statements now (id g)
                 (pickWinnersDeterministic sd (id g) (p :: ps) (winners g)))
              (faults (id g)) st) as [E | E]; rewrite E;
    [| apply announce_kept_refl].
  rewrite announce_from_db_store. apply draw_announce_kept.
Qed.

Lemma tick_loop_announce_kept now faults rows : forall st,
  announce_kept st (fst (fst (tick_loop now faults rows st))).
Proof.
  induction rows as [| g rest IH]; intro st; simpl; [apply announce_kept_refl |].
  pose proof (tick_body_announce_kept now faults g st) as Hb.
  destruct (tick_body now faults g st) as [[st1 k] o1]. simpl in Hb.
  destruct k; [exact Hb |].
  specialize (IH st1). destruct (tick_loop now faults rest st1) as [[st2 t2] o2].
  simpl in *. eapply announce_kept_trans; eauto.
Qed.

Lemma insert_giveaway_announce_kept chat mid pr sp w endt created sd sh st :
  announce_kept st (fst (insert_giveaway chat mid pr sp w endt created sd sh st)).
Proof.
  intros gid g G. exists g. split; [| auto].
  unfold get_giveaway in *. simpl.
  induction (giveaways st) as [| a l IH]; simpl in *; [discriminate |].
  destruct (id a =? gid); [exact G | auto].
Qed.

Lemma cmd_cancel_announce_kept c now gid reason st :
  announce_kept st (fst (cmd_cancel c now gid reason st)).
Proof.
  unfold cmd_cancel.
  repeat match goal with
         | |- context [if ?b then _ else _] => destruct b
         | |- context [match get_giveaway ?a ?b with _ => _ end] =>
             destruct (get_giveaway a b)
         end; simpl; try apply announce_kept_refl.
  apply update_announce_kept; auto.
Qed.

Lemma join_finish_announce_kept c gid g now r st :
  announce_kept st (fst (join_finish c gid g now r st)).
Proof.
  unfold join_finish, insert_participant.
  destruct (negb (member_ok r)); [apply announce_kept_refl |].
  destruct (has_participant gid (from_id c) st); simpl;
    [apply announce_kept_refl | now apply same_giveaways_announce_kept].
Qed.

(** Whatever handlers interleave: a step changes [announced] or
    [announced_at] of a giveaway only when it is the resumption, with a
    fulfilled send, of a task that was waiting for the public send about
    that giveaway. *)
Theorem announced_only_after_success ev sys gid g g' :
  get_giveaway gid (store sys) = Some g ->
  get_giveaway gid (store (fst (step ev sys))) = Some g' ->
  announced g' <> announced g \/ announced_at g' <> announced_at g ->
  exists i now v faults t,
    ev = Resume i now (Some v) faults
    /\ nth_error (tasks sys) i = Some t
    /\ awaits_public_send gid t.
Proof.
  intros G G' Hne.
  assert (No : announce_kept (store sys) (store (fst (step ev sys))) -> False).
  { intro K. destruct (K gid g G) as (g1 & G1 & A & B).
    rewrite G' in G1. inversion G1; subst. destruct Hne; contradiction. }
  assert (Other : forall gid0 f st2,
             (forall x, id (f x) = id x) ->
             gid <> gid0 ->
             announce_kept (update_giveaway gid0 f (store sys)) st2 ->
             store (fst (step ev sys)) = st2 -> False).
  { intros gid0 f st2 Hid Hd K E.
    destruct (update_only_touches gid0 f (store sys) Hid gid Hd) as [T _].
    rewrite <- T in G. destruct (K gid g G) as (g1 & G1 & A & B).
    rewrite E, G1 in G'. inversion G'; subst. destruct Hne; contradiction. }
  destruct ev as [now faults | i now r faults | c now gid0 reason | c gid0 | c gid0 | c gid0
                 | c now gid0 | c tg w endUnix pr sp sd]; simpl in *.
  - exfalso. apply No. unfold drawAndAnnounce.
    pose proof (tick_loop_announce_kept now faults (due_query now (store sys)) (store sys)) as K.
    now destruct (tick_loop now faults (due_query now (store sys)) (store sys)) as [[st t] out].
  - destruct (nth_error (tasks sys) i) as [t |] eqn:En;
      [| exfalso; apply No; apply announce_kept_refl].
    destruct t as [tnow g0 rest | tnow g0 fresh rest | c gid0 g0 jnow | c gid0 g0
                  | c tg w endUnix pr sp sd sh | c gid0 endUnix]; simpl in *.
    + unfold tick_after_empty in *. destruct r as [v |].
      * destruct (Z.eq_dec (id g0) gid) as [E | E].
        { exists i, now, v, faults, (TickEmptySent tnow g0 rest). auto. }
        exfalso.
        pose proof (tick_loop_announce_kept tnow faults rest
                      (update_giveaway (id g0) (set_announced tnow) (store sys))) as K.
        destruct (tick_loop tnow faults rest _) as [[st2 t2] o2] eqn:E2.
        eapply (Other (id g0) (set_announced tnow) st2); eauto.
      * exfalso. apply No.
        pose proof (tick_loop_announce_kept tnow faults rest (store sys)) as K.
        now destruct (tick_loop tnow faults rest (store sys)) as [[st2 t2] o2].
    + unfold tick_after_winners in *. destruct r as [v |].
      * destruct (Z.eq_dec (id g0) gid) as [E | E].
        { exists i, now, v, faults, (TickWinnersSent tnow g0 fresh rest). auto. }
        exfalso.
        pose proof (tick_loop_announce_kept tnow faults rest
                      (update_giveaway (id g0) (set_announced tnow) (store sys))) as K.
        destruct (tick_loop tnow faults rest _) as [[st2 t2] o2] eqn:E2.
        eapply (Other (id g0) (set_announced tnow) st2); eauto.
      * exfalso. apply No.
        pose proof (tick_loop_announce_kept tnow faults rest (store sys)) as K.
        now destruct (tick_loop tnow faults rest (store sys)) as [[st2 t2] o2].
    + exfalso. apply No.
      pose proof (join_finish_announce_kept c gid0 g0 jnow r (store sys)) as K.
      now destruct (join_finish c gid0 g0 jnow r (store sys)).
    + unfold announce_finish in *. destruct r as [v |]; simpl in *.
      * destruct (Z.eq_dec gid0 gid) as [E | E].
        { exists i, now, v, faults, (AnnounceSent c gid0 g0). auto. }
        exfalso.
        eapply (Other gid0 (set_announced now)); eauto using announce_kept_refl.
      * exfalso. apply No. apply announce_kept_refl.
    + unfold create_after_post in *. destruct r as [mid |]; simpl in *.
      * exfalso. apply No.
        apply (insert_giveaway_announce_kept tg mid pr sp w endUnix now sd sh (store sys)).
      * exfalso. apply No. apply announce_kept_refl.
    + exfalso. apply No. apply announce_kept_refl.
  - exfalso. apply No.
    pose proof (cmd_cancel_announce_kept c now gid0 reason (store sys)) as K.
    now destruct (cmd_cancel c now gid0 reason (store sys)).
  - exfalso. apply No. destruct (cmd_announce c gid0 (store sys)). apply announce_kept_refl.
  - exfalso. apply No. apply announce_kept_refl.
  - exfalso. apply No. apply announce_kept_refl.
  - exfalso. apply No. destruct (join_action c now gid0 (store sys)). apply announce_kept_refl.
  - exfalso. apply No. apply announce_kept_refl.
Qed.

(** ** Cancellation when handlers are not interleaved *)

Lemma store_row_unique st g x :
  store_ok st -> In g (giveaways st) -> In x (giveaways st) -> id x = id g -> x = g.
Proof. intros (_ & _ & N & _) Hg Hx E. eapply NoDup_map_eq; eauto. Qed.

Lemma update_lifecycle gid f st :
  lifecycle_ok st ->
  (forall g, commitment (f g) = commitment g) ->
  (forall g, row_ok g -> row_ok (f g)) ->
  (forall g, In g (giveaways st) -> id g = gid ->
             row_lifecycle st g -> row_lifecycle st (f g)) ->
  lifecycle_ok (update_giveaway gid f st).
Proof.
  intros (S & L & W) Hc Hr Hf.
  split; [now apply (update_keeps_rows gid f st Hc Hr) |].
  split; [| exact W].
  simpl. apply Forall_map. apply Forall_forall. intros g Hin.
  rewrite Forall_forall in L. specialize (L g Hin).
  destruct (id g =? gid) eqn:E.
  - apply Z.eqb_eq in E. apply (Hf g Hin E L).
  - exact L.
Qed.

Lemma ended_lifecycle gid now st :
  lifecycle_ok st -> lifecycle_ok (update_giveaway gid (set_ended now) st).
Proof.
  intro H. apply update_lifecycle; auto using set_ended_ok.
  intros g _ _ (_ & L2). split; simpl.
  - discriminate.
  - intro Hc. destruct (L2 Hc) as (A & B & _). auto.
Qed.

Lemma announced_lifecycle gid now st :
  lifecycle_ok st ->
  (forall x, In x (giveaways st) -> id x = gid -> ended x = 1 /\ canceled x = 0) ->
  lifecycle_ok (update_giveaway gid (set_announced now) st).
Proof.
  intros H Hx. apply update_lifecycle; auto using set_announced_ok.
  intros g Hin Hid _. destruct (Hx g Hin Hid) as [He Hc].
  split; simpl; intro K; rewrite K in *; discriminate.
Qed.

Lemma canceled_lifecycle gid now reason st :
  lifecycle_ok st ->
  (forall x, In x (giveaways st) -> id x = gid ->
             announced x = 0 /\ winners_of (id x) st = []) ->
  lifecycle_ok (update_giveaway gid (set_canceled now reason) st).
Proof.
  intros H Hx. apply update_lifecycle; auto using set_canceled_ok.
  intros g Hin Hid _. destruct (Hx g Hin Hid) as [Ha Hw].
  split; simpl; [discriminate | auto].
Qed.

Lemma updated_rows gid f st x :
  (forall g, id (f g) = id g) ->
  In x (giveaways (update_giveaway gid f st)) -> id x = gid ->
  exists g, In g (giveaways st) /\ id g = gid /\ x = f g.
Proof.
  intros Hf Hin Hid. simpl in Hin. apply in_map_iff in Hin.
  destruct Hin as [g [E Hg]]. exists g.
  destruct (id g =? gid) eqn:Eg.
  - apply Z.eqb_eq in Eg. auto.
  - apply Z.eqb_neq in Eg. subst x. contradiction.
Qed.

Lemma draw_lifecycle now gid picked st :
  lifecycle_ok st ->
  gid < next_id st ->
  (forall x, In x (giveaways st) -> id x = gid -> canceled x = 0) ->
  lifecycle_ok (apply_all (draw_statements now gid picked) st).
Proof.
  intros (S & L & W) Hlt Hx.
  assert (K : keeps_rows st (apply_all (draw_statements now gid picked) st)).
  { apply (draw_keeps_rows now gid picked None st _ true).
    apply db_transaction_no_fault. }
  split; [now apply K |].
  pose proof (draw_only_touches now gid picked st) as T.
  rewrite apply_draw_statements in *. simpl.
  split.
  - apply Forall_map. apply Forall_forall. intros g Hin.
    rewrite Forall_forall in L. specialize (L g Hin).
    destruct (id g =? gid) eqn:E.
    + apply Z.eqb_eq in E. split; simpl; [discriminate |].
      intro Hc. rewrite (Hx g Hin E) in Hc. discriminate.
    + apply Z.eqb_neq in E. destruct (T (id g) E) as [_ Tw].
      unfold row_lifecycle. rewrite Tw. exact L.
  - apply Forall_app. split; [exact W |].
    apply Forall_map. apply Forall_forall. intros w _. exact Hlt.
Qed.

(** What one iteration does to the giveaway rows: only the rows with the
    key of the processed row change. *)
Lemma tick_iteration_shape now faults sends r rest st :
  exists F,
    (forall g, id (F g) = id g)
    /\ giveaways (fst (tick_iteration now faults sends r rest st))
       = map (fun g => if id g =? id r then F g else g) (giveaways st).
Proof.
  assert (Id : giveaways st = map (fun g => if id g =? id r then g else g) (giveaways st)).
  { rewrite <- (map_id (giveaways st)) at 1. apply map_ext.
    intro g. now destruct (id g =? id r). }
  assert (Two : forall f1 f2 (l : list Giveaway),
             (forall g, id (f1 g) = id g) ->
             map (fun g => if id g =? id r then f2 g else g)
               (map (fun g => if id g =? id r then f1 g else g) l)
             = map (fun g => if id g =? id r then f2 (f1 g) else g) l).
  { intros f1 f2 l H1. rewrite map_map. apply map_ext. intro g.
    destruct (id g =? id r) eqn:E; [| now rewrite E].
    now rewrite H1, E. }
  unfold tick_iteration, tick_body, announce_from_db.
  destruct (ended r =? 0).
  - destruct (participants_of (id r) st) as [| p ps].
    + simpl. unfold tick_after_empty. destruct (sends (id r)); simpl.
      * exists (fun g => set_announced now (set_ended now g)).
        split; [reflexivity | now apply Two].
      * exists (set_ended now). auto.
    + destruct (seed r) as [sd |]; [| exists (fun g => g); auto].
      destruct (db_transaction_all_or_nothing
                  (draw_statements now (id r)
                     (pickWinnersDeterministic sd (id r) (p :: ps) (winners r)))
                  (faults (id r)) st) as [E | E]; rewrite E;
        [| exists (fun g => g); auto].
      rewrite apply_draw_statements.
      match goal with
      | |- context [winners_of (id r) ?s] => destruct (winners_of (id r) s)
      end; [exists (set_ended now); auto |].
      match goal with
      | |- context [get_giveaway (id r) ?s] => destruct (get_giveaway (id r) s)
      end; [| exists (set_ended now); auto].
      simpl. unfold tick_after_winners. destruct (sends (id r)); simpl.
      * exists (fun g => set_announced now (set_ended now g)).
        split; [reflexivity | now apply Two].
      * exists (set_ended now). auto.
  - destruct (winners_of (id r) st); [exists (fun g => g); auto |].
    destruct (get_giveaway (id r) st); [| exists (fun g => g); auto].
    simpl. unfold tick_after_winners. destruct (sends (id r)); simpl.
    + exists (set_announced now). auto.
    + exists (fun g => g). auto.
Qed.

Lemma tick_iteration_keeps_others now faults sends r rest st x :
  In x (giveaways st) -> id x <> id r ->
  In x (giveaways (fst (tick_iteration now faults sends r rest st))).
Proof.
  intros Hin Hne.
  destruct (tick_iteration_shape now faults sends r rest st) as (F & _ & E).
  rewrite E. apply in_map_iff. exists x. split; [| exact Hin].
  apply Z.eqb_neq in Hne. now rewrite Hne.
Qed.

Lemma tick_iteration_lifecycle now faults sends r rest st :
  lifecycle_ok st -> In r (giveaways st) -> canceled r = 0 ->
  lifecycle_ok (fst (tick_iteration now faults sends r rest st)).
Proof.
  intros L Hr Hc.
  assert (S : store_ok st) by apply L.
  assert (One : forall x, In x (giveaways st) -> id x = id r -> x = r).
  { intros x Hx E. now apply (store_row_unique st r x). }
  assert (Lt : id r < next_id st).
  { destruct S as (_ & I & _). rewrite Forall_forall in I. now apply I. }
  assert (Fe : flag (ended r)).
  { destruct S as (R & _). rewrite Forall_forall in R. now apply (R r Hr). }
  assert (After : forall x,
             In x (giveaways (update_giveaway (id r) (set_ended now) st)) ->
             id x = id r -> ended x = 1 /\ canceled x = 0).
  { intros x Hx E.
    destruct (updated_rows (id r) (set_ended now) st x (fun _ => eq_refl) Hx E)
      as (g & Hg & Eg & ->).
    rewrite (One g Hg Eg). auto. }
  unfold tick_iteration, tick_body, announce_from_db.
  destruct (ended r =? 0) eqn:Ee.
  - destruct (participants_of (id r) st) as [| p ps].
    + simpl. unfold tick_after_empty. destruct (sends (id r)); simpl.
      * apply announced_lifecycle; [now apply ended_lifecycle | exact After].
      * now apply ended_lifecycle.
    + destruct (seed r) as [sd |]; [| exact L].
      destruct (db_transaction_all_or_nothing
                  (draw_statements now (id r)
                     (pickWinnersDeterministic sd (id r) (p :: ps) (winners r)))
                  (faults (id r)) st) as [E | E]; rewrite E; [| exact L].
      assert (L1 : lifecycle_ok
                     (apply_all (draw_statements now (id r)
                        (pickWinnersDeterministic sd (id r) (p :: ps) (winners r))) st)).
      { apply draw_lifecycle; auto. intros x Hx Ex. now rewrite (One x Hx Ex). }
      set (st1 := apply_all _ st) in *.
      destruct (winners_of (id r) st1); [exact L1 |].
      destruct (get_giveaway (id r) st1); [| exact L1].
      simpl. unfold tick_after_winners. destruct (sends (id r)); simpl; [| exact L1].
      apply announced_lifecycle; [exact L1 |].
      intros x Hx. apply After.
      subst st1. rewrite apply_draw_statements in Hx. exact Hx.
  - apply Z.eqb_neq in Ee.
    assert (He : ended r = 1) by (destruct Fe; [contradiction | assumption]).
    destruct (winners_of (id r) st); [exact L |].
    destruct (get_giveaway (id r) st); [| exact L].
    simpl. unfold tick_after_winners. destruct (sends (id r)); simpl; [| exact L].
    apply announced_lifecycle; [exact L |].
    intros x Hx Ex. now rewrite (One x Hx Ex).
Qed.

Lemma tick_complete_lifecycle now faults sends rows : forall st,
  lifecycle_ok st ->
  NoDup (map id rows) ->
  (forall r, In r rows -> In r (giveaways st) /\ canceled r = 0) ->
  lifecycle_ok (fst (tick_complete now faults sends rows st)).
Proof.
  induction rows as [| r rest IH]; intros st L N H; simpl; [exact L |].
  inversion N as [| ? ? Nr N']; subst.
  destruct (H r (or_introl eq_refl)) as [Hr Hc].
  pose proof (tick_iteration_lifecycle now faults sends r rest st L Hr Hc) as L1.
  assert (H1 : forall x, In x rest ->
                 In x (giveaways (fst (tick_iteration now faults sends r rest st)))
                 /\ canceled x = 0).
  { intros x Hx. destruct (H x (or_intror Hx)) as [Hin Hcx]. split; [| exact Hcx].
    apply tick_iteration_keeps_others; [exact Hin |].
    intro E. apply Nr. rewrite <- E. now apply in_map. }
  destruct (tick_iteration now faults sends r rest st) as [st1 o1]. simpl in *.
  specialize (IH st1 L1 N' H1).
  now destruct (tick_complete now faults sends rest st1) as [st2 o2].
Qed.

(** The pending rows have distinct keys when the table has. *)
Lemma due_query_distinct now st :
  NoDup (map id (giveaways st)) -> NoDup (map id (due_query now st)).
Proof.
  unfold due_query. generalize (giveaways st) as rows.
  intros rows N. induction rows as [| r rows IH]; simpl in *; [constructor |].
  assert (Nr : ~ In (id r) (map id rows)) by (inversion N; assumption).
  assert (N' : NoDup (map id rows)) by (inversion N; assumption).
  destruct ((canceled r =? 0) && (end_time r <=? now) && (announced r =? 0));
    simpl; [| auto].
  constructor; [| auto].
  intro Hin. apply Nr. apply in_map_iff in Hin. destruct Hin as [x [E Hx]].
  apply filter_In in Hx. rewrite <- E. apply in_map. apply Hx.
Qed.

Lemma same_rows_lifecycle st st' :
  lifecycle_ok st -> store_ok st' ->
  giveaways st' = giveaways st -> winners_tbl st' = winners_tbl st ->
  next_id st' = next_id st ->
  lifecycle_ok st'.
Proof.
  intros (_ & L & W) S' Eg Ew En. split; [exact S' |].
  unfold row_lifecycle, winners_of in *. rewrite Eg, Ew, En. auto.
Qed.

Lemma turn_lifecycle t st : lifecycle_ok st -> lifecycle_ok (turn t st).
Proof.
  intro L. assert (S : store_ok st) by apply L.
  destruct t as [now faults sends | c now gid reason | c gid now r | c now gid r
                | c tg w endUnix pr sp sd now r]; simpl.
  - unfold drawAndAnnounce_complete. apply tick_complete_lifecycle; [exact L | |].
    + apply due_query_distinct. apply S.
    + intros r Hin. unfold due_query in Hin. apply filter_In in Hin.
      destruct Hin as [Hin Hf]. split; [exact Hin |].
      apply andb_true_iff in Hf. destruct Hf as [Hf _].
      apply andb_true_iff in Hf. destruct Hf as [Hf _]. now apply Z.eqb_eq.
  - unfold cmd_cancel.
    destruct (negb (isAdmin (from_id c))); [exact L |].
    destruct (gid =? 0); [exact L |].
    destruct (get_giveaway gid st) as [g |] eqn:G; [| exact L].
    destruct (get_giveaway_some _ _ _ G) as [Gin Gid].
    destruct (canceled g =? 1) eqn:Ec; [exact L |].
    destruct (ended g =? 1) eqn:Ee; [exact L |].
    simpl. apply canceled_lifecycle; [exact L |].
    intros x Hx Ex. rewrite <- Gid in Ex.
    rewrite (store_row_unique st g x S Gin Hx Ex).
    destruct L as (_ & Lr & _). rewrite Forall_forall in Lr.
    destruct (Lr g Gin) as [L1 _]. apply L1.
    destruct S as (R & _). rewrite Forall_forall in R.
    destruct (R g Gin) as (Fe & _). now apply flag_not_one.
  - unfold cmd_announce.
    destruct (negb (isAdmin (from_id c))); [exact L |].
    destruct (negb (chat_private c)); [exact L |].
    destruct (gid =? 0); [exact L |].
    destruct (get_giveaway gid st) as [g |] eqn:G; [| exact L].
    destruct (get_giveaway_some _ _ _ G) as [Gin Gid].
    destruct (truthy (canceled g)) eqn:Ec; [exact L |].
    destruct (negb (truthy (ended g))) eqn:Ee; [exact L |].
    destruct (winners_of gid st); [exact L |].
    simpl. unfold announce_finish. destruct r; simpl; [| exact L].
    apply announced_lifecycle; [exact L |].
    intros x Hx Ex. rewrite <- Gid in Ex.
    rewrite (store_row_unique st g x S Gin Hx Ex).
    unfold truthy in *. apply negb_false_iff in Ec, Ee.
    apply Z.eqb_eq in Ec. apply negb_true_iff in Ee. apply Z.eqb_neq in Ee.
    destruct S as (R & _). rewrite Forall_forall in R.
    destruct (R g Gin) as (Fe & _).
    split; [destruct Fe; [contradiction | assumption] | exact Ec].
  - destruct (join_action c now gid st) as [t out] eqn:E. simpl.
    destruct t as [t |]; [| exact L].
    destruct (get_giveaway gid st) as [g |] eqn:G;
      [| unfold join_action in E; rewrite G in E; discriminate].
    destruct (join_action_guard c now gid st g t out S G E) as (-> & Hlt & _).
    pose proof (join_finish_keeps_rows c gid g now r st Hlt) as (_ & _ & K).
    unfold join_finish, insert_participant in *.
    destruct (negb (member_ok r)); [exact L |].
    destruct (has_participant gid (from_id c) st); [exact L |].
    simpl in *. apply (same_rows_lifecycle st); auto.
  - unfold create_after_post. destruct r as [mid |]; simpl; [| exact L].
    split; [apply (insert_giveaway_ok tg mid pr sp w endUnix now sd st S) |].
    destruct L as (_ & Lr & W). simpl.
    assert (Wn : winners_of (next_id st) st = []).
    { unfold winners_of. rewrite filter_none; [reflexivity |].
      intros x Hx. rewrite Forall_forall in W. specialize (W x Hx).
      apply Z.eqb_neq. lia. }
    split.
    + apply Forall_app. split.
      * eapply Forall_impl; [| exact Lr]. intros g Hg. exact Hg.
      * constructor; [| constructor].
        split; simpl; [intros _; split; [reflexivity | exact Wn] | discriminate].
    + eapply Forall_impl; [| exact W]. simpl. intros; lia.
Qed.

Lemma empty_lifecycle : lifecycle_ok empty_store.
Proof.
  split; [apply init_ok |]. split; constructor.
Qed.

Lemma turns_lifecycle l : forall st, lifecycle_ok st -> lifecycle_ok (turns l st).
Proof.
  unfold turns. induction l as [| t l IH]; intros st L; simpl; [exact L |].
  apply IH. now apply turn_lifecycle.
Qed.

(** When every handler runs from its start to its end before the next
    one is served, starting from the empty database: a canceled giveaway
    is ended, is never announced and has no winners row, after any
    number of ticks, commands, joins and creations; and an announced
    giveaway is ended. *)
Theorem cancellation_final_without_interleaving l g :
  let st := turns l empty_store in
  In g (giveaways st) ->
  (canceled g = 1 -> announced g = 0 /\ winners_of (id g) st = [] /\ ended g = 1)
  /\ (announced g = 1 -> ended g = 1).
Proof.
  intros st Hin.
  destruct (turns_lifecycle l empty_store empty_lifecycle) as ((R & _) & L & _).
  fold st in R, L. rewrite Forall_forall in R, L.
  destruct (L g Hin) as [L1 L2]. destruct (R g Hin) as (Fe & _).
  split; [exact L2 |].
  intro Ha. destruct Fe as [He | He]; [| exact He].
  destruct (L1 He) as [A _]. congruence.
Qed.

(** ** What no handler undoes *)

Lemma row_step_refl g : row_step g g.
Proof. unfold row_step. auto. Qed.

Lemma row_step_trans a b c : row_step a b -> row_step b c -> row_step a c.
Proof.
  intros (A1 & B1 & C1 & D1) (A2 & B2 & C2 & D2).
  unfold row_step. repeat split; [congruence | auto ..].
Qed.

Lemma rows_kept_refl l : Forall2 row_step l l.
Proof. induction l; constructor; auto using row_step_refl. Qed.

Lemma rows_kept_trans l1 l2 : Forall2 row_step l1 l2 ->
  forall l3, Forall2 row_step l2 l3 -> Forall2 row_step l1 l3.
Proof.
  induction 1 as [| a b l1 l2 Hab H IH]; intros l3 H3; inversion H3; subst.
  - constructor.
  - constructor; [eapply row_step_trans; eauto | auto].
Qed.

Lemma rows_kept_row l l' g :
  Forall2 row_step l l' -> In g l -> exists g', In g' l' /\ row_step g g'.
Proof.
  induction 1 as [| a b l1 l2 Hab H IH]; intro Hin; [contradiction |].
  destruct Hin as [<- | Hin].
  - exists b. split; [now left | exact Hab].
  - destruct (IH Hin) as (g' & Hg' & R). exists g'. split; [now right | exact R].
Qed.

Lemma grows_refl st : grows st st.
Proof.
  split; [| split; [apply incl_refl | exists []; now rewrite app_nil_r]].
  exists (giveaways st), []. rewrite app_nil_r. split; [reflexivity | apply rows_kept_refl].
Qed.

Lemma grows_trans st1 st2 st3 : grows st1 st2 -> grows st2 st3 -> grows st1 st3.
Proof.
  intros ((k1 & n1 & E1 & F1) & P1 & (m1 & W1)) ((k2 & n2 & E2 & F2) & P2 & (m2 & W2)).
  rewrite E1 in F2. apply Forall2_app_inv_l in F2.
  destruct F2 as (k2a & k2b & Fa & Fb & ->).
  split; [| split].
  - exists k2a, (k2b ++ n2). rewrite E2, app_assoc. split; [reflexivity |].
    eapply rows_kept_trans; eauto.
  - eapply incl_tran; eauto.
  - exists (m1 ++ m2). now rewrite W2, W1, app_assoc.
Qed.

Lemma grows_row st st' g :
  grows st st' -> In g (giveaways st) ->
  exists g', In g' (giveaways st') /\ row_step g g'.
Proof.
  intros ((kept & new & E & F) & _) Hin.
  destruct (rows_kept_row _ _ g F Hin) as (g' & Hg' & R).
  exists g'. split; [rewrite E; apply in_or_app; now left | exact R].
Qed.

Lemma update_grows gid f st :
  (forall g, row_step g (f g)) -> grows st (update_giveaway gid f st).
Proof.
  intro Hf.
  split; [| split; [apply incl_refl | exists []; simpl; now rewrite app_nil_r]].
  exists (giveaways (update_giveaway gid f st)), []. rewrite app_nil_r.
  split; [reflexivity |]. simpl.
  induction (giveaways st) as [| g l IH]; simpl; constructor; auto.
  destruct (id g =? gid); [apply Hf | apply row_step_refl].
Qed.

Lemma set_ended_step now g : row_step g (set_ended now g).
Proof. unfold row_step. simpl. auto. Qed.

Lemma set_announced_step now g : row_step g (set_announced now g).
Proof. unfold row_step. simpl. auto. Qed.

Lemma set_canceled_step now reason g : row_step g (set_canceled now reason g).
Proof. unfold row_step. simpl. auto. Qed.

Lemma draw_grows now gid picked st :
  grows st (apply_all (draw_statements now gid picked) st).
Proof.
  rewrite apply_draw_statements.
  destruct (update_grows gid (set_ended now) st (set_ended_step now)) as (G & _).
  split; [exact G |]. split; [apply incl_refl |]. simpl. eauto.
Qed.

(** What an iteration of the scheduler loop writes before its [await]:
    nothing, or [ended] for a giveaway without entries, or the draw. *)
Lemma tick_body_cases now faults g st :
  fst (fst (tick_body now faults g st)) = st
  \/ (ended g = 0 /\ participants_of (id g) st = []
      /\ fst (fst (tick_body now faults g st))
         = update_giveaway (id g) (set_ended now) st)
  \/ (ended g = 0
      /\ exists sd p ps,
           seed g = Some sd /\ participants_of (id g) st = p :: ps
           /\ fst (fst (tick_body now faults g st))
              = apply_all (draw_statements now (id g)
                  (pickWinnersDeterministic sd (id g) (p :: ps) (winners g))) st).
Proof.
  unfold tick_body.
  destruct (ended g =? 0) eqn:Ee; [| left; apply announce_from_db_store].
  apply Z.eqb_eq in Ee.
  destruct (participants_of (id g) st) as [| p ps] eqn:Ep; [right; left; auto |].
  destruct (seed g) as [sd |] eqn:Es; [| now left].
  destruct (db_transaction_all_or_nothing
              (draw_statements now (id g)
                 (pickWinnersDeterministic sd (id g) (p :: ps) (winners g)))
              (faults (id g)) st) as [E | E]; rewrite E; [| now left].
  right; right. split; [exact Ee |]. exists sd, p, ps.
  rewrite announce_from_db_store. auto.
Qed.

(** The handler an iteration leaves suspended: at the notice, right after
    [ended] was written; or at the winners text, with winners rows in the
    table. *)
Lemma tick_body_awaits now faults g st st' k out rest :
  tick_body now faults g st = (st', Some k, out) ->
  (k rest = TickEmptySent now g rest
   /\ st' = update_giveaway (id g) (set_ended now) st)
  \/ (exists fresh, k rest = TickWinnersSent now g fresh rest
      /\ winners_of (id g) st' <> []).
Proof.
  assert (A : forall s, announce_from_db now g s = (st', Some k, out) ->
            exists fresh, k rest = TickWinnersSent now g fresh rest
              /\ winners_of (id g) st' <> []).
  { unfold announce_from_db. intros s H.
    destruct (winners_of (id g) s) as [| w ws] eqn:W; [discriminate |].
    destruct (get_giveaway (id g) s) as [fresh |]; [| discriminate].
    inversion H; subst. exists fresh. rewrite W. split; [reflexivity | discriminate]. }
  unfold tick_body. intro H.
  destruct (ended g =? 0); [| right; eapply A; eauto].
  destruct (participants_of (id g) st) as [| p ps].
  - inversion H; subst. now left.
  - destruct (seed g) as [sd |]; [| discriminate].
    destruct (db_transaction _ _ st) as [st1 done].
    destruct done; [right; eapply A; eauto | discriminate].
Qed.

Lemma tick_body_grows now faults g st :
  grows st (fst (fst (tick_body now faults g st))).
Proof.
  destruct (tick_body_cases now faults g st)
    as [-> | [(_ & _ & ->) | (_ & sd & p & ps & _ & _ & ->)]].
  - apply grows_refl.
  - apply update_grows, set_ended_step.
  - apply draw_grows.
Qed.

Lemma tick_loop_grows now faults rows : forall st,
  grows st (fst (fst (tick_loop now faults rows st))).
Proof.
  induction rows as [| g rest IH]; intro st; simpl; [apply grows_refl |].
  pose proof (tick_body_grows now faults g st) as Hb.
  destruct (tick_body now faults g st) as [[st1 k] o1]. simpl in Hb.
  destruct k; [exact Hb |].
  specialize (IH st1). destruct (tick_loop now faults rest st1) as [[st2 t2] o2].
  simpl in *. eapply grows_trans; eauto.
Qed.

Lemma tick_after_empty_grows now g r st :
  grows st (fst (tick_after_empty now g r st)).
Proof.
  unfold tick_after_empty. destruct r; simpl;
    [apply update_grows, set_announced_step | apply grows_refl].
Qed.

Lemma tick_after_winners_grows now g fresh r st :
  grows st (fst (tick_after_winners now g fresh r st)).
Proof.
  unfold tick_after_winners. destruct r; simpl;
    [apply update_grows, set_announced_step | apply grows_refl].
Qed.

Lemma announce_finish_grows c gid g now r st :
  grows st (fst (announce_finish c gid g now r st)).
Proof.
  unfold announce_finish. destruct r; simpl;
    [apply update_grows, set_announced_step | apply grows_refl].
Qed.

Lemma cmd_cancel_grows c now gid reason st :
  grows st (fst (cmd_cancel c now gid reason st)).
Proof.
  unfold cmd_cancel.
  repeat match goal with
         | |- context [if ?b then _ else _] => destruct b
         | |- context [match get_giveaway ?a ?b with _ => _ end] =>
             destruct (get_giveaway a b)
         end; simpl; try apply grows_refl.
  apply update_grows, set_canceled_step.
Qed.

Lemma join_finish_grows c gid g now r st :
  grows st (fst (join_finish c gid g now r st)).
Proof.
  unfold join_finish, insert_participant.
  destruct (negb (member_ok r)); [apply grows_refl |].
  destruct (has_participant gid (from_id c) st); simpl; [apply grows_refl |].
  split; [| split].
  - exists (giveaways st), []. rewrite app_nil_r. split; [reflexivity | apply rows_kept_refl].
  - simpl. apply incl_appl, incl_refl.
  - exists []. simpl. now rewrite app_nil_r.
Qed.

Lemma create_after_post_grows c tg w endUnix pr sp sd sh now r st :
  grows st (fst (fst (create_after_post c tg w endUnix pr sp sd sh now r st))).
Proof.
  unfold create_after_post. destruct r as [mid |]; simpl; [| apply grows_refl].
  split; [| split; [apply incl_refl | exists []; simpl; now rewrite app_nil_r]].
  simpl. eexists (giveaways st), _. split; [reflexivity | apply rows_kept_refl].
Qed.

(** Every step of the process, whatever the state it starts from, keeps
    the rows that are there. *)
Lemma step_grows ev sys : grows (store sys) (store (fst (step ev sys))).
Proof.
  destruct ev as [now faults | i now r faults | c now gid reason | c gid | c gid | c gid
                 | c now gid | c tg w endUnix pr sp sd]; simpl.
  - unfold drawAndAnnounce.
    pose proof (tick_loop_grows now faults (due_query now (store sys)) (store sys)) as G.
    now destruct (tick_loop now faults (due_query now (store sys)) (store sys))
      as [[st t] out].
  - destruct (nth_error (tasks sys) i) as [t |]; [| apply grows_refl].
    destruct t as [tnow g rest | tnow g fresh rest | c gid g jnow | c gid g
                  | c tg w endUnix pr sp sd sh | c gid endUnix]; simpl.
    + pose proof (tick_after_empty_grows tnow g r (store sys)) as G1.
      destruct (tick_after_empty tnow g r (store sys)) as [st1 o1].
      pose proof (tick_loop_grows tnow faults rest st1) as G2.
      destruct (tick_loop tnow faults rest st1) as [[st2 t2] o2]. simpl in *.
      eapply grows_trans; eauto.
    + pose proof (tick_after_winners_grows tnow g fresh r (store sys)) as G1.
      destruct (tick_after_winners tnow g fresh r (store sys)) as [st1 o1].
      pose proof (tick_loop_grows tnow faults rest st1) as G2.
      destruct (tick_loop tnow faults rest st1) as [[st2 t2] o2]. simpl in *.
      eapply grows_trans; eauto.
    + pose proof (join_finish_grows c gid g jnow r (store sys)) as G.
      now destruct (join_finish c gid g jnow r (store sys)).
    + pose proof (announce_finish_grows c gid g now r (store sys)) as G.
      now destruct (announce_finish c gid g now r (store sys)).
    + pose proof (create_after_post_grows c tg w endUnix pr sp sd sh now r (store sys)) as G.
      now destruct (create_after_post c tg w endUnix pr sp sd sh now r (store sys))
        as [[st1 t1] o1].
    + apply grows_refl.
  - pose proof (cmd_cancel_grows c now gid reason (store sys)) as G.
    now destruct (cmd_cancel c now gid reason (store sys)).
  - destruct (cmd_announce c gid (store sys)). apply grows_refl.
  - apply grows_refl.
  - apply grows_refl.
  - destruct (join_action c now gid (store sys)). apply grows_refl.
  - apply grows_refl.
Qed.

Lemma run_grows evs : forall sys, grows (store sys) (store (fst (run evs sys))).
Proof.
  induction evs as [| ev evs IH]; intro sys; simpl; [apply grows_refl |].
  pose proof (step_grows ev sys) as G1.
  destruct (step ev sys) as [sys1 o1]. simpl in G1.
  specialize (IH sys1). destruct (run evs sys1) as [sys2 o2]. simpl in *.
  eapply grows_trans; eauto.
Qed.

(** ** Draws happen after the close time, among the entries *)

Lemma terms_key g g' :
  terms g' = terms g -> id g' = id g /\ end_time g' = end_time g.
Proof. unfold terms. intro H. inversion H. auto. Qed.

Lemma held_row_grows st st' tnow r :
  grows st st' -> held_row st tnow r -> held_row st' tnow r.
Proof.
  intros G (Hle & g & Hin & Ht). split; [exact Hle |].
  destruct (grows_row st st' g G Hin) as (g' & Hg' & (T & _)).
  exists g'. split; [exact Hg' | congruence].
Qed.

Lemma ended_in_grows st st' gid :
  grows st st' -> ended_in st gid -> ended_in st' gid.
Proof.
  intros G (g & Hin & Hid & He).
  destruct (grows_row st st' g G Hin) as (g' & Hg' & (T & E & _)).
  exists g'. destruct (terms_key _ _ T) as [I _].
  repeat split; [exact Hg' | congruence | auto].
Qed.

Lemma task_due_grows st st' t :
  grows st st' -> task_due st t -> task_due st' t.
Proof.
  intros G. destruct t; simpl; auto.
  - intros [F E]. split; [| eapply ended_in_grows; eauto].
    eapply Forall_impl; [| exact F]. intros r. now apply held_row_grows.
  - intros [F E]. split; [| eapply ended_in_grows; eauto].
    eapply Forall_impl; [| exact F]. intros r. now apply held_row_grows.
  - now apply ended_in_grows.
Qed.

Lemma held_row_time st tnow r x :
  store_ok st -> held_row st tnow r ->
  In x (giveaways st) -> id x = id r -> end_time x <= tnow.
Proof.
  intros S (Hle & g & Hin & Ht) Hx E.
  destruct (terms_key _ _ Ht) as [I T].
  assert (x = g) by (apply (store_row_unique st g x S Hin Hx); congruence).
  subst x. lia.
Qed.

Lemma ended_in_row st gid x :
  store_ok st -> ended_in st gid -> In x (giveaways st) -> id x = gid -> ended x = 1.
Proof.
  intros S (g & Hin & Hid & He) Hx E.
  assert (x = g) by (apply (store_row_unique st g x S Hin Hx); congruence).
  now subst x.
Qed.

Lemma entrant_rows st w :
  entrant st w <->
  exists p, In p (participants st)
    /\ p_giveaway_id p = w_giveaway_id w
    /\ p_user_id p = w_user_id w /\ p_name p = w_name w.
Proof.
  unfold entrant, participants_of. rewrite in_map_iff. split.
  - intros (p & E & Hp). apply filter_In in Hp. destruct Hp as [Hp Hg].
    apply Z.eqb_eq in Hg. inversion E. exists p. auto.
  - intros (p & Hp & Hg & Hu & Hn). exists p. split; [congruence |].
    apply filter_In. split; [exact Hp | now apply Z.eqb_eq].
Qed.

Lemma entrant_grows st st' w :
  incl (participants st) (participants st') -> entrant st w -> entrant st' w.
Proof.
  rewrite !entrant_rows. intros I (p & Hp & H). exists p. split; [now apply I | exact H].
Qed.

Lemma slice0_incl {A : Type} (l : list A) e x : In x (slice0 l e) -> In x l.
Proof.
  unfold slice0. intro H.
  rewrite <- (firstn_skipn
    (Z.to_nat (if e <? 0 then Z.max (Z.of_nat (List.length l) + e) 0
               else Z.min e (Z.of_nat (List.length l)))) l).
  apply in_or_app. now left.
Qed.

(** The selector returns participants it was given. *)
Lemma picked_entrants sd gid ps k w :
  In w (pickWinnersDeterministic sd gid ps k) ->
  In (mkUser (r_user_id w) (r_name w)) ps.
Proof.
  unfold pickWinnersDeterministic. cbv zeta. intro H.
  apply slice0_incl in H.
  apply (Permutation_in _ (array_sort_perm cmpRanked _)) in H.
  apply in_map_iff in H. destruct H as [p [<- Hp]]. simpl. now destruct p.
Qed.

Lemma closed_same_winners st st' g :
  winners_tbl st' = winners_tbl st -> closed_on_time st g -> closed_on_time st' g.
Proof. unfold closed_on_time, winners_of. now intros ->. Qed.

Lemma draws_ok_update gid f st :
  draws_ok st ->
  (forall x, In x (giveaways st) -> id x = gid ->
             closed_on_time st x -> closed_on_time st (f x)) ->
  draws_ok (update_giveaway gid f st).
Proof.
  intros [C E] Hf. split.
  - simpl. apply Forall_map. apply Forall_forall. intros x Hx.
    rewrite Forall_forall in C. specialize (C x Hx).
    apply (closed_same_winners st); [reflexivity |].
    destruct (id x =? gid) eqn:Ex; [| exact C].
    apply Z.eqb_eq in Ex. now apply Hf.
  - exact E.
Qed.

Lemma ended_draws_ok now r st :
  store_ok st -> draws_ok st -> held_row st now r ->
  draws_ok (update_giveaway (id r) (set_ended now) st).
Proof.
  intros S D H. apply draws_ok_update; [exact D |].
  intros x Hx Ex _.
  assert (L : late (set_ended now x)).
  { exists now. split; [reflexivity |]. simpl. eapply held_row_time; eauto. }
  unfold closed_on_time. simpl. auto.
Qed.

Lemma announced_draws_ok now gid st :
  store_ok st -> draws_ok st -> ended_in st gid ->
  draws_ok (update_giveaway gid (set_announced now) st).
Proof.
  intros S D H. apply draws_ok_update; [exact D |].
  intros x Hx Ex (A & B & _).
  unfold closed_on_time. simpl. repeat split; auto.
  - intros; now apply B.
  - intros; now apply B.
  - intros _. eapply ended_in_row; eauto.
Qed.

Lemma draw_draws_ok now r sd p ps st :
  store_ok st -> draws_ok st -> held_row st now r ->
  participants_of (id r) st = p :: ps ->
  draws_ok (apply_all (draw_statements now (id r)
              (pickWinnersDeterministic sd (id r) (p :: ps) (winners r))) st).
Proof.
  intros S [C E] H Hp.
  pose proof (draw_only_touches now (id r)
                (pickWinnersDeterministic sd (id r) (p :: ps) (winners r)) st) as T.
  rewrite apply_draw_statements in *.
  split; simpl.
  - apply Forall_map. apply Forall_forall. intros x Hx.
    rewrite Forall_forall in C. specialize (C x Hx).
    destruct (id x =? id r) eqn:Ex.
    + apply Z.eqb_eq in Ex.
      assert (L : late (set_ended now x)).
      { exists now. split; [reflexivity |]. simpl. eapply held_row_time; eauto. }
      unfold closed_on_time. simpl. auto.
    + apply Z.eqb_neq in Ex. destruct (T (id x) Ex) as [_ Tw].
      unfold closed_on_time in *. rewrite Tw. exact C.
  - apply Forall_app. split.
    + eapply Forall_impl; [| exact E]. intros w Hw. exact Hw.
    + apply Forall_map. apply Forall_forall. intros w Hw.
      unfold entrant, participants_of. simpl.
      fold (participants_of (id r) st). rewrite Hp.
      apply (picked_entrants sd (id r) (p :: ps) (winners r) w Hw).
Qed.

Lemma tick_body_draws_ok now faults g st :
  store_ok st -> draws_ok st -> held_row st now g ->
  draws_ok (fst (fst (tick_body now faults g st))).
Proof.
  intros S D H.
  destruct (tick_body_cases now faults g st)
    as [-> | [(_ & _ & ->) | (_ & sd & p & ps & _ & Hp & ->)]].
  - exact D.
  - now apply ended_draws_ok.
  - now apply draw_draws_ok.
Qed.

Lemma tick_loop_draws_ok now faults rows : forall st st' t out,
  store_ok st -> draws_ok st -> Forall (held_row st now) rows ->
  tick_loop now faults rows st = (st', t, out) ->
  draws_ok st' /\ (forall t0, t = Some t0 -> task_due st' t0).
Proof.
  induction rows as [| g rest IH]; intros st st' t out S D H E; simpl in E.
  - inversion E; subst. split; [exact D | discriminate].
  - inversion H as [| ? ? Hg Hrest]; subst.
    pose proof (tick_body_draws_ok now faults g st S D Hg) as D1.
    pose proof (tick_body_grows now faults g st) as G1.
    destruct (tick_body now faults g st) as [[st1 k] o1] eqn:Eb. simpl in D1, G1.
    assert (S1 : store_ok st1) by (apply (tick_body_keeps_rows _ _ _ _ _ _ _ Eb), S).
    assert (H1 : Forall (held_row st1 now) (g :: rest)).
    { eapply Forall_impl; [| exact H]. intros r. now apply held_row_grows. }
    destruct k as [k |].
    + inversion E; subst. split; [exact D1 |].
      intros t0 Ht. inversion Ht; subst. clear Ht.
      destruct (tick_body_awaits _ _ _ _ _ _ _ rest Eb) as [[-> Est] | (fresh & -> & W)];
        simpl; (split; [exact H1 |]).
      * destruct Hg as (_ & g0 & Hin & Ht). destruct (terms_key _ _ Ht) as [I _].
        exists (set_ended now g0). repeat split; [| exact I].
        rewrite Est. simpl. apply in_map_iff. exists g0.
        rewrite I, Z.eqb_refl. auto.
      * inversion H1 as [| ? ? (_ & g1 & Hin & Ht) _]; subst.
        destruct (terms_key _ _ Ht) as [I _].
        destruct D1 as [C _]. rewrite Forall_forall in C.
        destruct (C g1 Hin) as (_ & B & _). rewrite I in B.
        exists g1. repeat split; [exact Hin | exact I | now apply B].
    + destruct (tick_loop now faults rest st1) as [[st2 t2] o2] eqn:E2.
      inversion E; subst. inversion H1; subst. eapply IH; eauto.
Qed.

Lemma due_query_held now st : Forall (held_row st now) (due_query now st).
Proof.
  apply Forall_forall. intros r Hr. unfold due_query in Hr.
  apply filter_In in Hr. destruct Hr as [Hin Hf].
  apply andb_true_iff in Hf. destruct Hf as [Hf _].
  apply andb_true_iff in Hf. destruct Hf as [_ Hf]. apply Z.leb_le in Hf.
  split; [exact Hf | eauto].
Qed.

Lemma cmd_cancel_draws_ok c now gid reason st :
  store_ok st -> draws_ok st -> draws_ok (fst (cmd_cancel c now gid reason st)).
Proof.
  intros S D. unfold cmd_cancel.
  destruct (negb (isAdmin (from_id c))); [exact D |].
  destruct (gid =? 0); [exact D |].
  destruct (get_giveaway gid st) as [g |] eqn:G; [| exact D].
  destruct (get_giveaway_some _ _ _ G) as [Gin Gid].
  destruct (canceled g =? 1) eqn:Ec; [exact D |].
  destruct (ended g =? 1) eqn:Ee; [exact D |].
  simpl. apply draws_ok_update; [exact D |].
  intros x Hx Ex (_ & B & _).
  assert (x = g) by (apply (store_row_unique st g x S Gin Hx); congruence).
  subst x. unfold closed_on_time. simpl.
  split; [intros _ K; discriminate K |].
  split; [| reflexivity].
  intro W. destruct (B W) as [He _]. rewrite He in Ee. discriminate.
Qed.

Lemma join_finish_draws_ok c gid g now r st :
  draws_ok st -> draws_ok (fst (join_finish c gid g now r st)).
Proof.
  intros [C E]. unfold join_finish, insert_participant.
  destruct (negb (member_ok r)); [now split |].
  destruct (has_participant gid (from_id c) st); simpl; [now split |].
  split; simpl.
  - eapply Forall_impl; [| exact C]. intros x. now apply closed_same_winners.
  - eapply Forall_impl; [| exact E]. intros w. apply entrant_grows.
    simpl. apply incl_appl, incl_refl.
Qed.

Lemma no_winners_ahead st gid :
  store_ok st -> draws_ok st -> next_id st <= gid -> winners_of gid st = [].
Proof.
  intros (_ & _ & _ & P & _) [_ E] Hle. unfold winners_of.
  rewrite filter_none; [reflexivity |].
  intros w Hw. rewrite Forall_forall in E, P.
  apply E in Hw. apply entrant_rows in Hw. destruct Hw as (p & Hp & Hg & _).
  specialize (P p Hp). apply Z.eqb_neq. simpl in P. lia.
Qed.

Lemma insert_giveaway_draws_ok chat mid pr sp w endt created sd sh st :
  store_ok st -> draws_ok st ->
  draws_ok (fst (insert_giveaway chat mid pr sp w endt created sd sh st)).
Proof.
  intros S D. pose proof (no_winners_ahead st (next_id st) S D (Z.le_refl _)) as W.
  destruct D as [C E]. split; simpl.
  - apply Forall_app. split.
    + eapply Forall_impl; [| exact C]. intros x. now apply closed_same_winners.
    + constructor; [| constructor].
      unfold closed_on_time. simpl.
      change (winners_of (next_id st) _) with (winners_of (next_id st) st).
      rewrite W.
      split; [intro K; discriminate K |].
      split; [intro K; now contradiction K | intro K; exact K].
  - eapply Forall_impl; [| exact E]. intros x Hx. exact Hx.
Qed.

Lemma settle_draws_ok tnow g rest faults st st1 st2 t2 o2 :
  store_ok st -> draws_ok st ->
  Forall (held_row st tnow) (g :: rest) -> ended_in st (id g) ->
  st1 = st \/ st1 = update_giveaway (id g) (set_announced tnow) st ->
  tick_loop tnow faults rest st1 = (st2, t2, o2) ->
  draws_ok st2 /\ (forall t0, t2 = Some t0 -> task_due st2 t0).
Proof.
  intros S D H E Hst E2.
  assert (K : store_ok st1 /\ draws_ok st1 /\ grows st st1).
  { destruct Hst as [-> | ->].
    - auto using grows_refl.
    - split; [apply (announced_keeps_rows tnow (id g) st), S |].
      split; [now apply announced_draws_ok | apply update_grows, set_announced_step]. }
  destruct K as (S1 & D1 & G1).
  apply (tick_loop_draws_ok tnow faults rest st1 st2 t2 o2 S1 D1); [| exact E2].
  inversion H as [| ? ? _ Hrest]; subst.
  eapply Forall_impl; [| exact Hrest]. intros x. now apply held_row_grows.
Qed.

(** Every step of the process keeps these facts. *)
Lemma step_draw_ok ev sys : draw_ok sys -> draw_ok (fst (step ev sys)).
Proof.
  intros (Hs & D & T).
  pose proof (step_ok ev sys Hs) as Hs'.
  pose proof (step_grows ev sys) as G.
  split; [exact Hs' |].
  assert (Old : forall x, In x (tasks sys) -> task_due (store (fst (step ev sys))) x).
  { intros x Hx. rewrite Forall_forall in T. eapply task_due_grows; eauto. }
  clear Hs' G. destruct Hs as [S Ht].
  assert (Tasks : forall st' ts' t',
             (forall x, In x (tasks sys) -> task_due st' x) ->
             incl ts' (tasks sys) ->
             (forall t0, t' = Some t0 -> task_due st' t0) ->
             Forall (task_due st') (ts' ++ opt_to_list t')).
  { intros st' ts' t' Ho Hi Hn. apply Forall_app. split.
    - apply Forall_forall. intros x Hx. apply Ho. now apply Hi.
    - destruct t' as [t0 |]; simpl; [| constructor].
      constructor; [now apply Hn | constructor]. }
  destruct ev as [now faults | i now r faults | c now gid reason | c gid | c gid | c gid
                 | c now gid | c tg w endUnix pr sp sd]; simpl in *.
  - unfold drawAndAnnounce in *.
    destruct (tick_loop now faults (due_query now (store sys)) (store sys))
      as [[st t] out] eqn:E. simpl in *.
    destruct (tick_loop_draws_ok now faults _ _ _ _ _ S D (due_query_held now (store sys)) E)
      as [D' N].
    split; [exact D' |]. apply Tasks; auto using incl_refl.
  - destruct (nth_error (tasks sys) i) as [t |] eqn:En; [| now split].
    assert (Td : task_due (store sys) t).
    { rewrite Forall_forall in T. apply T. eapply nth_error_In; eauto. }
    assert (Ri : incl (remove_nth i (tasks sys)) (tasks sys)).
    { intros x Hx. eapply remove_nth_incl; eauto. }
    destruct t as [tnow g rest | tnow g fresh rest | c gid g jnow | c gid g
                  | c tg w endUnix pr sp sd sh | c gid endUnix]; simpl in *.
    + destruct Td as [H E].
      destruct (tick_after_empty tnow g r (store sys)) as [st1 o1] eqn:E1.
      destruct (tick_loop tnow faults rest st1) as [[st2 t2] o2] eqn:E2. simpl in *.
      assert (K : draws_ok st2 /\ (forall t0, t2 = Some t0 -> task_due st2 t0)).
      { eapply (settle_draws_ok tnow g rest faults (store sys) st1); eauto.
        unfold tick_after_empty in E1. destruct r; inversion E1; subst; auto. }
      destruct K as [D' N]. split; [exact D' | now apply Tasks].
    + destruct Td as [H E].
      destruct (tick_after_winners tnow g fresh r (store sys)) as [st1 o1] eqn:E1.
      destruct (tick_loop tnow faults rest st1) as [[st2 t2] o2] eqn:E2. simpl in *.
      assert (K : draws_ok st2 /\ (forall t0, t2 = Some t0 -> task_due st2 t0)).
      { eapply (settle_draws_ok tnow g rest faults (store sys) st1); eauto.
        unfold tick_after_winners in E1. destruct r; inversion E1; subst; auto. }
      destruct K as [D' N]. split; [exact D' | now apply Tasks].
    + pose proof (join_finish_draws_ok c gid g jnow r (store sys) D) as D'.
      destruct (join_finish c gid g jnow r (store sys)) as [st1 o1]. simpl in *.
      split; [exact D' |]. apply (Tasks _ _ None); auto. discriminate.
    + destruct (announce_finish c gid g now r (store sys)) as [st1 o1] eqn:E1. simpl in *.
      split; [| apply (Tasks _ _ None); auto; discriminate].
      unfold announce_finish in E1. destruct r; inversion E1; subst; [| exact D].
      now apply announced_draws_ok.
    + unfold create_after_post in *. destruct r as [mid |]; simpl in *.
      * split; [now apply insert_giveaway_draws_ok |].
        apply (Tasks _ _ (Some (CreateMarkupSent c (next_id (store sys)) endUnix))); auto.
        intros t0 Ht0. inversion Ht0. exact I.
      * split; [exact D |]. apply (Tasks _ _ None); auto. discriminate.
    + split; [exact D |]. apply (Tasks _ _ None); auto. discriminate.
  - pose proof (cmd_cancel_draws_ok c now gid reason (store sys) S D) as D'.
    destruct (cmd_cancel c now gid reason (store sys)) as [st out]. simpl in *.
    split; [exact D' |]. apply Forall_forall. exact Old.
  - destruct (cmd_announce c gid (store sys)) as [t out] eqn:E. simpl in *.
    split; [exact D |]. apply Tasks; auto using incl_refl.
    intros t0 ->. unfold cmd_announce in E.
    destruct (negb (isAdmin (from_id c))); [discriminate |].
    destruct (negb (chat_private c)); [discriminate |].
    destruct (gid =? 0); [discriminate |].
    destruct (get_giveaway gid (store sys)) as [g |] eqn:G; [| discriminate].
    destruct (get_giveaway_some _ _ _ G) as [Gin Gid].
    destruct (truthy (canceled g)); [discriminate |].
    destruct (negb (truthy (ended g))) eqn:Ee; [discriminate |].
    destruct (winners_of gid (store sys)); [discriminate |].
    inversion E; subst. simpl. exists g. repeat split; [exact Gin |].
    destruct S as (R & _). rewrite Forall_forall in R. destruct (R g Gin) as ([F | F] & _);
      [| exact F].
    unfold truthy in Ee. rewrite F in Ee. discriminate.
  - split; [exact D | exact T].
  - split; [exact D | exact T].
  - destruct (join_action c now gid (store sys)) as [t out] eqn:E. simpl in *.
    split; [exact D |]. apply Tasks; auto using incl_refl.
    intros t0 ->. unfold join_action in E.
    repeat match type of E with
           | context [if ?b then _ else _] => destruct b
           | context [match ?x with _ => _ end] => destruct x eqn:?
           end; inversion E; subst; exact I.
  - split; [exact D |].
    apply Forall_app. split; [exact T | constructor; [exact I | constructor]].
Qed.

Lemma init_draw_ok : draw_ok init_sys.
Proof.
  split; [apply init_ok |]. split; [split; constructor | constructor].
Qed.

Lemma run_draw_ok evs : forall sys, draw_ok sys -> draw_ok (fst (run evs sys)).
Proof.
  induction evs as [| ev evs IH]; intros sys H; simpl; [exact H |].
  pose proof (step_draw_ok ev sys H) as H1.
  destruct (step ev sys) as [sys1 o1]. simpl in H1.
  specialize (IH sys1 H1).
  now destruct (run evs sys1) as [sys2 o2].
Qed.

Lemma participants_of_grows st st' gid :
  incl (participants st) (participants st') ->
  incl (participants_of gid st) (participants_of gid st').
Proof.
  intros I u Hu. unfold participants_of in *.
  apply in_map_iff in Hu. destruct Hu as (p & E & Hp).
  apply filter_In in Hp. destruct Hp as [Hp Hg].
  apply in_map_iff. exists p. split; [exact E |].
  apply filter_In. split; [now apply I | exact Hg].
Qed.

Lemma lists_entrants_grows st st' o :
  grows st st' -> lists_entrants st o -> lists_entrants st' o.
Proof.
  intros (_ & I & _). destruct o as [chat m | | | | | |]; simpl; auto.
  destruct m; auto.
  intros H. eapply incl_tran; [exact H | now apply participants_of_grows].
Qed.

Lemma winners_of_entrants st gid :
  draws_ok st -> incl (winners_of gid st) (participants_of gid st).
Proof.
  intros [_ E] u Hu. unfold winners_of in Hu.
  apply in_map_iff in Hu. destruct Hu as (w & <- & Hw).
  apply filter_In in Hw. destruct Hw as [Hw Hg]. apply Z.eqb_eq in Hg.
  rewrite Forall_forall in E. specialize (E w Hw). unfold entrant in E.
  now rewrite Hg in E.
Qed.

Lemma announce_from_db_lists now g st :
  draws_ok st ->
  Forall (lists_entrants st) (snd (announce_from_db now g st)).
Proof.
  intro D. unfold announce_from_db.
  destruct (winners_of (id g) st) as [| w ws] eqn:W; [repeat constructor |].
  destruct (get_giveaway (id g) st) as [fresh |] eqn:G; [| repeat constructor].
  simpl. constructor; [| constructor]. simpl.
  destruct (get_giveaway_some _ _ _ G) as [_ ->].
  rewrite <- W. now apply winners_of_entrants.
Qed.

Lemma tick_body_lists now faults g st :
  store_ok st -> draws_ok st -> held_row st now g ->
  Forall (lists_entrants (fst (fst (tick_body now faults g st))))
         (snd (tick_body now faults g st)).
Proof.
  intros S D H.
  pose proof (tick_body_draws_ok now faults g st S D H) as D1.
  unfold tick_body in *.
  destruct (ended g =? 0).
  - destruct (participants_of (id g) st) as [| p ps]; [repeat constructor |].
    destruct (seed g) as [sd |]; [| repeat constructor].
    destruct (db_transaction _ _ st) as [st1 done].
    destruct done; [| repeat constructor].
    rewrite announce_from_db_store in *.
    now apply announce_from_db_lists.
  - rewrite announce_from_db_store in *. now apply announce_from_db_lists.
Qed.

Lemma tick_loop_lists now faults rows : forall st,
  store_ok st -> draws_ok st -> Forall (held_row st now) rows ->
  Forall (lists_entrants (fst (fst (tick_loop now faults rows st))))
         (snd (tick_loop now faults rows st)).
Proof.
  induction rows as [| g rest IH]; intros st S D H; simpl; [constructor |].
  inversion H as [| ? ? Hg Hrest]; subst.
  pose proof (tick_body_lists now faults g st S D Hg) as L1.
  pose proof (tick_body_draws_ok now faults g st S D Hg) as D1.
  pose proof (tick_body_grows now faults g st) as G1.
  destruct (tick_body now faults g st) as [[st1 k] o1] eqn:Eb. simpl in *.
  destruct k as [k |]; [exact L1 |].
  assert (S1 : store_ok st1) by (apply (tick_body_keeps_rows _ _ _ _ _ _ _ Eb), S).
  assert (H1 : Forall (held_row st1 now) rest).
  { eapply Forall_impl; [| exact Hrest]. intros r. now apply held_row_grows. }
  specialize (IH st1 S1 D1 H1).
  pose proof (tick_loop_grows now faults rest st1) as G2.
  destruct (tick_loop now faults rest st1) as [[st2 t2] o2]. simpl in *.
  apply Forall_app. split; [| exact IH].
  eapply Forall_impl; [| exact L1]. intros o. now apply lists_entrants_grows.
Qed.

Lemma proof_dms_lists st g : Forall (lists_entrants st) (proof_dms g).
Proof. unfold proof_dms. apply Forall_map. apply Forall_forall. now intros. Qed.

(** The winners texts a step sends list entries only. *)
Lemma step_lists ev sys :
  draw_ok sys ->
  Forall (lists_entrants (store (fst (step ev sys)))) (snd (step ev sys)).
Proof.
  intros ((S & _) & D & T).
  destruct ev as [now faults | i now r faults | c now gid reason | c gid | c gid | c gid
                 | c now gid | c tg w endUnix pr sp sd]; simpl.
  - unfold drawAndAnnounce.
    pose proof (tick_loop_lists now faults _ (store sys) S D
                  (due_query_held now (store sys))) as L.
    now destruct (tick_loop now faults (due_query now (store sys)) (store sys))
      as [[st t] out].
  - destruct (nth_error (tasks sys) i) as [t |] eqn:En; [| constructor].
    assert (Td : task_due (store sys) t).
    { rewrite Forall_forall in T. apply T. eapply nth_error_In; eauto. }
    assert (Settle : forall tnow g rest st1 o1,
               Forall (held_row (store sys) tnow) (g :: rest) ->
               ended_in (store sys) (id g) ->
               st1 = store sys
               \/ st1 = update_giveaway (id g) (set_announced tnow) (store sys) ->
               (forall st', Forall (lists_entrants st') o1) ->
               Forall (lists_entrants (fst (fst (tick_loop tnow faults rest st1))))
                      (o1 ++ snd (tick_loop tnow faults rest st1))).
    { intros tnow g rest st1 o1 H E Hst Ho.
      assert (K : store_ok st1 /\ draws_ok st1 /\ grows (store sys) st1).
      { destruct Hst as [-> | ->].
        - auto using grows_refl.
        - split; [apply (announced_keeps_rows tnow (id g) (store sys)), S |].
          split; [now apply announced_draws_ok | apply update_grows, set_announced_step]. }
      destruct K as (S1 & D1 & G1).
      apply Forall_app. split; [apply Ho |].
      apply tick_loop_lists; auto.
      inversion H as [| ? ? _ Hrest]; subst.
      eapply Forall_impl; [| exact Hrest]. intros x. now apply held_row_grows. }
    destruct t as [tnow g rest | tnow g fresh rest | c gid g jnow | c gid g
                  | c tg w endUnix pr sp sd sh | c gid endUnix]; simpl in *.
    + destruct Td as [H E].
      specialize (Settle tnow g rest (fst (tick_after_empty tnow g r (store sys)))
                    (snd (tick_after_empty tnow g r (store sys))) H E).
      destruct (tick_after_empty tnow g r (store sys)) as [st1 o1] eqn:E1. simpl in *.
      destruct (tick_loop tnow faults rest st1) as [[st2 t2] o2]. simpl in *.
      apply Settle.
      * unfold tick_after_empty in E1. destruct r; inversion E1; auto.
      * intro st'. unfold tick_after_empty in E1. destruct r; inversion E1; subst.
        -- destruct (get_giveaway _ _); [apply proof_dms_lists |].
           destruct ADMINS; repeat constructor.
        -- repeat constructor.
    + destruct Td as [H E].
      specialize (Settle tnow g rest (fst (tick_after_winners tnow g fresh r (store sys)))
                    (snd (tick_after_winners tnow g fresh r (store sys))) H E).
      destruct (tick_after_winners tnow g fresh r (store sys)) as [st1 o1] eqn:E1.
      simpl in *.
      destruct (tick_loop tnow faults rest st1) as [[st2 t2] o2]. simpl in *.
      apply Settle.
      * unfold tick_after_winners in E1. destruct r; inversion E1; auto.
      * intro st'. unfold tick_after_winners in E1. destruct r; inversion E1; subst.
        -- apply proof_dms_lists.
        -- repeat constructor.
    + unfold join_finish.
      destruct (negb (member_ok r)); [repeat constructor |].
      destruct (insert_participant _ _ _ _ _); repeat constructor.
    + unfold announce_finish. destruct r; simpl; [| repeat constructor].
      apply Forall_app. split; [apply proof_dms_lists | repeat constructor].
    + unfold create_after_post. destruct r; simpl; repeat constructor.
    + unfold create_after_markup. destruct r; repeat constructor.
  - unfold cmd_cancel.
    repeat match goal with
           | |- context [if ?b then _ else _] => destruct b
           | |- context [match get_giveaway ?a ?b with _ => _ end] =>
               destruct (get_giveaway a b)
           end; simpl; repeat constructor.
  - unfold cmd_announce.
    destruct (negb (isAdmin (from_id c))); [constructor |].
    destruct (negb (chat_private c)); [repeat constructor |].
    destruct (gid =? 0); [repeat constructor |].
    destruct (get_giveaway gid (store sys)) as [g |] eqn:G; [| repeat constructor].
    destruct (truthy (canceled g)); [repeat constructor |].
    destruct (negb (truthy (ended g))); [repeat constructor |].
    destruct (winners_of gid (store sys)) as [| w0 ws] eqn:W; [repeat constructor |].
    simpl. constructor; [| constructor]. simpl.
    destruct (get_giveaway_some _ _ _ G) as [_ ->].
    rewrite <- W. now apply winners_of_entrants.
  - unfold cmd_ginfo.
    repeat match goal with
           | |- context [if ?b then _ else _] => destruct b
           | |- context [match get_giveaway ?a ?b with _ => _ end] =>
               destruct (get_giveaway a b)
           end; simpl; repeat constructor.
  - unfold cmd_proof.
    repeat match goal with
           | |- context [if ?b then _ else _] => destruct b
           | |- context [match get_giveaway ?a ?b with _ => _ end] =>
               destruct (get_giveaway a b)
           end; simpl; repeat constructor.
  - unfold join_action.
    repeat match goal with
           | |- context [if ?b then _ else _] => destruct b
           | |- context [match get_giveaway ?a ?b with _ => _ end] =>
               destruct (get_giveaway a b)
           end; simpl; repeat constructor.
  - repeat constructor.
Qed.

(** Whatever the state and whatever happens next: every giveaway row
    that is stored stays in its place with its id, chat, post, prize,
    sponsor, winner count, close time, creation time, seed and
    commitment, the flags [ended], [canceled] and [announced] that are set
    stay set, new rows come after the stored ones, and every entry and
    every winners row is kept. *)
Theorem stored_rows_outlive_every_run evs sys :
  let st := store sys in
  let st' := store (fst (run evs sys)) in
  exists kept new more,
    giveaways st' = kept ++ new
    /\ map terms kept = map terms (giveaways st)
    /\ Forall2 (fun g g' => (ended g = 1 -> ended g' = 1)
                            /\ (canceled g = 1 -> canceled g' = 1)
                            /\ (announced g = 1 -> announced g' = 1))
               (giveaways st) kept
    /\ incl (participants st) (participants st')
    /\ winners_tbl st' = winners_tbl st ++ more.
Proof.
  intros st st'.
  destruct (run_grows evs sys) as ((kept & new & E & F) & P & (more & W)).
  exists kept, new, more. fold st st' in E, F, P, W.
  repeat split; auto.
  - clear E. induction F as [| a b l1 l2 (T & _) _ IH]; simpl; [reflexivity |].
    now rewrite T, IH.
  - clear E. induction F as [| a b l1 l2 (_ & R) _ IH]; constructor; auto.
Qed.

(** In every state the process can reach, whatever handlers interleave:
    the winners of a giveaway are entries of that giveaway, with the
    same participant id and name; and every winners text a step sends
    lists entries of its giveaway only. *)
Theorem winners_are_entrants evs :
  let sys := fst (run evs init_sys) in
  (forall gid w,
     In w (winners_of gid (store sys)) -> In w (participants_of gid (store sys)))
  /\ (forall ev chat g ws w,
        In (SendMessage chat (MsgWinners g ws)) (snd (step ev sys)) ->
        In w ws ->
        In w (participants_of (id g) (store (fst (step ev sys))))).
Proof.
  intro sys.
  assert (D : draw_ok sys) by (apply run_draw_ok, init_draw_ok).
  split.
  - intros gid w. apply winners_of_entrants. apply D.
  - intros ev chat g ws w Hin Hw.
    pose proof (step_lists ev sys D) as L. rewrite Forall_forall in L.
    apply (L _ Hin). exact Hw.
Qed.

(** In every state the process can reach, whatever handlers interleave:
    a giveaway that is ended and not canceled, and a giveaway that has
    winners rows, carries an [ended_at] that is not before its close
    time (it was ended by a tick whose clock had reached [end_time]); a
    giveaway with winners rows is ended; and an announced giveaway is
    ended. *)
Theorem no_draw_before_close_time evs g :
  let st := store (fst (run evs init_sys)) in
  In g (giveaways st) ->
  (ended g = 1 -> canceled g = 0 ->
   exists t, ended_at g = Some t /\ end_time g <= t)
  /\ (winners_of (id g) st <> [] ->
      ended g = 1 /\ exists t, ended_at g = Some t /\ end_time g <= t)
  /\ (announced g = 1 -> ended g = 1).
Proof.
  intros st Hin.
  destruct (run_draw_ok evs init_sys init_draw_ok) as (_ & (C & _) & _).
  fold st in C. rewrite Forall_forall in C. exact (C g Hin).
Qed.

(** ** The stored winners can be recomputed *)

Lemma pick_nil sd gid k : pickWinnersDeterministic sd gid [] k = [].
Proof. unfold pickWinnersDeterministic, slice0. simpl. apply firstn_nil. Qed.

Lemma pick_length sd gid ps k :
  (0 <= k)%Q ->
  Z.of_nat (List.length (pickWinnersDeterministic sd gid ps k))
  = Z.min (Qfloor k) (Z.of_nat (List.length ps)).
Proof.
  intro Hk. unfold pickWinnersDeterministic. cbv zeta.
  rewrite slice0_prefix by exact Hk.
  rewrite length_firstn.
  rewrite (Permutation_length (array_sort_perm cmpRanked _)), length_map.
  assert (F : 0 <= Qfloor k).
  { rewrite <- (Qfloor_Z 0). now apply Qfloor_resp_le. }
  lia.
Qed.

Lemma NoDup_firstn {A : Type} n (l : list A) : NoDup l -> NoDup (firstn n l).
Proof.
  intro H. rewrite <- (firstn_skipn n l) in H. now apply NoDup_app_remove_r in H.
Qed.

Lemma pick_distinct sd gid ps k :
  NoDup (map user_id ps) ->
  NoDup (map user_id (map to_user (pickWinnersDeterministic sd gid ps k))).
Proof.
  intro H. unfold pickWinnersDeterministic, slice0. cbv zeta.
  rewrite map_map. simpl. rewrite <- firstn_map. apply NoDup_firstn.
  apply (Permutation_NoDup (l := map user_id ps)); [| exact H].
  rewrite <- (map_map (rank_of sd gid) r_user_id ps).
  apply Permutation_map. symmetry. apply array_sort_perm.
Qed.

Lemma selection_same st st' g :
  winners_tbl st' = winners_tbl st -> participants st' = participants st ->
  selection_stored st g -> selection_stored st' g.
Proof.
  unfold selection_stored, winners_of, participants_of. now intros -> ->.
Qed.

Lemma selection_update gid f st :
  Forall (selection_stored st) (giveaways st) ->
  (forall x, In x (giveaways st) -> id x = gid ->
             selection_stored st x -> selection_stored st (f x)) ->
  Forall (selection_stored (update_giveaway gid f st))
         (giveaways (update_giveaway gid f st)).
Proof.
  intros F Hf. simpl. apply Forall_map. apply Forall_forall. intros x Hx.
  rewrite Forall_forall in F. specialize (F x Hx).
  apply (selection_same st); [reflexivity | reflexivity |].
  destruct (id x =? gid) eqn:Ex; [| exact F].
  apply Z.eqb_eq in Ex. now apply Hf.
Qed.

Lemma announced_fair now gid st :
  fair_ok st ->
  (forall x, In x (giveaways st) -> id x = gid -> ended x = 1 /\ canceled x = 0) ->
  fair_ok (update_giveaway gid (set_announced now) st).
Proof.
  intros [L F] Hx. split; [now apply announced_lifecycle |].
  apply selection_update; [exact F |]. intros x _ _ H. exact H.
Qed.

Lemma winners_of_drawn now gid picked st :
  winners_of gid (apply_all (draw_statements now gid picked) st)
  = winners_of gid st ++ map to_user picked.
Proof.
  rewrite apply_draw_statements. unfold winners_of. simpl.
  rewrite filter_app, map_app. f_equal.
  induction picked as [| w picked IH]; simpl; [reflexivity |].
  rewrite Z.eqb_refl. simpl. now rewrite IH.
Qed.

(** One iteration of the scheduler loop, not interleaved, on a row of the
    table. *)
Lemma tick_iteration_fair now faults sends r rest st :
  fair_ok st -> In r (giveaways st) -> canceled r = 0 ->
  fair_ok (fst (tick_iteration now faults sends r rest st)).
Proof.
  intros [L F] Hr Hc.
  split; [now apply tick_iteration_lifecycle |].
  assert (S : store_ok st) by apply L.
  assert (One : forall x, In x (giveaways st) -> id x = id r -> x = r).
  { intros x Hx E. now apply (store_row_unique st r x). }
  assert (Lr : row_lifecycle st r).
  { destruct L as (_ & Lr & _). rewrite Forall_forall in Lr. now apply Lr. }
  assert (Cr : committed r).
  { destruct S as (R & _). rewrite Forall_forall in R. now apply (R r Hr). }
  assert (Ann : forall s,
             Forall (selection_stored s) (giveaways s) ->
             Forall (selection_stored (update_giveaway (id r) (set_announced now) s))
                    (giveaways (update_giveaway (id r) (set_announced now) s))).
  { intros s Fs. apply selection_update; [exact Fs |]. intros x _ _ H. exact H. }
  assert (Ended : Forall (selection_stored (update_giveaway (id r) (set_ended now) st))
                         (giveaways (update_giveaway (id r) (set_ended now) st))
                  \/ participants_of (id r) st <> [] \/ ended r <> 0).
  { destruct (Z.eq_dec (ended r) 0) as [He | He]; [| auto].
    destruct (participants_of (id r) st) as [| p ps] eqn:Ep; [| right; left; discriminate].
    left. apply selection_update; [exact F |].
    intros x Hx Ex _ _ _. rewrite (One x Hx Ex).
    destruct Cr as (sd & Hsd & _). exists sd. split; [exact Hsd |]. simpl.
    rewrite Ep, pick_nil. simpl. destruct Lr as [L1 _]. now destruct (L1 He). }
  unfold tick_iteration, tick_body, announce_from_db.
  destruct (ended r =? 0) eqn:Ee.
  - apply Z.eqb_eq in Ee.
    destruct (participants_of (id r) st) as [| p ps] eqn:Ep.
    + destruct Ended as [E | [E | E]]; [| now contradiction E | lia].
      simpl. unfold tick_after_empty. destruct (sends (id r)); simpl; auto.
    + destruct (seed r) as [sd |] eqn:Es; [| exact F].
      destruct (db_transaction_all_or_nothing
                  (draw_statements now (id r)
                     (pickWinnersDeterministic sd (id r) (p :: ps) (winners r)))
                  (faults (id r)) st) as [E | E]; rewrite E; [| exact F].
      set (picked := pickWinnersDeterministic sd (id r) (p :: ps) (winners r)) in *.
      assert (F1 : Forall (selection_stored (apply_all (draw_statements now (id r) picked) st))
                     (giveaways (apply_all (draw_statements now (id r) picked) st))).
      { pose proof (winners_of_drawn now (id r) picked st) as W.
        pose proof (draw_only_touches now (id r) picked st) as T.
        rewrite apply_draw_statements in *. simpl.
        apply Forall_map. apply Forall_forall. intros x Hx.
        rewrite Forall_forall in F. specialize (F x Hx).
        destruct (id x =? id r) eqn:Ex.
        - apply Z.eqb_eq in Ex. rewrite (One x Hx Ex).
          intros _ _. exists sd. split; [exact Es |]. simpl.
          rewrite W. destruct Lr as [L1 _]. destruct (L1 Ee) as [_ W0].
          rewrite W0. simpl. unfold participants_of. simpl.
          fold (participants_of (id r) st). now rewrite Ep.
        - apply Z.eqb_neq in Ex. destruct (T (id x) Ex) as [_ Tw].
          unfold selection_stored in *. rewrite Tw. exact F. }
      set (st1 := apply_all _ st) in *.
      destruct (winners_of (id r) st1); [exact F1 |].
      destruct (get_giveaway (id r) st1); [| exact F1].
      simpl. unfold tick_after_winners. destruct (sends (id r)); simpl; auto.
  - destruct (winners_of (id r) st); [exact F |].
    destruct (get_giveaway (id r) st); [| exact F].
    simpl. unfold tick_after_winners. destruct (sends (id r)); simpl; auto.
Qed.

Lemma tick_complete_fair now faults sends rows : forall st,
  fair_ok st ->
  NoDup (map id rows) ->
  (forall r, In r rows -> In r (giveaways st) /\ canceled r = 0) ->
  fair_ok (fst (tick_complete now faults sends rows st)).
Proof.
  induction rows as [| r rest IH]; intros st L N H; simpl; [exact L |].
  inversion N as [| ? ? Nr N']; subst.
  destruct (H r (or_introl eq_refl)) as [Hr Hc].
  pose proof (tick_iteration_fair now faults sends r rest st L Hr Hc) as L1.
  assert (H1 : forall x, In x rest ->
                 In x (giveaways (fst (tick_iteration now faults sends r rest st)))
                 /\ canceled x = 0).
  { intros x Hx. destruct (H x (or_intror Hx)) as [Hin Hcx]. split; [| exact Hcx].
    apply tick_iteration_keeps_others; [exact Hin |].
    intro E. apply Nr. rewrite <- E. now apply in_map. }
  destruct (tick_iteration now faults sends r rest st) as [st1 o1]. simpl in *.
  specialize (IH st1 L1 N' H1).
  now destruct (tick_complete now faults sends rest st1) as [st2 o2].
Qed.

Lemma participants_of_other gid uid nm now st gid' :
  gid' <> gid ->
  participants_of gid'
    {| giveaways := giveaways st;
       participants := participants st ++ [mkParticipantRow gid uid nm now];
       winners_tbl := winners_tbl st;
       next_id := next_id st |}
  = participants_of gid' st.
Proof.
  intro Hne. unfold participants_of. simpl. rewrite filter_app. simpl.
  apply Z.eqb_neq in Hne. rewrite Z.eqb_sym in Hne.
  rewrite Hne. now rewrite app_nil_r.
Qed.

Lemma turn_fair t st : fair_ok st -> fair_ok (turn t st).
Proof.
  intros [L F]. split; [now apply turn_lifecycle |].
  assert (S : store_ok st) by apply L.
  destruct t as [now faults sends | c now gid reason | c gid now r | c now gid r
                | c tg w endUnix pr sp sd now r]; simpl.
  - unfold drawAndAnnounce_complete.
    apply tick_complete_fair; [now split | |].
    + apply due_query_distinct. apply S.
    + intros r Hin. unfold due_query in Hin. apply filter_In in Hin.
      destruct Hin as [Hin Hf]. split; [exact Hin |].
      apply andb_true_iff in Hf. destruct Hf as [Hf _].
      apply andb_true_iff in Hf. destruct Hf as [Hf _]. now apply Z.eqb_eq.
  - unfold cmd_cancel.
    destruct (negb (isAdmin (from_id c))); [exact F |].
    destruct (gid =? 0); [exact F |].
    destruct (get_giveaway gid st) as [g |] eqn:G; [| exact F].
    destruct (canceled g =? 1) eqn:Ec; [exact F |].
    destruct (ended g =? 1) eqn:Ee; [exact F |].
    simpl. apply selection_update; [exact F |].
    intros x _ _ _ _ K. discriminate K.
  - unfold cmd_announce.
    destruct (negb (isAdmin (from_id c))); [exact F |].
    destruct (negb (chat_private c)); [exact F |].
    destruct (gid =? 0); [exact F |].
    destruct (get_giveaway gid st) as [g |] eqn:G; [| exact F].
    destruct (truthy (canceled g)) eqn:Ec; [exact F |].
    destruct (negb (truthy (ended g))) eqn:Ee; [exact F |].
    destruct (winners_of gid st); [exact F |].
    simpl. unfold announce_finish. destruct r; simpl; [| exact F].
    apply selection_update; [exact F |]. intros x _ _ H. exact H.
  - destruct (join_action c now gid st) as [t out] eqn:E. simpl.
    destruct t as [t |]; [| exact F].
    destruct (get_giveaway gid st) as [g |] eqn:G;
      [| unfold join_action in E; rewrite G in E; discriminate].
    destruct (join_action_guard c now gid st g t out S G E) as (-> & _ & Hid & He & _).
    destruct (get_giveaway_some _ _ _ G) as [Gin _].
    unfold join_finish, insert_participant.
    destruct (negb (member_ok r)); [exact F |].
    destruct (has_participant gid (from_id c) st); [exact F |].
    simpl. apply Forall_forall. intros x Hx.
    rewrite Forall_forall in F. specialize (F x Hx).
    destruct (Z.eq_dec (id x) gid) as [Ex | Ex].
    + assert (x = g) by (apply (store_row_unique st g x S Gin Hx); congruence).
      subst x. intros K. rewrite He in K. discriminate K.
    + unfold selection_stored in *. rewrite participants_of_other by exact Ex.
      exact F.
  - unfold create_after_post. destruct r as [mid |]; simpl; [| exact F].
    apply Forall_app. split.
    + eapply Forall_impl; [| exact F]. intros x Hx. exact Hx.
    + constructor; [| constructor]. intros K. discriminate K.
Qed.

Lemma turns_fair l : forall st, fair_ok st -> fair_ok (turns l st).
Proof.
  unfold turns. induction l as [| t l IH]; intros st L; simpl; [exact L |].
  apply IH. now apply turn_fair.
Qed.

(** When every handler runs from its start to its end before the next
    one is served, starting from the empty database: the winners rows of
    a giveaway that is ended and not canceled are what the selector
    returns on the stored seed, whose SHA-256 is the stored commitment,
    on the stored entries and on the stored winner count, which is any
    finite number; so they are distinct participants and, for a winner
    count that is not negative, as many as the smaller of the integer
    part of that count and the number of entries. *)
Theorem stored_winners_are_the_selection l g :
  let st := turns l empty_store in
  In g (giveaways st) -> ended g = 1 -> canceled g = 0 ->
  (exists sd,
     seed g = Some sd /\ seed_hash g = Some (sha256Hex sd)
     /\ winners_of (id g) st
        = map to_user
            (pickWinnersDeterministic sd (id g) (participants_of (id g) st) (winners g)))
  /\ NoDup (map user_id (winners_of (id g) st))
  /\ ((0 <= winners g)%Q ->
      Z.of_nat (List.length (winners_of (id g) st))
      = Z.min (Qfloor (winners g))
          (Z.of_nat (List.length (participants_of (id g) st)))).
Proof.
  intros st Hin He Hc.
  assert (E : fair_ok empty_store) by (split; [apply empty_lifecycle | constructor]).
  destruct (turns_fair l empty_store E) as [((R & _ & _ & _ & K) & _) F].
  fold st in R, K, F. rewrite Forall_forall in R, F.
  destruct (F g Hin He Hc) as (sd & Hsd & W).
  destruct (R g Hin) as (_ & _ & _ & (sd' & Hsd' & Hh)).
  assert (sd' = sd) by congruence. subst sd'.
  split; [exists sd; auto |].
  rewrite W. split.
  - apply pick_distinct. now apply participants_of_distinct.
  - intro Hk. rewrite length_map. now apply pick_length.
Qed.

(** ** Escaping and the public texts *)

Lemma angle_app a b :
  angle_count (a ++ b) = (angle_count a + angle_count b)%nat.
Proof.
  induction a as [| c a IH]; simpl; [reflexivity |]. rewrite IH. lia.
Qed.

Lemma esc_char_cases c :
  (c = "&"%char /\ esc_char c = "&amp;")
  \/ (c = "<"%char /\ esc_char c = "&lt;")
  \/ (c = ">"%char /\ esc_char c = "&gt;")
  \/ (c = ascii_of_nat 34 /\ esc_char c = "&quot;")
  \/ (c <> "&"%char /\ c <> "<"%char /\ c <> ">"%char /\ c <> ascii_of_nat 34
      /\ esc_char c = String c "").
Proof.
  unfold esc_char.
  destruct (Ascii.eqb c "&") eqn:E1; [apply Ascii.eqb_eq in E1; auto |].
  destruct (Ascii.eqb c "<") eqn:E2; [apply Ascii.eqb_eq in E2; auto |].
  destruct (Ascii.eqb c ">") eqn:E3; [apply Ascii.eqb_eq in E3; auto 6 |].
  destruct (Ascii.eqb c (ascii_of_nat 34)) eqn:E4; [apply Ascii.eqb_eq in E4; auto 6 |].
  apply Ascii.eqb_neq in E1, E2, E3, E4. auto 10.
Qed.

Lemma angle_escHtml s : angle_count (escHtml s) = 0%nat.
Proof.
  induction s as [| c s IH]; simpl; [reflexivity |].
  rewrite angle_app, IH.
  destruct (esc_char_cases c)
    as [[_ ->] | [[_ ->] | [[_ ->] | [[_ ->] | (_ & A & B & _ & ->)]]]];
    try reflexivity.
  simpl. unfold is_angle.
  apply Ascii.eqb_neq in A, B. now rewrite A, B.
Qed.

Lemma quote_free_escHtml s c :
  In c (list_ascii_of_string (escHtml s)) -> c <> ascii_of_nat 34.
Proof.
  induction s as [| a s IH]; simpl; [contradiction |].
  destruct (esc_char_cases a)
    as [[_ ->] | [[_ ->] | [[_ ->] | [[_ ->] | (_ & _ & _ & Q & ->)]]]];
    simpl; intro H;
    repeat (destruct H as [<- | H]; [try discriminate; try exact Q |]);
    now apply IH.
Qed.

Lemma escHtml_app a b : escHtml (a ++ b) = (escHtml a ++ escHtml b)%string.
Proof.
  induction a as [| c a IH]; simpl; [reflexivity |].
  rewrite IH. symmetry. apply text_app_assoc.
Qed.

Lemma esc_char_head c1 c2 s1 s2 :
  (esc_char c1 ++ s1)%string = (esc_char c2 ++ s2)%string -> c1 = c2 /\ s1 = s2.
Proof.
  destruct (esc_char_cases c1)
    as [[-> ->] | [[-> ->] | [[-> ->] | [[-> ->] | (A1 & B1 & C1 & D1 & ->)]]]];
  destruct (esc_char_cases c2)
    as [[-> ->] | [[-> ->] | [[-> ->] | [[-> ->] | (A2 & B2 & C2 & D2 & ->)]]]];
  simpl; intro H; inversion H; subst; auto; try congruence.
Qed.

Lemma escHtml_one_to_one a : forall b, escHtml a = escHtml b -> a = b.
Proof.
  assert (Nil : forall c s, (esc_char c ++ s)%string <> "").
  { intros c s.
    destruct (esc_char_cases c)
      as [[_ ->] | [[_ ->] | [[_ ->] | [[_ ->] | (_ & _ & _ & _ & ->)]]]];
      discriminate. }
  induction a as [| c a IH]; intros [| d b] H; simpl in H.
  - reflexivity.
  - symmetry in H. now apply Nil in H.
  - now apply Nil in H.
  - apply esc_char_head in H. destruct H as [-> H]. f_equal. now apply IH.
Qed.

Lemma angle_uint d : angle_count (NilEmpty.string_of_uint d) = 0%nat.
Proof. induction d; simpl; auto. Qed.

Lemma angle_num z : angle_count (num_to_string z) = 0%nat.
Proof.
  unfold num_to_string, NilZero.string_of_int, NilZero.string_of_uint.
  destruct (Z.to_int z) as [d | d]; destruct d; simpl; auto using angle_uint.
Qed.

Lemma angle_num_char c : is_angle (num_char c) = false.
Proof.
  destruct c as [d | | | |]; try reflexivity.
  unfold num_char.
  pose proof (Nat.mod_upper_bound d 10) as B.
  destruct (d mod 10)%nat as [| m]; [reflexivity |].
  do 9 (destruct m as [| m]; [reflexivity |]).
  exfalso. lia.
Qed.

Lemma angle_num_text l : angle_count (num_text l) = 0%nat.
Proof.
  induction l as [| c l IH]; [reflexivity |].
  cbn [num_text angle_count]. now rewrite angle_num_char, IH.
Qed.

(** [String(n)] holds no markup. *)
Lemma angle_js_string n : angle_count (js_string n) = 0%nat.
Proof.
  destruct n as [| [|] | q]; try reflexivity.
  unfold js_string.
  destruct (as_integer (JFin q)) as [z |]; [| apply angle_num_text].
  destruct (Z.abs z <=? 9007199254740992); [apply angle_num | apply angle_num_text].
Qed.

Lemma angle_winners_lines ws : forall i, angle_count (winners_lines i ws) = 0%nat.
Proof.
  induction ws as [| w ws IH]; intro i; [reflexivity |].
  cbn [winners_lines].
  rewrite !angle_app, angle_escHtml, !angle_num, IH. reflexivity.
Qed.

(** [escHtml] leaves no character that opens or closes markup and no
    double quote in its result, escapes a text piece by piece, and loses
    nothing: different texts are escaped to different texts. *)
Theorem escHtml_keeps_markup_out :
  (forall s, angle_count (escHtml s) = 0%nat)
  /\ (forall s c, In c (list_ascii_of_string (escHtml s)) -> c <> ascii_of_nat 34)
  /\ (forall a b, escHtml (a ++ b) = (escHtml a ++ escHtml b)%string)
  /\ (forall a b, escHtml a = escHtml b -> a = b).
Proof.
  split; [exact angle_escHtml |].
  split; [exact quote_free_escHtml |].
  split; [exact escHtml_app |].
  intros a b. apply escHtml_one_to_one.
Qed.

(** The markup of the texts sent to the group is that of their
    templates: whatever the prize, the sponsor, the reason and the names
    and ids of the winners are, the characters [<] and [>] of a public
    text are those of its [<b>] tags (and, in the giveaway post, those the
    date formatter returns). *)
Theorem public_texts_markup_is_fixed :
  (forall g ws, angle_count (buildWinnersTextPublic g ws) = 16%nat)
  /\ (forall pr sp w endt count,
        angle_count (buildGiveawayTextPublic pr sp w endt count)
        = (24 + angle_count (fmtUnix endt))%nat)
  /\ (forall g count, angle_count (buildCanceledTextPublic g count) = 20%nat)
  /\ (forall gid pr sp, angle_count (emptyText gid pr sp) = 8%nat)
  /\ (forall gid pr reason, angle_count (cancelNotice gid pr reason) = 12%nat).
Proof.
  repeat split; intros.
  - unfold buildWinnersTextPublic.
    rewrite !angle_app, !angle_escHtml, angle_winners_lines. reflexivity.
  - unfold buildGiveawayTextPublic.
    rewrite !angle_app, !angle_escHtml, !angle_num, angle_js_string. simpl. lia.
  - unfold buildCanceledTextPublic.
    rewrite !angle_app, !angle_escHtml, !angle_num. reflexivity.
  - unfold emptyText.
    rewrite !angle_app, !angle_escHtml, !angle_num. reflexivity.
  - unfold cancelNotice.
    rewrite !angle_app, !angle_escHtml, !angle_num. reflexivity.
Qed.

(** ** The settings table *)

Lemma as_integer_int z : as_integer (js_int z) = Some z.
Proof.
  unfold as_integer, js_int, inject_Z, Qred.
  pose proof (Z.ggcd_gcd z 1) as G.
  pose proof (Z.ggcd_correct_divisors z 1) as D.
  destruct (Z.ggcd z 1) as [g [aa bb]]. simpl in *.
  rewrite Z.gcd_1_r in G. subst g.
  destruct D as [D1 D2]. rewrite Z.mul_1_l in D1, D2. subst. reflexivity.
Qed.

Lemma js_not_int z : js_not (js_int z) = (z =? 0).
Proof.
  unfold js_not, js_int, inject_Z, Qeq_bool. simpl. now rewrite Z.mul_1_r.
Qed.

(** [String(z)] is the decimal form of [z], for an integer that a
    JavaScript number holds exactly. *)
Lemma js_string_int z :
  Z.abs z <= 9007199254740992 -> js_string (js_int z) = num_to_string z.
Proof.
  intro H. unfold js_string. change (js_int z) with (JFin (inject_Z z)) at 1.
  cbv iota. fold (js_int z). rewrite as_integer_int.
  apply Z.leb_le in H. now rewrite H.
Qed.

Lemma getSetting_written key v s : getSetting key (upsert_setting key v s) = v.
Proof.
  unfold getSetting. induction s as [| r s IH]; simpl.
  - now rewrite String.eqb_refl.
  - destruct (String.eqb (fst r) key) eqn:E; simpl; rewrite E; [reflexivity | exact IH].
Qed.

Lemma getSetting_others key key' v s :
  key' <> key -> getSetting key' (upsert_setting key v s) = getSetting key' s.
Proof.
  intro Hne. unfold getSetting. induction s as [| r s IH]; simpl.
  - apply String.eqb_neq in Hne. rewrite String.eqb_sym in Hne. now rewrite Hne.
  - destruct (String.eqb (fst r) key) eqn:E; simpl.
    + apply String.eqb_eq in E. rewrite E.
      assert (E' : String.eqb key key' = false).
      { apply String.eqb_neq. congruence. }
      now rewrite E'.
    + destruct (String.eqb (fst r) key'); [reflexivity | exact IH].
Qed.

Lemma upsert_keys key v s :
  (In key (map fst s) /\ map fst (upsert_setting key v s) = map fst s)
  \/ (~ In key (map fst s) /\ map fst (upsert_setting key v s) = map fst s ++ [key]).
Proof.
  induction s as [| r s IH]; simpl; [right; auto |].
  destruct (String.eqb (fst r) key) eqn:E; simpl.
  - apply String.eqb_eq in E. left. auto.
  - apply String.eqb_neq in E.
    destruct IH as [[Hin ->] | [Hn ->]]; [left; auto | right].
    split; [| reflexivity]. intros [H | H]; contradiction.
Qed.

Lemma upsert_twice key v v' s :
  upsert_setting key v' (upsert_setting key v s) = upsert_setting key v' s.
Proof.
  induction s as [| r s IH]; simpl.
  - now rewrite String.eqb_refl.
  - destruct (String.eqb (fst r) key) eqn:E; simpl; rewrite E; [reflexivity |].
    now rewrite IH.
Qed.

(** What [setSetting] writes is what [getSetting] reads: [String(value)]
    under its key, which is the decimal form for an integer of magnitude
    at most 2^53; the other keys as they were; one row per key as
    before; and the last of two writes to a key. *)
Theorem settings_round_trip key value s :
  getSetting key (setSetting key value s) = Some (js_string value)
  /\ (forall z, Z.abs z <= 9007199254740992 ->
        getSetting key (setSetting key (js_int z) s) = Some (num_to_string z))
  /\ (forall key', key' <> key ->
        getSetting key' (setSetting key value s) = getSetting key' s)
  /\ (NoDup (map fst s) -> NoDup (map fst (setSetting key value s)))
  /\ (forall value',
        setSetting key value' (setSetting key value s) = setSetting key value' s).
Proof.
  unfold setSetting.
  split; [apply getSetting_written |].
  split; [intros z Hz; now rewrite getSetting_written, js_string_int |].
  split; [intros key' H; now apply getSetting_others |].
  split; [| intro value'; apply upsert_twice].
  intro N.
  destruct (upsert_keys key (Some (js_string value)) s) as [[_ ->] | [Hn ->]];
    [exact N |].
  apply (Permutation_NoDup (l := key :: map fst s));
    [apply Permutation_cons_append | now constructor].
Qed.

(** ** The history command *)

Lemma sort_insert_last {A : Type} (cmp : A -> A -> Z) x l :
  (forall y, In y l -> 0 < cmp x y) -> sort_insert cmp x l = l ++ [x].
Proof.
  induction l as [| y l IH]; intro H; simpl; [reflexivity |].
  assert (E : (cmp x y <=? 0) = false).
  { apply Z.leb_gt. apply H. now left. }
  rewrite E, IH; [reflexivity |]. intros z Hz. apply H. now right.
Qed.

(** On a table whose keys grow with the rowid, the rows in descending key
    order are the rows in reverse order. *)
Lemma newest_first l :
  StronglySorted Z.lt (map id l) ->
  array_sort (fun a b => id b - id a) l = rev l.
Proof.
  induction l as [| x l IH]; intro H; [reflexivity |].
  simpl in H. inversion H as [| ? ? Hs Hx]; subst.
  unfold array_sort in *. simpl. rewrite IH by exact Hs.
  apply sort_insert_last. intros y Hy.
  rewrite Forall_forall in Hx. apply in_rev in Hy.
  specialize (Hx (id y) (in_map id _ _ Hy)). lia.
Qed.

Lemma keys_grow_snoc l x :
  StronglySorted Z.lt l -> Forall (fun y => y < x) l -> StronglySorted Z.lt (l ++ [x]).
Proof.
  induction 1 as [| y l Hs IH Hy]; intro F; simpl.
  - repeat constructor.
  - inversion F; subst. constructor; [auto |].
    apply Forall_app. split; [exact Hy | now repeat constructor].
Qed.

Lemma step_keys_grow ev sys :
  sys_ok sys ->
  StronglySorted Z.lt (map id (giveaways (store sys))) ->
  StronglySorted Z.lt (map id (giveaways (store (fst (step ev sys))))).
Proof.
  intros Hok H.
  destruct (step_kind ev sys Hok)
    as [((A & _) & _) | [(i & now & r & f & c & gid & g & jnow & _ & _ & _ & _ & A & _)
       | (i & now & mid & f & c & tg & w & endUnix & pr & sp & sd & sh & _ & _ & A)]].
  - now rewrite (ids_of_commitments _ _ A).
  - now rewrite (ids_of_commitments _ _ A).
  - rewrite A. simpl. rewrite map_app. simpl.
    apply keys_grow_snoc; [exact H |].
    destruct Hok as [(_ & I & _) _]. now apply Forall_map.
Qed.

Lemma run_keys_grow evs : forall sys,
  sys_ok sys ->
  StronglySorted Z.lt (map id (giveaways (store sys))) ->
  StronglySorted Z.lt (map id (giveaways (store (fst (run evs sys))))).
Proof.
  induction evs as [| ev evs IH]; intros sys Hok H; simpl; [exact H |].
  pose proof (step_ok ev sys Hok) as H1.
  pose proof (step_keys_grow ev sys Hok H) as H2.
  destruct (step ev sys) as [sys1 o1]. simpl in H1, H2.
  specialize (IH sys1 H1 H2).
  now destruct (run evs sys1) as [sys2 o2].
Qed.

(** In every state the process can reach, the rows [/history] shows are
    the ten giveaways created last (all of them when there are fewer),
    the newest first; an operator is sent their text, and the command of
    anyone else is left unanswered. *)
Theorem history_lists_latest_ten evs c :
  let st := store (fst (run evs init_sys)) in
  history_query st = firstn 10 (rev (giveaways st))
  /\ (isAdmin (from_id c) = true ->
      cmd_history c st
      = [Reply c (MsgText (history_text (firstn 10 (rev (giveaways st)))))])
  /\ (isAdmin (from_id c) = false -> cmd_history c st = []).
Proof.
  intro st.
  assert (Q : history_query st = firstn 10 (rev (giveaways st))).
  { unfold history_query. rewrite newest_first; [reflexivity |].
    apply run_keys_grow; [apply init_ok | constructor]. }
  split; [exact Q |].
  unfold cmd_history. rewrite Q.
  split; intros ->; reflexivity.
Qed.

(** ** Words and white space *)

Lemma blank_width a t : is_blank a = true -> space_width (String a t) = 1%nat.
Proof. unfold is_blank, space_width. cbv zeta. now intros ->. Qed.

Lemma plain_width a t :
  is_blank a = false -> is_lead a = false -> space_width (String a t) = 0%nat.
Proof.
  unfold is_blank, is_lead, space_width. cbv zeta. intros -> L.
  repeat (apply orb_false_iff in L; destruct L as [L ?]).
  destruct t as [| b [| c t]]; [reflexivity | |];
    repeat match goal with H : (_ =? _) = false |- _ => rewrite H; clear H end;
    reflexivity.
Qed.

Lemma clear_width a b t :
  is_blank a = false -> clear_after a b = true ->
  space_width (String a (String b t)) = 0%nat.
Proof.
  unfold is_blank, clear_after, space_width. cbv zeta.
  generalize (byte a) as x. generalize (byte b) as y. intros y x -> C.
  assert (K : (x =? 194) && (y =? 160) = false
              /\ (x =? 225) && (y =? 154) = false
              /\ (x =? 226) && (y =? 128) = false
              /\ (x =? 226) && (y =? 129) = false
              /\ (x =? 227) && (y =? 128) = false
              /\ (x =? 239) && (y =? 187) = false).
  { destruct (x =? 194) eqn:E1;
      [apply Z.eqb_eq in E1; subst x; apply negb_true_iff in C; rewrite C; auto 10 |].
    destruct (x =? 225) eqn:E2;
      [apply Z.eqb_eq in E2; subst x; apply negb_true_iff in C; rewrite C; auto 10 |].
    destruct (x =? 226) eqn:E3;
      [apply Z.eqb_eq in E3; subst x; apply negb_true_iff in C;
       apply orb_false_iff in C; destruct C as [C1 C2]; rewrite C1, C2; auto 10 |].
    destruct (x =? 227) eqn:E4;
      [apply Z.eqb_eq in E4; subst x; apply negb_true_iff in C; rewrite C; auto 10 |].
    destruct (x =? 239) eqn:E5;
      [apply Z.eqb_eq in E5; subst x; apply negb_true_iff in C; rewrite C; auto 10 |].
    auto 10. }
  destruct K as (K1 & K2 & K3 & K4 & K5 & K6).
  destruct t as [| c t]; rewrite K1; [reflexivity |].
  rewrite K2, K3, K4, K5, K6. reflexivity.
Qed.

(** No white space character starts at the head of a solid word,
    whatever follows the word. *)
Lemma solid_width a r rest :
  solid (String a r) = true -> space_width (String a (r ++ rest)) = 0%nat.
Proof.
  simpl. intro H. apply andb_true_iff in H. destruct H as [H _].
  apply andb_true_iff in H. destruct H as [B C]. apply negb_true_iff in B.
  destruct r as [| b r]; simpl.
  - apply negb_true_iff in C. now apply plain_width.
  - now apply clear_width.
Qed.

Lemma solid_tail a r : solid (String a r) = true -> solid r = true.
Proof. simpl. intro H. apply andb_true_iff in H. apply H. Qed.

Lemma text_app_nil (s : string) : (s ++ "")%string = s.
Proof. induction s as [| a s IH]; simpl; [reflexivity | now rewrite IH]. Qed.

Lemma words_from_cons a r cur :
  words_from 0 cur (String a r)
  = match space_width (String a r) with
    | O => words_from 0 (cur ++ String a "") r
    | S k => flush cur ++ words_from k "" r
    end.
Proof. reflexivity. Qed.

Lemma words_solid w : forall cur rest,
  solid w = true ->
  words_from 0 cur (w ++ rest) = words_from 0 (cur ++ w) rest.
Proof.
  induction w as [| a r IH]; intros cur rest H.
  - simpl. now rewrite text_app_nil.
  - change ((String a r ++ rest)%string) with (String a (r ++ rest)).
    rewrite words_from_cons, (solid_width a r rest H).
    rewrite IH by (eapply solid_tail; eauto).
    now rewrite text_app_assoc.
Qed.

Lemma words_blank sep : forall cur rest,
  blank sep = true -> sep <> "" ->
  words_from 0 cur (sep ++ rest) = flush cur ++ words_from 0 "" rest.
Proof.
  induction sep as [| a r IH]; intros cur rest H Hne; [now contradiction Hne |].
  simpl in H. apply andb_true_iff in H. destruct H as [Ha Hr].
  change ((String a r ++ rest)%string) with (String a (r ++ rest)).
  rewrite words_from_cons, (blank_width a (r ++ rest) Ha).
  destruct r as [| b r']; [reflexivity |].
  rewrite IH by (auto; discriminate). reflexivity.
Qed.

Lemma words_lead sep rest :
  blank sep = true -> words_from 0 "" (sep ++ rest) = words_from 0 "" rest.
Proof.
  intro H. destruct sep as [| a r]; [reflexivity |].
  now rewrite words_blank by (auto; discriminate).
Qed.

Lemma words_end sep cur : blank sep = true -> words_from 0 cur sep = flush cur.
Proof.
  intro H. destruct sep as [| a r]; [reflexivity |].
  rewrite <- (text_app_nil (String a r)).
  rewrite words_blank by (auto; discriminate). simpl. apply app_nil_r.
Qed.

Lemma trim_start_cons a r :
  trim_start_from 0 (String a r)
  = match space_width (String a r) with
    | O => String a r
    | S k => trim_start_from k r
    end.
Proof. reflexivity. Qed.

Lemma trim_end_cons a r pend :
  trim_end_from 0 pend (String a r)
  = match space_width (String a r) with
    | O => (pend ++ String a (trim_end_from 0 "" r))%string
    | S k => trim_end_from k (pend ++ String a "") r
    end.
Proof. reflexivity. Qed.

Lemma trim_start_solid w rest :
  solid w = true -> trim_start_from 0 (w ++ rest) = trim_start_from 0 rest \/
                    trim_start_from 0 (w ++ rest) = (w ++ rest)%string.
Proof.
  intro H. destruct w as [| a r]; [now left | right].
  change ((String a r ++ rest)%string) with (String a (r ++ rest)).
  now rewrite trim_start_cons, (solid_width a r rest H).
Qed.

Lemma trim_start_word w rest :
  solid w = true -> w <> "" -> trim_start_from 0 (w ++ rest) = (w ++ rest)%string.
Proof.
  intros H Hne. destruct w as [| a r]; [now contradiction Hne |].
  change ((String a r ++ rest)%string) with (String a (r ++ rest)).
  now rewrite trim_start_cons, (solid_width a r rest H).
Qed.

Lemma trim_end_word w : forall pend rest,
  solid w = true -> w <> "" ->
  trim_end_from 0 pend (w ++ rest) = (pend ++ w ++ trim_end_from 0 "" rest)%string.
Proof.
  induction w as [| a r IH]; intros pend rest H Hne; [now contradiction Hne |].
  change ((String a r ++ rest)%string) with (String a (r ++ rest)).
  rewrite trim_end_cons, (solid_width a r rest H).
  destruct r as [| b r']; [reflexivity |].
  rewrite (IH "" rest) by (try discriminate; eapply solid_tail; eauto).
  reflexivity.
Qed.

Lemma trim_end_space pend rest :
  trim_end_from 0 pend (" " ++ rest) = trim_end_from 0 (pend ++ " ") rest.
Proof. reflexivity. Qed.

(** Words joined by one space each are a trimmed text. *)
Lemma trim_joined ws :
  Forall (fun w => solid w = true /\ w <> "") ws ->
  trim (String.concat " " ws) = String.concat " " ws.
Proof.
  intro F. unfold trim.
  assert (S : trim_start_from 0 (String.concat " " ws) = String.concat " " ws).
  { destruct F as [| w ws [Hs Hn] F]; [reflexivity |].
    destruct ws as [| w2 ws]; simpl.
    - rewrite <- (text_app_nil w) at 1 2. now apply trim_start_word.
    - now apply trim_start_word. }
  rewrite S. clear S.
  assert (E : forall pend,
             trim_end_from 0 pend (String.concat " " ws)
             = match ws with
               | [] => ""
               | _ => (pend ++ String.concat " " ws)%string
               end).
  { induction F as [| w ws [Hs Hn] F IH]; intro pend; [reflexivity |].
    destruct ws as [| w2 ws].
    - simpl. rewrite <- (text_app_nil w) at 1.
      rewrite trim_end_word by assumption. simpl. now rewrite text_app_nil.
    - change (String.concat " " (w :: w2 :: ws))
        with (w ++ " " ++ String.concat " " (w2 :: ws))%string.
      rewrite trim_end_word by assumption.
      rewrite trim_end_space, IH. reflexivity. }
  rewrite E. destruct ws; reflexivity.
Qed.

Lemma trim_word w : solid w = true -> trim w = w.
Proof.
  intro H. destruct w as [| a r]; [reflexivity |].
  apply (trim_joined [String a r]). constructor; [| constructor].
  split; [exact H | discriminate].
Qed.

(** The decimal form of an integer. *)
Lemma solid_uint d : solid (NilEmpty.string_of_uint d) = true.
Proof.
  induction d; simpl; try reflexivity;
    destruct (NilEmpty.string_of_uint d); simpl in *; auto.
Qed.

Lemma solid_num z : solid (num_to_string z) = true /\ num_to_string z <> "".
Proof.
  unfold num_to_string, NilZero.string_of_int, NilZero.string_of_uint.
  destruct (Z.to_int z) as [d | d]; destruct d;
    (split; [| discriminate]);
    try reflexivity;
    try (match goal with
         | |- solid (NilEmpty.string_of_uint ?u) = true => apply (solid_uint u)
         end);
    match goal with
    | |- solid (String "-" (NilEmpty.string_of_uint ?u)) = true =>
        pose proof (solid_uint u) as S; simpl in *;
        destruct (NilEmpty.string_of_uint _); simpl in *; auto
    end.
Qed.

Lemma decimal_num z : decimal (num_to_string z) = Some z.
Proof.
  unfold decimal, num_to_string.
  rewrite NilZero.isi.
  - rewrite DecimalZ.of_to. now rewrite String.eqb_refl.
  - destruct z; simpl; try discriminate.
    intro H. inversion H. now apply (DecimalPos.Unsigned.to_uint_nonnil p).
  - destruct z; simpl; try discriminate.
    intro H. inversion H. now apply (DecimalPos.Unsigned.to_uint_nonnil p).
Qed.

(** [Number(String(z))] is [z], for an integer that a JavaScript number
    holds exactly. *)
Lemma js_number_num z :
  Z.abs z <= 9007199254740992 -> js_number (num_to_string z) = js_int z.
Proof.
  intro H. unfold js_number.
  destruct (solid_num z) as [_ Hne].
  destruct (String.eqb (num_to_string z) "") eqn:E;
    [apply String.eqb_eq in E; contradiction |].
  rewrite decimal_num.
  apply Z.leb_le in H. now rewrite H.
Qed.

(** The mention of the bot. *)
Lemma all_word_at a b : all_word (a ++ String "@" b) = false.
Proof.
  induction a as [| x a IH]; simpl; [reflexivity |].
  rewrite IH. apply andb_false_r.
Qed.

Lemma strip_mention_bot name bot :
  bot <> "" -> all_word bot = true ->
  strip_mention (name ++ String "@" bot) = name.
Proof.
  intros Hne Hw. induction name as [| x name IH]; simpl.
  - rewrite Hw. destruct bot; [now contradiction Hne | reflexivity].
  - rewrite all_word_at, IH. now rewrite !andb_false_r.
Qed.

Lemma word_char_plain a :
  is_word_char a = true -> is_blank a = false /\ is_lead a = false.
Proof.
  unfold is_word_char, is_blank, is_lead. cbv zeta.
  generalize (byte a) as x. intros x H.
  rewrite !orb_true_iff, !andb_true_iff, !Z.leb_le, Z.eqb_eq in H.
  split; rewrite !orb_false_iff; repeat split; apply Z.eqb_neq; lia.
Qed.

Lemma not_lead_clear a b : is_lead a = false -> clear_after a b = true.
Proof.
  unfold is_lead, clear_after. cbv zeta. intro H.
  repeat (apply orb_false_iff in H; destruct H as [H ?]).
  repeat match goal with E : (_ =? _) = false |- _ => rewrite E; clear E end.
  reflexivity.
Qed.

Lemma solid_app a : forall b, solid a = true -> solid b = true -> solid (a ++ b) = true.
Proof.
  induction a as [| x r IH]; intros b Ha Hb; [exact Hb |].
  simpl in Ha. apply andb_true_iff in Ha. destruct Ha as [Ha Hr].
  apply andb_true_iff in Ha. destruct Ha as [Hx Hc].
  simpl. rewrite Hx, (IH b Hr Hb). simpl. rewrite andb_true_r.
  destruct r as [| y r']; simpl; [| exact Hc].
  destruct b as [| z b']; [exact Hc |].
  apply not_lead_clear. now apply negb_true_iff.
Qed.

Lemma all_word_solid s : all_word s = true -> solid s = true.
Proof.
  induction s as [| a r IH]; intro H; [reflexivity |].
  simpl in H. apply andb_true_iff in H. destruct H as [Ha Hr].
  destruct (word_char_plain a Ha) as [B L].
  simpl. rewrite B, (IH Hr). simpl. rewrite andb_true_r.
  destruct r; [now rewrite L | now apply not_lead_clear].
Qed.

Lemma mention_solid m : is_mention m -> solid m = true.
Proof.
  intros [-> | (bot & -> & _ & Hw)]; [reflexivity |].
  change (String "@" bot) with ("@" ++ bot)%string.
  apply solid_app; [reflexivity | now apply all_word_solid].
Qed.

Lemma flush_word w : w <> "" -> flush w = [w].
Proof. destruct w; [intro H; now contradiction H | reflexivity]. Qed.

Lemma words_spaced ws trail : forall cur,
  Forall spaced_ok ws -> blank trail = true ->
  words_from 0 cur (spaced ws ++ trail) = flush cur ++ map snd ws.
Proof.
  induction ws as [| p ws IH]; intros cur F Ht; simpl.
  - rewrite words_end by exact Ht. now rewrite app_nil_r.
  - inversion F as [| ? ? (Hb & Hbn & Hs & Hsn) F']; subst.
    rewrite !text_app_assoc.
    rewrite words_blank by assumption.
    rewrite words_solid by assumption. simpl.
    rewrite IH by assumption. now rewrite (flush_word (snd p)) by assumption.
Qed.

(** The words of a command line. *)
Lemma words_command_line lead name mention sep gid ws trail :
  solid name = true -> name <> "" -> is_mention mention ->
  blank lead = true -> blank sep = true -> sep <> "" -> blank trail = true ->
  Forall spaced_ok ws ->
  trim_split (command_line lead name mention sep gid ws trail)
  = (name ++ mention)%string :: num_to_string gid :: map snd ws.
Proof.
  intros Hn Hne Hm Hl Hs Hsn Ht F.
  assert (W : solid (name ++ mention) = true)
    by (apply solid_app; [exact Hn | now apply mention_solid]).
  assert (Wn : (name ++ mention)%string <> "")
    by (destruct name; [now contradiction Hne | discriminate]).
  destruct (solid_num gid) as [Hg Hgn].
  unfold trim_split, words, command_line.
  rewrite words_lead by exact Hl.
  rewrite words_solid by exact W. simpl ("" ++ _)%string.
  rewrite words_blank by assumption.
  rewrite words_solid by exact Hg. simpl ("" ++ _)%string.
  rewrite words_spaced by assumption.
  now rewrite (flush_word _ Wn), (flush_word _ Hgn).
Qed.

Lemma joined_nonempty ws :
  Forall (fun w => solid w = true /\ w <> "") ws -> ws <> [] ->
  String.concat " " ws <> "".
Proof.
  intros F Hne. destruct F as [| w ws [_ Hw] F]; [now contradiction Hne |].
  destruct w; [now contradiction Hw |].
  destruct ws; simpl; discriminate.
Qed.

Lemma with_id_int {R : Type} z (run : Z -> R) missing :
  with_id (js_int z) run missing = run z.
Proof.
  unfold with_id. change (js_int z) with (JFin (inject_Z z)) at 1.
  cbv iota. fold (js_int z). now rewrite as_integer_int.
Qed.

(** A command line of an operator reaches the handler of its command
    with the id and the reason it gives: a mention of the bot and the
    amount of white space make no difference, and without a reason the
    default one is taken. *)
Theorem router_reads_command_lines c now sys lead name mention sep gid ws trail ev :
  isAdmin (from_id c) = true ->
  engine_event name c now gid (reason_of ws) = Some ev ->
  is_mention mention ->
  blank lead = true -> blank sep = true -> sep <> "" -> blank trail = true ->
  Forall spaced_ok ws ->
  Z.abs gid <= 9007199254740992 ->
  router c now (command_line lead name mention sep gid ws trail) sys
  = Some (step ev sys).
Proof.
  intros Ha He Hm Hl Hs Hsn Ht F Hg.
  assert (Fw : Forall (fun w => solid w = true /\ w <> "") (map snd ws)).
  { apply Forall_map. eapply Forall_impl; [| exact F].
    intros p (_ & _ & A & B). auto. }
  assert (Name : (name = "/ginfo" \/ name = "/proof" \/ name = "/cancel"
                  \/ name = "/announce")).
  { unfold engine_event in He.
    destruct (String.eqb name "/ginfo") eqn:E1; [apply String.eqb_eq in E1; auto |].
    destruct (String.eqb name "/proof") eqn:E2; [apply String.eqb_eq in E2; auto |].
    destruct (String.eqb name "/cancel") eqn:E3; [apply String.eqb_eq in E3; auto |].
    destruct (String.eqb name "/announce") eqn:E4; [apply String.eqb_eq in E4; auto |].
    discriminate. }
  assert (Sn : solid name = true /\ name <> "").
  { destruct Name as [-> | [-> | [-> | ->]]]; split; try reflexivity; discriminate. }
  destruct Sn as [Sn Nn].
  pose proof (words_command_line lead name mention sep gid ws trail
                Sn Nn Hm Hl Hs Hsn Ht F) as W.
  assert (Cmd : getCmd (command_line lead name mention sep gid ws trail) = name).
  { unfold getCmd. rewrite W. simpl hd.
    destruct Hm as [-> | (bot & -> & Hb & Hw)].
    - rewrite text_app_nil.
      destruct Name as [-> | [-> | [-> | ->]]]; reflexivity.
    - now apply strip_mention_bot. }
  assert (Id : arg_id (command_line lead name mention sep gid ws trail) = js_int gid).
  { unfold arg_id. rewrite W. simpl nth.
    rewrite trim_word by apply solid_num. now apply js_number_num. }
  assert (Re : arg_reason (command_line lead name mention sep gid ws trail)
               = reason_of ws).
  { unfold arg_reason. rewrite W. simpl skipn. cbv zeta.
    rewrite trim_joined by exact Fw. unfold reason_of.
    destruct ws as [| p ws]; [reflexivity |].
    destruct (String.eqb (String.concat " " (map snd (p :: ws))) "") eqn:E;
      [| reflexivity].
    apply String.eqb_eq in E. exfalso.
    apply (joined_nonempty (map snd (p :: ws)) Fw); [discriminate | exact E]. }
  unfold router. rewrite Cmd, Id, Re, Ha. cbv zeta. rewrite !with_id_int.
  unfold engine_event in He.
  destruct Name as [-> | [-> | [-> | ->]]]; simpl in He; inversion He; subst;
    reflexivity.
Qed.

(** ** The forms *)

Lemma getForm_set uid f forms : getForm uid (set_form uid f forms) = Some f.
Proof.
  unfold getForm. induction forms as [| e forms IH]; simpl.
  - now rewrite Z.eqb_refl.
  - destruct (fst e =? uid) eqn:E; simpl; [now rewrite Z.eqb_refl |].
    now rewrite E.
Qed.

Lemma getForm_stop uid forms : getForm uid (stopForm uid forms) = None.
Proof.
  unfold getForm, stopForm. induction forms as [| e forms IH]; simpl; [reflexivity |].
  destruct (fst e =? uid) eqn:E; simpl; [exact IH |]. now rewrite E.
Qed.

Lemma getForm_none_stop uid forms : getForm uid forms = None -> stopForm uid forms = forms.
Proof.
  unfold getForm, stopForm. induction forms as [| e forms IH]; simpl; [reflexivity |].
  destruct (fst e =? uid) eqn:E; simpl; [discriminate |].
  intro H. now rewrite IH.
Qed.

Lemma getForm_entry uid forms f :
  getForm uid forms = Some f -> In (uid, f) forms.
Proof.
  unfold getForm. intro H.
  destruct (find (fun e => fst e =? uid) forms) as [e |] eqn:E; [| discriminate].
  apply find_some in E. destruct E as [Hin He]. apply Z.eqb_eq in He.
  inversion H; subst. now destruct e.
Qed.

Lemma set_form_keys uid f forms :
  (In uid (map fst forms) /\ map fst (set_form uid f forms) = map fst forms)
  \/ (~ In uid (map fst forms)
      /\ map fst (set_form uid f forms) = map fst forms ++ [uid]).
Proof.
  induction forms as [| e forms IH]; simpl; [right; auto |].
  destruct (fst e =? uid) eqn:E; simpl.
  - apply Z.eqb_eq in E. left. rewrite E. auto.
  - apply Z.eqb_neq in E.
    destruct IH as [[Hin ->] | [Hn ->]]; [left; auto | right].
    split; [| reflexivity]. intros [H | H]; contradiction.
Qed.

Lemma set_form_ok uid f forms :
  form_ok (uid, f) ->
  Forall form_ok forms /\ NoDup (map fst forms) ->
  Forall form_ok (set_form uid f forms) /\ NoDup (map fst (set_form uid f forms)).
Proof.
  intros Hf [F N]. split.
  - clear N. induction F as [| e forms He F IH]; simpl;
      [constructor; [exact Hf | constructor] |].
    destruct (fst e =? uid); constructor; auto.
  - destruct (set_form_keys uid f forms) as [[_ ->] | [Hn ->]]; [exact N |].
    apply (Permutation_NoDup (l := uid :: map fst forms));
      [apply Permutation_cons_append | now constructor].
Qed.

Lemma stopForm_ok uid forms :
  Forall form_ok forms /\ NoDup (map fst forms) ->
  Forall form_ok (stopForm uid forms) /\ NoDup (map fst (stopForm uid forms)).
Proof.
  intros [F N]. unfold stopForm. split.
  - apply Forall_forall. intros e He. apply filter_In in He.
    rewrite Forall_forall in F. now apply F.
  - clear F. induction forms as [| e forms IH]; simpl in *; [constructor |].
    inversion N as [| ? ? Hn N']; subst.
    destruct (negb (fst e =? uid)); simpl; auto.
    constructor; auto.
    intro Hin. apply Hn. apply in_map_iff in Hin. destruct Hin as (x & Ex & Hx).
    apply filter_In in Hx. rewrite <- Ex. apply in_map. apply Hx.
Qed.

Lemma form_of_operator uid forms f :
  Forall form_ok forms -> getForm uid forms = Some f -> form_ok (uid, f).
Proof.
  intros F H. apply getForm_entry in H. rewrite Forall_forall in F. now apply F.
Qed.

(** Every handler of the dialogue keeps the forms well-formed. *)
Lemma dialogue_step_ok u d : dialogue_ok d -> dialogue_ok (left (dialogue_step u d)).
Proof.
  intros Hd. pose proof Hd as [F N]. unfold dialogue_ok.
  assert (Put : forall f, form_ok (from_id (update_ctx u), f) ->
            dialogue_ok (with_forms d (set_form (from_id (update_ctx u)) f (formState d))))
    by (intros f Hf; apply set_form_ok; auto).
  assert (Stop : dialogue_ok
                   (with_forms d (stopForm (from_id (update_ctx u)) (formState d))))
    by (apply stopForm_ok; auto).
  destruct u as [c chat | c | c | c | c message | c now message | c n edited | c edited
                | c | c edited]; simpl in *.
  - unfold cmd_setgroup.
    destruct (negb (isAdmin (from_id c))); [exact Hd |].
    destruct (chat_private c); exact Hd.
  - unfold cmd_group. destruct (negb (isAdmin (from_id c))); exact Hd.
  - unfold cmd_newgiveaway.
    destruct (negb (isAdmin (from_id c))) eqn:Ha; [exact Hd |].
    destruct (negb (chat_private c)); [exact Hd |].
    destruct (no_number _); [exact Hd |].
    apply Put. apply negb_false_iff in Ha.
    unfold form_ok. simpl. repeat split; auto; lia.
  - unfold cmd_abort. destruct (negb (isAdmin (from_id c))); [exact Hd | exact Stop].
  - unfold cmd_giveaway.
    destruct (negb (isAdmin (from_id c))); [exact Hd |].
    destruct (negb (chat_private c)); [exact Hd |].
    destruct (getDefaultGroupId (settings d)) as [tg |]; [| exact Hd].
    destruct (js_not tg); [exact Hd |].
    destruct (parseGiveawayArgs message); exact Hd.
  - unfold form_text.
    destruct (getForm (from_id c) (formState d)) as [st |] eqn:G; [| exact Hd].
    destruct (form_of_operator _ _ _ F G) as (Ha & H2 & H3 & H4 & H5 & Hs).
    simpl in *.
    destruct (negb (chat_private c)); [exact Hd |].
    destruct (negb (isAdmin (from_id c))); [exact Hd |].
    destruct (String.eqb (trim message) "" || is_command (trim message)); [exact Hd |].
    destruct (expectingCustomWinners st).
    { destruct (negb (js_isFinite (js_number (trim message)))
                || js_lt (js_number (trim message)) 1
                || js_gt (js_number (trim message)) 1000); [exact Hd |].
      apply Put. unfold form_ok. simpl.
      repeat split; auto; try lia; discriminate. }
    destruct (f_step st =? 2) eqn:E2.
    { apply Z.eqb_eq in E2.
      destruct (parse_time (trim message)) as [e |]; [| exact Hd].
      destruct (e <=? now); [exact Hd |].
      apply Put. unfold form_ok. simpl.
      repeat split; auto; try lia; try discriminate. intros _. apply H2. lia. }
    destruct (f_step st =? 3) eqn:E3.
    { apply Z.eqb_eq in E3.
      destruct (js_length (trim message) <? 2); [exact Hd |].
      apply Put. unfold form_ok. simpl.
      repeat split; auto; try lia; try discriminate.
      - intros _. apply H2. lia.
      - intros _. apply H3. lia. }
    destruct (f_step st =? 4) eqn:E4; [| exact Hd].
    apply Z.eqb_eq in E4.
    destruct (js_length (trim message) <? 2); [exact Hd |].
    apply Put. unfold form_ok. simpl.
    repeat split; auto; try lia; try discriminate.
    + intros _. apply H2. lia.
    + intros _. apply H3. lia.
    + intros _. apply H4. lia.
  - unfold act_winners.
    destruct (getForm (from_id c) (formState d)) as [st |] eqn:G; [| exact Hd].
    destruct (form_of_operator _ _ _ F G) as (Ha & _).
    apply Put. unfold form_ok. simpl in *.
    repeat split; auto; try lia; discriminate.
  - unfold act_custom.
    destruct (getForm (from_id c) (formState d)) as [st |] eqn:G; [| exact Hd].
    apply Put. exact (form_of_operator _ _ _ F G).
  - exact Stop.
  - unfold act_confirm.
    destruct (getForm (from_id c) (formState d)) as [st |] eqn:G; [| exact Hd].
    destruct (getDefaultGroupId (settings d)) as [tg |]; [| exact Stop].
    destruct (js_not tg); [exact Stop |].
    destruct (d_winners (f_data st)) as [w |]; [| exact Hd].
    destruct (d_endUnix (f_data st)) as [e |]; [| exact Hd].
    destruct (d_prize (f_data st)) as [pr |]; [| exact Hd].
    destruct (d_sponsor (f_data st)) as [sp |]; [| exact Hd].
    destruct (js_not w || (e =? 0) || String.eqb pr "" || String.eqb sp "");
      [exact Hd | exact Stop].
Qed.

Lemma dialogue_after_ok us : forall d, dialogue_ok d -> dialogue_ok (dialogue_after us d).
Proof.
  unfold dialogue_after.
  induction us as [| u us IH]; intros d H; simpl; [exact H |].
  apply IH. now apply dialogue_step_ok.
Qed.

(** When the process starts no form is open. *)
Lemma started_dialogue_ok d : formState d = [] -> dialogue_ok d.
Proof. intro H. unfold dialogue_ok. rewrite H. split; constructor. Qed.

Lemma no_form_for_others d uid :
  dialogue_ok d -> isAdmin uid = false -> getForm uid (formState d) = None.
Proof.
  intros [F _] Ha.
  destruct (getForm uid (formState d)) as [f |] eqn:G; [| reflexivity].
  destruct (form_of_operator _ _ _ F G) as [K _]. simpl in K. congruence.
Qed.

Lemma with_forms_same d : with_forms d (formState d) = d.
Proof. now destruct d. Qed.

Lemma at_least_one_not_zero n :
  js_isFinite n = true -> js_lt n 1 = false -> js_not n = false.
Proof.
  destruct n as [| b | q]; simpl; try discriminate.
  intros _ H. apply negb_false_iff in H. apply Qle_bool_iff in H.
  destruct (Qeq_bool q (inject_Z 0)) eqn:E; [| reflexivity].
  apply Qeq_bool_iff in E. rewrite E in H. now contradiction H.
Qed.

(** ** Who can do what *)

(** A user who is not an operator changes nothing through the commands,
    the buttons of the form or a text, in any state reached from a start
    of the process, where no form is open: the settings and the forms
    stay as they are and no giveaway is created, and the one answer a
    text of theirs can get is the short help. *)
Theorem others_change_nothing d0 us u c now text sys :
  formState d0 = [] ->
  isAdmin (from_id (update_ctx u)) = false ->
  isAdmin (from_id c) = false ->
  let d := dialogue_after us d0 in
  left (dialogue_step u d) = d
  /\ call (dialogue_step u d) = None
  /\ (on_text c now text d sys = NoneTook
      \/ on_text c now text d sys
         = RouterTook sys [Reply c (MsgText (help_text false))]).
Proof.
  intros H0 Hu Hc d.
  assert (Ok : dialogue_ok d) by (now apply dialogue_after_ok, started_dialogue_ok).
  pose proof (no_form_for_others d _ Ok Hu) as Gu.
  pose proof (no_form_for_others d _ Ok Hc) as Gc.
  split; [| split].
  - destruct u; simpl in *;
      unfold cmd_setgroup, cmd_group, cmd_newgiveaway, cmd_abort, cmd_giveaway,
        form_text, act_winners, act_custom, act_abort, act_confirm;
      rewrite ?Hu, ?Gu; simpl; try reflexivity.
    rewrite (getForm_none_stop _ _ Gu). apply with_forms_same.
  - destruct u; simpl in *;
      unfold cmd_setgroup, cmd_group, cmd_newgiveaway, cmd_abort, cmd_giveaway,
        form_text, act_winners, act_custom, act_abort, act_confirm;
      rewrite ?Hu, ?Gu; reflexivity.
  - unfold on_text, form_text. rewrite Gc. unfold router.
    destruct (is_command (getCmd text)); simpl; [| now left].
    destruct (String.eqb (getCmd text) "/help"); [| now rewrite Hc; left].
    right. now rewrite Hc.
Qed.

(** In any state reached from a start of the process, where no form is
    open, every call that creates a giveaway is made for an operator, the
    one who sent the update, and with what the handlers checked: the group
    is the default group of the settings and is not zero, the number of
    winners is not zero and not [NaN], the prize and the sponsor are not
    empty; and the call leaves the settings as they are.  The confirm
    button checks no operator list: a form is there for operators only. *)
Theorem creation_is_for_operators d0 us u k after :
  formState d0 = [] ->
  let d := dialogue_after us d0 in
  call (dialogue_step u d) = Some (k, after) ->
  k_ctx k = update_ctx u
  /\ isAdmin (from_id (k_ctx k)) = true
  /\ getDefaultGroupId (settings d) = Some (k_targetGroupId k)
  /\ js_not (k_targetGroupId k) = false
  /\ js_not (k_winners k) = false
  /\ k_prize k <> "" /\ k_sponsor k <> ""
  /\ settings (left (dialogue_step u d)) = settings d.
Proof.
  intros H0 d H.
  assert (Ok : dialogue_ok d) by (now apply dialogue_after_ok, started_dialogue_ok).
  destruct Ok as [F _].
  destruct u as [c chat | c | c | c | c message | c now message | c n edited | c edited
                | c | c edited]; simpl in *.
  - unfold cmd_setgroup in H.
    destruct (negb (isAdmin (from_id c))); [discriminate |].
    destruct (chat_private c); discriminate.
  - unfold cmd_group in H. destruct (negb (isAdmin (from_id c))); discriminate.
  - unfold cmd_newgiveaway in H.
    destruct (negb (isAdmin (from_id c))); [discriminate |].
    destruct (negb (chat_private c)); [discriminate |].
    destruct (no_number _); discriminate.
  - unfold cmd_abort in H. destruct (negb (isAdmin (from_id c))); discriminate.
  - unfold cmd_giveaway in *.
    destruct (negb (isAdmin (from_id c))) eqn:Ha; [discriminate |].
    apply negb_false_iff in Ha.
    destruct (negb (chat_private c)); [discriminate |].
    destruct (getDefaultGroupId (settings d)) as [tg |]; [| discriminate].
    destruct (js_not tg) eqn:Nt; [discriminate |].
    unfold parseGiveawayArgs in *.
    destruct (Z.of_nat _ <? 4); [discriminate |].
    match type of H with
    | context [js_number ?w] => set (n := js_number w) in *
    end.
    destruct (negb (js_isFinite n) || js_lt n 1) eqn:W; [discriminate |].
    apply orb_false_iff in W. destruct W as [W1 W2]. apply negb_false_iff in W1.
    destruct (parse_time _) as [e |]; [| discriminate].
    destruct (String.eqb _ "") eqn:P; [discriminate |].
    destruct (String.eqb (trim (last _ "")) "") eqn:Sp; [discriminate |].
    simpl in *. inversion H; subst; simpl.
    apply String.eqb_neq in P. apply String.eqb_neq in Sp.
    repeat split; auto. now apply at_least_one_not_zero.
  - unfold form_text in H.
    destruct (getForm (from_id c) (formState d)) as [st |]; [| discriminate].
    destruct (negb (chat_private c)); [discriminate |].
    destruct (negb (isAdmin (from_id c))); [discriminate |].
    destruct (String.eqb (trim message) "" || is_command (trim message)); [discriminate |].
    destruct (expectingCustomWinners st).
    { destruct (negb (js_isFinite (js_number (trim message)))
                || js_lt (js_number (trim message)) 1
                || js_gt (js_number (trim message)) 1000); discriminate. }
    destruct (f_step st =? 2).
    { destruct (parse_time (trim message)) as [e |]; [| discriminate].
      destruct (e <=? now); discriminate. }
    destruct (f_step st =? 3).
    { destruct (js_length (trim message) <? 2); discriminate. }
    destruct (f_step st =? 4); [| discriminate].
    destruct (js_length (trim message) <? 2); discriminate.
  - unfold act_winners in H.
    destruct (getForm (from_id c) (formState d)); discriminate.
  - unfold act_custom in H.
    destruct (getForm (from_id c) (formState d)); discriminate.
  - discriminate.
  - unfold act_confirm in *.
    destruct (getForm (from_id c) (formState d)) as [st |] eqn:G; [| discriminate].
    destruct (form_of_operator _ _ _ F G) as [Ha _]. simpl in Ha.
    destruct (getDefaultGroupId (settings d)) as [tg |]; [| discriminate].
    destruct (js_not tg) eqn:Nt; [discriminate |].
    destruct (d_winners (f_data st)) as [w |]; [| discriminate].
    destruct (d_endUnix (f_data st)) as [e |]; [| discriminate].
    destruct (d_prize (f_data st)) as [pr |]; [| discriminate].
    destruct (d_sponsor (f_data st)) as [sp |]; [| discriminate].
    destruct (js_not w || (e =? 0) || String.eqb pr "" || String.eqb sp "") eqn:M;
      [discriminate |].
    destruct edited; [| discriminate].
    simpl in *. inversion H; subst; simpl.
    repeat (apply orb_false_iff in M; destruct M as [M ?]).
    repeat split; auto; now apply String.eqb_neq.
Qed.

(** A confirmation that creates a giveaway takes the form away before
    its first await: pressing the button again, whether or not the first
    press has finished, creates nothing and is answered with the alert
    that the form has expired. *)
Theorem confirm_creates_once c edited edited' d k after :
  call (dialogue_step (UConfirm c edited) d) = Some (k, after) ->
  let d1 := left (dialogue_step (UConfirm c edited) d) in
  getForm (from_id c) (formState d1) = None
  /\ dialogue_step (UConfirm c edited') d1
     = says d1 [SayAnswer c txt_form_expired true].
Proof.
  intros H d1. subst d1. simpl in *.
  assert (E : left (act_confirm c edited d)
              = with_forms d (stopForm (from_id c) (formState d))).
  { unfold act_confirm in *.
    destruct (getForm (from_id c) (formState d)) as [st |]; [| discriminate].
    destruct (getDefaultGroupId (settings d)) as [tg |]; [| discriminate].
    destruct (js_not tg); [discriminate |].
    destruct (d_winners (f_data st)) as [w |]; [| discriminate].
    destruct (d_endUnix (f_data st)) as [e |]; [| discriminate].
    destruct (d_prize (f_data st)) as [pr |]; [| discriminate].
    destruct (d_sponsor (f_data st)) as [sp |]; [| discriminate].
    destruct (js_not w || (e =? 0) || String.eqb pr "" || String.eqb sp "");
      [discriminate | reflexivity]. }
  rewrite E. cbn [formState with_forms].
  split; [apply getForm_stop |].
  unfold act_confirm. cbn [formState with_forms]. now rewrite getForm_stop.
Qed.

(** ** The default group and the form *)

Lemma default_group_written chat s :
  Z.abs chat <= 9007199254740992 ->
  getDefaultGroupId (setSetting "default_group_id" (js_int chat) s)
  = Some (js_int chat).
Proof.
  intro H. unfold getDefaultGroupId, setSetting.
  rewrite getSetting_written, js_string_int by exact H.
  destruct (solid_num chat) as [_ Hne].
  apply String.eqb_neq in Hne. rewrite Hne.
  now rewrite js_number_num.
Qed.

Lemma long_nonempty s : 2 <= js_length s -> String.eqb s "" = false.
Proof. destruct s; simpl; [lia | reflexivity]. Qed.

(** [/setgroup] by an operator in a group makes that group the default
    one, whatever was set before, and leaves the forms; [/group] then
    shows its id.  In a private chat, or from another user, [/setgroup]
    leaves the dialogue as it is. *)
Theorem setgroup_sets_the_default_group c chat d :
  isAdmin (from_id c) = true ->
  Z.abs chat <= 9007199254740992 ->
  let d1 := left (dialogue_step (USetGroup c chat) d) in
  (chat_private c = true -> d1 = d)
  /\ (chat_private c = false ->
      getDefaultGroupId (settings d1) = Some (js_int chat)
      /\ formState d1 = formState d
      /\ (chat <> 0 ->
          dialogue_step (UGroup c) d1
          = says d1 [SayReply c ("📌 Group mặc định: <code>" ++ num_to_string chat
                                 ++ "</code>")%string []])).
Proof.
  intros Ha Hc. cbn [dialogue_step]. unfold cmd_setgroup. rewrite Ha. cbn [negb].
  split; intro Hp; rewrite Hp; cbn [left says]; [reflexivity |].
  split; [now apply default_group_written |].
  split; [reflexivity |].
  intro Hz. unfold cmd_group. rewrite Ha. cbn [negb settings].
  rewrite default_group_written by exact Hc.
  rewrite js_not_int, js_string_int by exact Hc.
  apply Z.eqb_neq in Hz. now rewrite Hz.
Qed.

(** The form from end to end: after [/setgroup] in a group, an operator
    who runs [/newgiveaway] in a private chat, presses the button of a
    number of winners from 1 to 2^53, and enters a time in the future, a
    prize and a sponsor of two characters or more, creates with the
    confirm button a giveaway in that group with that number of winners,
    that time, and the prize and the sponsor as entered, without the
    white space around them; the form is then gone. *)
Theorem form_creates_what_was_entered cg c chat n b t p s now1 now2 now3 e sd d :
  isAdmin (from_id cg) = true -> chat_private cg = false ->
  isAdmin (from_id c) = true -> chat_private c = true ->
  Z.abs chat <= 9007199254740992 -> chat <> 0 ->
  1 <= n <= 9007199254740992 ->
  trim t <> "" -> is_command (trim t) = false ->
  parse_time (trim t) = Some e -> now1 < e -> e <> 0 ->
  2 <= js_length (trim p) -> is_command (trim p) = false ->
  2 <= js_length (trim s) -> is_command (trim s) = false ->
  let d6 :=
    dialogue_after
      [ USetGroup cg chat; UNewGiveaway c; UWinners c (num_to_string n) b;
        UFormText c now1 t; UFormText c now2 p; UFormText c now3 s ] d in
  let k := mkCreateCall c (js_int chat) (js_int n) e (trim p) (trim s) in
  (exists after, call (dialogue_step (UConfirm c true) d6) = Some (k, after))
  /\ call_event k sd = Some (Create c chat (inject_Z n) e (trim p) (trim s) sd)
  /\ getForm (from_id c) (formState (left (dialogue_step (UConfirm c true) d6)))
     = None.
Proof.
  intros Hag Hpg Ha Hp Hc Hc0 Hn Htn Htc Ht Hlt He Hpl Hpc Hsl Hsc.
  unfold dialogue_after. cbn [fold_left dialogue_step].
  apply String.eqb_neq in Htn. apply Z.leb_gt in Hlt.
  apply long_nonempty in Hpl as Hpn. apply long_nonempty in Hsl as Hsn.
  apply Z.ltb_ge in Hpl. apply Z.ltb_ge in Hsl.
  assert (Nc : js_not (js_int chat) = false)
    by (rewrite js_not_int; now apply Z.eqb_neq).
  assert (Nn : js_not (js_int n) = false)
    by (rewrite js_not_int; apply Z.eqb_neq; lia).
  set (d1 := left (cmd_setgroup cg chat d)).
  assert (G : getDefaultGroupId (settings d1) = Some (js_int chat)).
  { unfold d1, cmd_setgroup. rewrite Hag, Hpg. cbn [negb left says settings].
    now apply default_group_written. }
  set (d2 := left (cmd_newgiveaway c d1)).
  assert (E2 : settings d2 = settings d1
               /\ getForm (from_id c) (formState d2)
                  = Some (mkForm 1 (mkFormData None None None None) false)).
  { unfold d2, cmd_newgiveaway. rewrite Ha, Hp, G. cbn [negb no_number].
    rewrite Nc. cbn [left says with_forms settings formState].
    split; [reflexivity | apply getForm_set]. }
  destruct E2 as [S2 G2].
  set (d3 := left (act_winners c (num_to_string n) b d2)).
  assert (E3 : settings d3 = settings d1
               /\ getForm (from_id c) (formState d3)
                  = Some (mkForm 2 (mkFormData (Some (js_int n)) None None None)
                            false)).
  { unfold d3, act_winners. rewrite G2, js_number_num by lia.
    cbn [left says with_forms settings formState f_data d_endUnix d_prize d_sponsor].
    split; [exact S2 | apply getForm_set]. }
  destruct E3 as [S3 G3].
  set (d4 := left match form_text c now1 t d3 with Some r => r | None => says d3 [] end).
  assert (E4 : settings d4 = settings d1
               /\ getForm (from_id c) (formState d4)
                  = Some (mkForm 3 (mkFormData (Some (js_int n)) (Some e) None None)
                            false)).
  { unfold d4, form_text. rewrite G3, Hp, Ha, Htn, Htc.
    cbn [negb orb expectingCustomWinners f_step f_data]. rewrite Ht, Hlt.
    cbn [left says with_forms settings formState d_winners d_prize d_sponsor].
    split; [exact S3 | apply getForm_set]. }
  destruct E4 as [S4 G4].
  set (d5 := left match form_text c now2 p d4 with Some r => r | None => says d4 [] end).
  assert (E5 : settings d5 = settings d1
               /\ getForm (from_id c) (formState d5)
                  = Some (mkForm 4 (mkFormData (Some (js_int n)) (Some e)
                                      (Some (trim p)) None) false)).
  { unfold d5, form_text. rewrite G4, Hp, Ha, Hpn, Hpc.
    cbn [negb orb expectingCustomWinners f_step f_data]. rewrite Hpl.
    cbn [left says with_forms settings formState d_winners d_endUnix d_sponsor].
    split; [exact S4 | apply getForm_set]. }
  destruct E5 as [S5 G5].
  set (d6 := left match form_text c now3 s d5 with Some r => r | None => says d5 [] end).
  assert (E6 : settings d6 = settings d1
               /\ getForm (from_id c) (formState d6)
                  = Some (mkForm 5 (mkFormData (Some (js_int n)) (Some e)
                                      (Some (trim p)) (Some (trim s))) false)).
  { unfold d6, form_text. rewrite G5, Hp, Ha, Hsn, Hsc.
    cbn [negb orb expectingCustomWinners f_step f_data]. rewrite Hsl.
    cbn [left says with_forms settings formState d_winners d_endUnix d_prize].
    split; [exact S5 | apply getForm_set]. }
  destruct E6 as [S6 G6].
  apply Z.eqb_neq in He.
  unfold act_confirm. rewrite G6, S6, G, Nc.
  cbn [f_data d_winners d_endUnix d_prize d_sponsor]. rewrite Nn, He, Hpn, Hsn.
  cbn [orb call left with_forms formState].
  split; [eexists; reflexivity |].
  split; [| apply getForm_stop].
  unfold call_event. cbn [k_targetGroupId k_winners k_ctx k_endUnix k_prize k_sponsor].
  now rewrite as_integer_int.
Qed.

(** ** Quick create *)

Lemma blank_char a :
  is_blank a = true ->
  Ascii.eqb a "|" = false /\ Ascii.eqb a "@" = false
  /\ (byte a =? 239) = false /\ is_word_char a = false.
Proof.
  intro H. split; [| split].
  - destruct (Ascii.eqb a "|") eqn:E; [| reflexivity].
    apply Ascii.eqb_eq in E. subst a. discriminate H.
  - destruct (Ascii.eqb a "@") eqn:E; [| reflexivity].
    apply Ascii.eqb_eq in E. subst a. discriminate H.
  - revert H. unfold is_blank, is_word_char. cbv zeta.
    generalize (byte a) as x. intros x H.
    rewrite !orb_true_iff, !Z.eqb_eq in H.
    split; [apply Z.eqb_neq; lia |].
    rewrite !orb_false_iff, !andb_false_iff, !Z.leb_gt, Z.eqb_neq. lia.
Qed.

Lemma bar_free_cons a r :
  bar_free (String a r) = true ->
  Ascii.eqb a "|" = false /\ bar_free r = true
  /\ ((byte a =? 239) = false
      \/ exists b r', r = String b r' /\ (byte b =? 189) = false).
Proof.
  simpl. intro H. apply andb_true_iff in H. destruct H as [H R].
  apply andb_true_iff in H. destruct H as [B W].
  apply negb_true_iff in B. repeat split; auto.
  destruct (byte a =? 239); [right | now left].
  destruct r as [| b r']; [discriminate |].
  exists b, r'. split; [reflexivity | now apply negb_true_iff].
Qed.

Lemma bar_free_uint d : bar_free (NilEmpty.string_of_uint d) = true.
Proof. induction d; simpl; auto. Qed.

Lemma bar_free_num z : bar_free (num_to_string z) = true.
Proof.
  unfold num_to_string, NilZero.string_of_int, NilZero.string_of_uint.
  destruct (Z.to_int z) as [d | d]; destruct d; try reflexivity;
    try (match goal with
         | |- bar_free (NilEmpty.string_of_uint ?u) = true => apply (bar_free_uint u)
         end);
    match goal with
    | |- bar_free (String "-" (NilEmpty.string_of_uint ?u)) = true =>
        change (bar_free (NilEmpty.string_of_uint u) = true); apply bar_free_uint
    end.
Qed.

Lemma trim_start_blank sep rest :
  blank sep = true -> trim_start_from 0 (sep ++ rest) = trim_start_from 0 rest.
Proof.
  induction sep as [| a r IH]; intro H; [reflexivity |].
  simpl in H. apply andb_true_iff in H. destruct H as [Ha Hr].
  change ((String a r ++ rest)%string) with (String a (r ++ rest)).
  rewrite trim_start_cons, (blank_width a (r ++ rest) Ha). now apply IH.
Qed.

Lemma skip_word_app bot rest :
  all_word bot = true ->
  match rest with String a _ => is_word_char a = false | "" => True end ->
  skip_word (bot ++ rest) = rest.
Proof.
  intros Hw Hr. induction bot as [| b bot IH]; simpl.
  - destruct rest as [| a r]; [reflexivity |]. simpl. now rewrite Hr.
  - simpl in Hw. apply andb_true_iff in Hw. destruct Hw as [Hb Hw].
    rewrite Hb. now apply IH.
Qed.

(** The prefix of a quick-create line is taken off. *)
Lemma strip_giveaway_prefix_line mention sep w rest :
  is_mention mention -> blank sep = true -> sep <> "" ->
  solid w = true -> w <> "" ->
  strip_giveaway_prefix ("/giveaway" ++ mention ++ sep ++ w ++ rest)
  = (w ++ rest)%string.
Proof.
  intros Hm Hs Hsn Hw Hwn. unfold strip_giveaway_prefix.
  change (after_prefix_ci "/giveaway" ("/giveaway" ++ mention ++ sep ++ w ++ rest))
    with (Some (mention ++ sep ++ w ++ rest)%string).
  destruct sep as [| x sep']; [now contradiction Hsn |].
  pose proof Hs as Hs'. simpl in Hs'. apply andb_true_iff in Hs'.
  destruct Hs' as [Hx _]. destruct (blank_char x Hx) as (_ & Hat & _ & Hxw).
  assert (T : trim_start_from 0 (String x sep' ++ w ++ rest) = (w ++ rest)%string).
  { rewrite trim_start_blank by exact Hs. now apply trim_start_word. }
  destruct Hm as [-> | (bot & -> & Hb & Hbw)].
  - change (("" ++ String x sep' ++ w ++ rest)%string)
      with (String x (sep' ++ w ++ rest)).
    change ((String x sep' ++ w ++ rest)%string)
      with (String x (sep' ++ w ++ rest)) in T.
    destruct (sep' ++ w ++ rest)%string as [| y q]; [exact T |].
    rewrite Hat. exact T.
  - destruct bot as [| b bot']; [now contradiction Hb |].
    change ((String "@" (String b bot') ++ String x sep' ++ w ++ rest)%string)
      with (String "@" (String b (bot' ++ String x sep' ++ w ++ rest))).
    pose proof Hbw as Hbw'. simpl in Hbw'. apply andb_true_iff in Hbw'.
    destruct Hbw' as [Hb1 _]. rewrite Hb1.
    change (Ascii.eqb "@" "@" && true) with true. cbv iota.
    change (String b (bot' ++ String x sep' ++ w ++ rest))
      with ((String b bot' ++ String x sep' ++ w ++ rest)%string).
    rewrite skip_word_app by (auto; exact Hxw). exact T.
Qed.

Lemma replace_fullwidth_cons a r :
  replace_fullwidth_from 0 (String a r)
  = match r with
    | String b (String c _) =>
        if (byte a =? 239) && (byte b =? 189) && (byte c =? 156)
        then String "|" (replace_fullwidth_from 2 r)
        else String a (replace_fullwidth_from 0 r)
    | _ => String a (replace_fullwidth_from 0 r)
    end.
Proof. reflexivity. Qed.

Lemma replace_fullwidth_other a r :
  (byte a =? 239) = false \/ (exists b r', r = String b r' /\ (byte b =? 189) = false) ->
  replace_fullwidth_from 0 (String a r) = String a (replace_fullwidth_from 0 r).
Proof.
  intro H. rewrite replace_fullwidth_cons.
  destruct r as [| b [| c r]]; try reflexivity.
  destruct H as [-> | (b' & r' & E & H)]; [reflexivity |].
  inversion E; subst. rewrite H. now rewrite andb_false_r.
Qed.

Lemma replace_fullwidth_word w rest :
  bar_free w = true ->
  replace_fullwidth_from 0 (w ++ rest) = (w ++ replace_fullwidth_from 0 rest)%string.
Proof.
  induction w as [| a r IH]; intro H; [reflexivity |].
  destruct (bar_free_cons a r H) as (_ & Hr & K).
  change ((String a r ++ rest)%string) with (String a (r ++ rest)).
  rewrite replace_fullwidth_other.
  - simpl. now rewrite IH.
  - destruct K as [K | (b & r' & -> & K)]; [now left | right].
    exists b, (r' ++ rest)%string. auto.
Qed.

Lemma replace_fullwidth_blank b rest :
  blank b = true ->
  replace_fullwidth_from 0 (b ++ rest) = (b ++ replace_fullwidth_from 0 rest)%string.
Proof.
  induction b as [| a r IH]; intro H; [reflexivity |].
  simpl in H. apply andb_true_iff in H. destruct H as [Ha Hr].
  destruct (blank_char a Ha) as (_ & _ & K & _).
  change ((String a r ++ rest)%string) with (String a (r ++ rest)).
  rewrite replace_fullwidth_other by now left.
  simpl. now rewrite IH.
Qed.

Lemma replace_fullwidth_spaced ws rest :
  Forall (fun p => spaced_ok p /\ bar_free (snd p) = true) ws ->
  replace_fullwidth_from 0 (spaced ws ++ rest)
  = (spaced ws ++ replace_fullwidth_from 0 rest)%string.
Proof.
  induction 1 as [| p ws [(Hb & _ & _ & _) Hf] F IH]; [reflexivity |].
  simpl. rewrite !text_app_assoc.
  rewrite replace_fullwidth_blank by exact Hb.
  rewrite replace_fullwidth_word by exact Hf.
  now rewrite IH.
Qed.

Lemma replace_fullwidth_field f rest :
  is_field f ->
  replace_fullwidth_from 0 (f ++ rest) = (f ++ replace_fullwidth_from 0 rest)%string.
Proof.
  intros (w & ws & -> & (_ & _ & Hw) & F).
  rewrite !text_app_assoc.
  rewrite replace_fullwidth_word by exact Hw.
  now rewrite replace_fullwidth_spaced.
Qed.

Lemma replace_fullwidth_bar b rest :
  pad_ok b ->
  replace_fullwidth_from 0 (bar_with b ++ rest)
  = (bar_with b ++ replace_fullwidth_from 0 rest)%string.
Proof.
  intros [H1 H2]. unfold bar_with. rewrite !text_app_assoc.
  rewrite replace_fullwidth_blank by exact H1.
  change (("|" ++ snd b ++ rest)%string) with (String "|" (snd b ++ rest)).
  rewrite replace_fullwidth_other by now left.
  now rewrite replace_fullwidth_blank.
Qed.

Lemma tighten_bars_cons a r ab pend :
  tighten_bars_from 0 ab pend (String a r)
  = if Ascii.eqb a "|" then String "|" (tighten_bars_from 0 true "" r)
    else
      match space_width (String a r) with
      | O => (pend ++ String a (tighten_bars_from 0 false "" r))%string
      | S k =>
          tighten_bars_from k ab (if ab then "" else (pend ++ String a "")%string) r
      end.
Proof. reflexivity. Qed.

Lemma tighten_bars_word w : forall pend ab rest,
  solid w = true -> w <> "" -> bar_free w = true ->
  tighten_bars_from 0 ab pend (w ++ rest)
  = (pend ++ w ++ tighten_bars_from 0 false "" rest)%string.
Proof.
  induction w as [| a r IH]; intros pend ab rest Hs Hn Hf; [now contradiction Hn |].
  destruct (bar_free_cons a r Hf) as (Ha & Hr & _).
  change ((String a r ++ rest)%string) with (String a (r ++ rest)).
  rewrite tighten_bars_cons, Ha, (solid_width a r rest Hs).
  destruct r as [| b r']; [reflexivity |].
  rewrite (IH "" false rest) by (try discriminate; auto; eapply solid_tail; eauto).
  reflexivity.
Qed.

Lemma tighten_bars_blank b : forall pend rest,
  blank b = true ->
  tighten_bars_from 0 false pend (b ++ rest)
  = tighten_bars_from 0 false (pend ++ b) rest.
Proof.
  induction b as [| a r IH]; intros pend rest H.
  - simpl. now rewrite text_app_nil.
  - simpl in H. apply andb_true_iff in H. destruct H as [Ha Hr].
    destruct (blank_char a Ha) as (K & _).
    change ((String a r ++ rest)%string) with (String a (r ++ rest)).
    rewrite tighten_bars_cons, K, (blank_width a (r ++ rest) Ha).
    rewrite IH by exact Hr. now rewrite text_app_assoc.
Qed.

Lemma tighten_bars_blank_after b rest :
  blank b = true ->
  tighten_bars_from 0 true "" (b ++ rest) = tighten_bars_from 0 true "" rest.
Proof.
  induction b as [| a r IH]; intro H; [reflexivity |].
  simpl in H. apply andb_true_iff in H. destruct H as [Ha Hr].
  destruct (blank_char a Ha) as (K & _).
  change ((String a r ++ rest)%string) with (String a (r ++ rest)).
  rewrite tighten_bars_cons, K, (blank_width a (r ++ rest) Ha).
  now apply IH.
Qed.

Lemma tighten_bars_spaced ws rest :
  Forall (fun p => spaced_ok p /\ bar_free (snd p) = true) ws ->
  tighten_bars_from 0 false "" (spaced ws ++ rest)
  = (spaced ws ++ tighten_bars_from 0 false "" rest)%string.
Proof.
  induction 1 as [| p ws [(Hb & _ & Hs & Hn) Hf] F IH]; [reflexivity |].
  simpl. rewrite !text_app_assoc.
  rewrite tighten_bars_blank by exact Hb.
  rewrite tighten_bars_word by assumption.
  now rewrite IH.
Qed.

Lemma tighten_bars_field f ab rest :
  is_field f ->
  tighten_bars_from 0 ab "" (f ++ rest)
  = (f ++ tighten_bars_from 0 false "" rest)%string.
Proof.
  intros (w & ws & -> & (Hs & Hn & Hf) & F).
  rewrite !text_app_assoc.
  rewrite tighten_bars_word by assumption.
  now rewrite tighten_bars_spaced.
Qed.

Lemma tighten_bars_bar b rest :
  pad_ok b ->
  tighten_bars_from 0 false "" (bar_with b ++ rest)
  = String "|" (tighten_bars_from 0 true "" rest).
Proof.
  intros [H1 H2]. unfold bar_with. rewrite !text_app_assoc.
  rewrite tighten_bars_blank by exact H1.
  change (("|" ++ snd b ++ rest)%string) with (String "|" (snd b ++ rest)).
  rewrite tighten_bars_cons. change (Ascii.eqb "|" "|") with true. cbv iota.
  now rewrite tighten_bars_blank_after.
Qed.

Lemma trim_end_blank b : forall pend rest,
  blank b = true ->
  trim_end_from 0 pend (b ++ rest) = trim_end_from 0 (pend ++ b) rest.
Proof.
  induction b as [| a r IH]; intros pend rest H.
  - simpl. now rewrite text_app_nil.
  - simpl in H. apply andb_true_iff in H. destruct H as [Ha Hr].
    change ((String a r ++ rest)%string) with (String a (r ++ rest)).
    rewrite trim_end_cons, (blank_width a (r ++ rest) Ha).
    rewrite IH by exact Hr. now rewrite text_app_assoc.
Qed.

Lemma trim_end_spaced ws rest :
  Forall (fun p => spaced_ok p /\ bar_free (snd p) = true) ws ->
  trim_end_from 0 "" (spaced ws ++ rest)
  = (spaced ws ++ trim_end_from 0 "" rest)%string.
Proof.
  induction 1 as [| p ws [(Hb & _ & Hs & Hn) Hf] F IH]; [reflexivity |].
  simpl. rewrite !text_app_assoc.
  rewrite trim_end_blank by exact Hb.
  rewrite trim_end_word by assumption.
  now rewrite IH.
Qed.

Lemma trim_end_field f rest :
  is_field f ->
  trim_end_from 0 "" (f ++ rest) = (f ++ trim_end_from 0 "" rest)%string.
Proof.
  intros (w & ws & -> & (Hs & Hn & Hf) & F).
  rewrite !text_app_assoc.
  rewrite trim_end_word by assumption.
  now rewrite trim_end_spaced.
Qed.

Lemma field_starts f rest :
  is_field f -> trim_start_from 0 (f ++ rest) = (f ++ rest)%string.
Proof.
  intros (w & ws & -> & (Hs & Hn & Hf) & F).
  rewrite !text_app_assoc. now apply trim_start_word.
Qed.

Lemma field_nonempty f : is_field f -> f <> "".
Proof.
  intros (w & ws & -> & (_ & Hn & _) & _).
  destruct w; [now contradiction Hn | discriminate].
Qed.

(** A field is a trimmed text. *)
Lemma trim_field f : is_field f -> trim f = f.
Proof.
  intro H. unfold trim.
  rewrite <- (text_app_nil f) at 1.
  rewrite field_starts by exact H.
  rewrite trim_end_field by exact H.
  simpl. apply text_app_nil.
Qed.

Lemma split_bar_word w : forall cur rest,
  bar_free w = true ->
  split_bar_from cur (w ++ rest) = split_bar_from (cur ++ w) rest.
Proof.
  induction w as [| a r IH]; intros cur rest H.
  - simpl. now rewrite text_app_nil.
  - destruct (bar_free_cons a r H) as (Ha & Hr & _).
    simpl. rewrite Ha, IH by exact Hr. now rewrite text_app_assoc.
Qed.

Lemma split_bar_blank b : forall cur rest,
  blank b = true ->
  split_bar_from cur (b ++ rest) = split_bar_from (cur ++ b) rest.
Proof.
  induction b as [| a r IH]; intros cur rest H.
  - simpl. now rewrite text_app_nil.
  - simpl in H. apply andb_true_iff in H. destruct H as [Ha Hr].
    destruct (blank_char a Ha) as (K & _).
    simpl. rewrite K, IH by exact Hr. now rewrite text_app_assoc.
Qed.

Lemma split_bar_spaced ws : forall cur rest,
  Forall (fun p => spaced_ok p /\ bar_free (snd p) = true) ws ->
  split_bar_from cur (spaced ws ++ rest) = split_bar_from (cur ++ spaced ws) rest.
Proof.
  induction ws as [| p ws IH]; intros cur rest F.
  - simpl. now rewrite text_app_nil.
  - inversion F as [| ? ? [(Hb & _ & _ & _) Hf] F']; subst.
    simpl. rewrite !text_app_assoc.
    rewrite split_bar_blank by exact Hb.
    rewrite split_bar_word by exact Hf.
    rewrite IH by exact F'. now rewrite !text_app_assoc.
Qed.

Lemma split_bar_field f cur rest :
  is_field f -> split_bar_from cur (f ++ rest) = split_bar_from (cur ++ f) rest.
Proof.
  intros (w & ws & -> & (_ & _ & Hw) & F).
  rewrite !text_app_assoc.
  rewrite split_bar_word by exact Hw.
  rewrite split_bar_spaced by exact F. now rewrite !text_app_assoc.
Qed.

Lemma num_is_field z : is_field (num_to_string z).
Proof.
  exists (num_to_string z), []. simpl. rewrite text_app_nil.
  destruct (solid_num z) as [S N].
  repeat split; auto. apply bar_free_num.
Qed.

Lemma at_least_one z : 1 <= z -> js_lt (js_int z) 1 = false.
Proof.
  intro H. unfold js_lt, js_int. apply negb_false_iff.
  apply Qle_bool_iff. now rewrite <- Zle_Qle.
Qed.

Lemma trim_end_bar r :
  trim_end_from 0 "" (String "|" r) = String "|" (trim_end_from 0 "" r).
Proof. now rewrite trim_end_cons, plain_width. Qed.

(** The fields of a quick-create line, once the prefix and the white
    space around the bars are taken off. *)
Lemma giveaway_line_fields mention sep n b1 t b2 pz b3 sp trail :
  is_mention mention -> blank sep = true -> sep <> "" ->
  is_field t -> is_field pz -> is_field sp ->
  pad_ok b1 -> pad_ok b2 -> pad_ok b3 -> blank trail = true ->
  split_bar
    (trim (tighten_bars (replace_fullwidth (strip_giveaway_prefix
       (giveaway_line mention sep n b1 t b2 pz b3 sp trail)))))
  = [num_to_string n; t; pz; sp].
Proof.
  intros Hm Hs Hsn Ft Fp Fs P1 P2 P3 Htr.
  pose proof (num_is_field n) as Fn.
  destruct (solid_num n) as [Sn Nn].
  unfold giveaway_line.
  rewrite strip_giveaway_prefix_line by assumption.
  unfold replace_fullwidth, tighten_bars.
  rewrite replace_fullwidth_field, replace_fullwidth_bar,
    replace_fullwidth_field, replace_fullwidth_bar,
    replace_fullwidth_field, replace_fullwidth_bar,
    replace_fullwidth_field by assumption.
  rewrite <- (text_app_nil trail).
  rewrite replace_fullwidth_blank by exact Htr.
  change (replace_fullwidth_from 0 "") with "".
  rewrite tighten_bars_field, tighten_bars_bar,
    tighten_bars_field, tighten_bars_bar,
    tighten_bars_field, tighten_bars_bar,
    tighten_bars_field by assumption.
  rewrite tighten_bars_blank by exact Htr.
  change (tighten_bars_from 0 false ("" ++ trail) "") with trail.
  unfold trim.
  rewrite field_starts by exact Fn.
  rewrite trim_end_field, trim_end_bar, trim_end_field, trim_end_bar,
    trim_end_field, trim_end_bar, trim_end_field by assumption.
  rewrite <- (text_app_nil trail).
  rewrite trim_end_blank by exact Htr.
  change (trim_end_from 0 ("" ++ trail) "") with "".
  unfold split_bar.
  rewrite split_bar_field by exact Fn. cbn [split_bar_from].
  change (Ascii.eqb "|" "|") with true. cbv iota.
  rewrite split_bar_field by exact Ft. cbn [split_bar_from].
  change (Ascii.eqb "|" "|") with true. cbv iota.
  rewrite split_bar_field by exact Fp. cbn [split_bar_from].
  change (Ascii.eqb "|" "|") with true. cbv iota.
  rewrite split_bar_field by exact Fs. cbn [split_bar_from].
  reflexivity.
Qed.

(** A quick-create line is read as it was written: the number of
    winners, the time the strict parser reads from the second field, and
    the prize and the sponsor with the white space they have between
    their words; the mention of the bot and the white space around the
    bars and at the end make no difference. *)
Theorem quick_create_reads_its_fields mention sep n b1 t b2 pz b3 sp trail e :
  is_mention mention -> blank sep = true -> sep <> "" ->
  1 <= n <= 9007199254740992 ->
  is_field t -> is_field pz -> is_field sp ->
  pad_ok b1 -> pad_ok b2 -> pad_ok b3 -> blank trail = true ->
  parse_time t = Some e ->
  let line := giveaway_line mention sep n b1 t b2 pz b3 sp trail in
  parseGiveawayArgs line = inr (mkGiveawayArgs (js_int n) e pz sp)
  /\ forall c d tg,
       isAdmin (from_id c) = true -> chat_private c = true ->
       getDefaultGroupId (settings d) = Some tg -> js_not tg = false ->
       dialogue_step (UGiveaway c line) d
       = {| left := d; said := [];
            call := Some (mkCreateCall c tg (js_int n) e pz sp, []) |}.
Proof.
  intros Hm Hs Hsn Hn Ft Fp Fs P1 P2 P3 Htr He line.
  assert (P : parseGiveawayArgs line = inr (mkGiveawayArgs (js_int n) e pz sp));
    [| split; [exact P |];
       intros c d tg Ha Hp Hg Hz; cbn [dialogue_step]; unfold cmd_giveaway;
       rewrite Ha, Hp, Hg, Hz, P; reflexivity].
  subst line.
  pose proof (num_is_field n) as Fn.
  unfold parseGiveawayArgs. cbv zeta.
  rewrite giveaway_line_fields by assumption.
  cbn [List.length nth last firstn skipn String.concat Nat.sub].
  change (Z.of_nat 4 <? 4) with false. cbv iota.
  rewrite !trim_field by assumption.
  rewrite js_number_num by lia.
  rewrite at_least_one by lia.
  cbn [js_isFinite js_int negb orb]. rewrite He.
  apply field_nonempty in Fp. apply field_nonempty in Fs.
  apply String.eqb_neq in Fp. apply String.eqb_neq in Fs.
  now rewrite Fp, Fs.
Qed.

(** ** Commands on an id that names no giveaway *)

Lemma with_id_cases {R : Type} n (run : Z -> R) missing :
  with_id n run missing = missing
  \/ with_id n run missing = run 0
  \/ exists z, z <> 0 /\ as_integer n = Some z /\ with_id n run missing = run z.
Proof.
  destruct n as [| b | q]; [right; now left | now left |].
  unfold with_id. destruct (as_integer (JFin q)) as [z |]; [| now left].
  destruct (Z.eq_dec z 0) as [-> | Hz]; [right; now left |].
  right; right. exists z. auto.
Qed.

(** A command line changes nothing and is answered with one message to
    its sender when its id names no giveaway: when the id is missing or
    zero, is not a number, is not an integer, or is the key of no row.
    The same holds of [/help] and [/history]. *)
Theorem commands_on_no_row_only_reply c now text sys sys' out :
  router c now text sys = Some (sys', out) ->
  (forall z, as_integer (arg_id text) = Some z -> z <> 0 ->
     get_giveaway z (store sys) = None) ->
  sys' = sys /\ exists m, out = [Reply c (MsgText m)].
Proof.
  intros H Hrow. unfold router in H.
  destruct (negb (is_command (getCmd text))); [discriminate |].
  destruct (String.eqb (getCmd text) "/help"); [inversion H; subst; eauto |].
  destruct (negb (isAdmin (from_id c))) eqn:Ha; [discriminate |].
  destruct (String.eqb (getCmd text) "/history").
  { inversion H; subst. unfold cmd_history. rewrite Ha. eauto. }
  destruct sys as [st ts]. cbn [store] in Hrow.
  destruct (String.eqb (getCmd text) "/ginfo").
  { inversion H as [H1]. clear H.
    match type of H1 with
    | with_id ?n ?r ?m = _ =>
        destruct (with_id_cases n r m) as [E | [E | (z & Hz & Ez & E)]];
          rewrite E in H1; clear E
    end; cbn [step store tasks] in H1; unfold cmd_ginfo in H1; try rewrite Ha in H1.
    - inversion H1; subst; eauto.
    - cbn in H1. inversion H1; subst; eauto.
    - apply Z.eqb_neq in Hz as Hz'. rewrite Hz', (Hrow z Ez Hz) in H1.
      inversion H1; subst; eauto. }
  destruct (String.eqb (getCmd text) "/proof").
  { inversion H as [H1]. clear H.
    match type of H1 with
    | with_id ?n ?r ?m = _ =>
        destruct (with_id_cases n r m) as [E | [E | (z & Hz & Ez & E)]];
          rewrite E in H1; clear E
    end; cbn [step store tasks] in H1; unfold cmd_proof in H1; try rewrite Ha in H1.
    - inversion H1; subst; eauto.
    - destruct (negb (chat_private c)); cbn in H1; inversion H1; subst; eauto.
    - apply Z.eqb_neq in Hz as Hz'. rewrite Hz', (Hrow z Ez Hz) in H1.
      destruct (negb (chat_private c)); cbn in H1; inversion H1; subst; eauto. }
  destruct (String.eqb (getCmd text) "/cancel").
  { inversion H as [H1]. clear H.
    match type of H1 with
    | with_id ?n ?r ?m = _ =>
        destruct (with_id_cases n r m) as [E | [E | (z & Hz & Ez & E)]];
          rewrite E in H1; clear E
    end; cbn [step store tasks] in H1; unfold cmd_cancel in H1; try rewrite Ha in H1.
    - inversion H1; subst; eauto.
    - cbn in H1. inversion H1; subst; eauto.
    - apply Z.eqb_neq in Hz as Hz'. rewrite Hz', (Hrow z Ez Hz) in H1.
      inversion H1; subst; eauto. }
  destruct (String.eqb (getCmd text) "/announce"); [| discriminate].
  inversion H as [H1]. clear H.
  match type of H1 with
  | with_id ?n ?r ?m = _ =>
      destruct (with_id_cases n r m) as [E | [E | (z & Hz & Ez & E)]];
        rewrite E in H1; clear E
  end; cbn [step store tasks] in H1; unfold cmd_announce in H1; try rewrite Ha in H1.
  - inversion H1; subst; eauto.
  - destruct (negb (chat_private c)); cbn in H1; rewrite ?app_nil_r in H1;
      inversion H1; subst; eauto.
  - apply Z.eqb_neq in Hz as Hz'. rewrite Hz', (Hrow z Ez Hz) in H1.
    destruct (negb (chat_private c)); cbn in H1; rewrite ?app_nil_r in H1;
      inversion H1; subst; eauto.
Qed.

(** ** One form for each user *)

Lemma getForm_set_other uid uid' f forms :
  uid' <> uid -> getForm uid' (set_form uid f forms) = getForm uid' forms.
Proof.
  intro Hne. unfold getForm. induction forms as [| e forms IH]; simpl.
  - apply Z.eqb_neq in Hne. rewrite Z.eqb_sym in Hne. now rewrite Hne.
  - destruct (fst e =? uid) eqn:E; simpl.
    + apply Z.eqb_eq in E. rewrite E.
      assert (E' : (uid =? uid') = false) by (apply Z.eqb_neq; congruence).
      now rewrite E'.
    + destruct (fst e =? uid'); [reflexivity | exact IH].
Qed.

Lemma getForm_stop_other uid uid' forms :
  uid' <> uid -> getForm uid' (stopForm uid forms) = getForm uid' forms.
Proof.
  intro Hne. unfold getForm, stopForm. induction forms as [| e forms IH]; simpl;
    [reflexivity |].
  destruct (fst e =? uid) eqn:E; simpl.
  - apply Z.eqb_eq in E. rewrite E.
    assert (E' : (uid =? uid') = false) by (apply Z.eqb_neq; congruence).
    now rewrite E'.
  - destruct (fst e =? uid'); [reflexivity | exact IH].
Qed.

(** An update touches the form of its sender only, and only [/setgroup]
    touches the settings: whatever another user sends, the form of a
    user is found as it was. *)
Theorem forms_are_per_user u d uid :
  (uid <> from_id (update_ctx u) ->
   getForm uid (formState (left (dialogue_step u d))) = getForm uid (formState d))
  /\ ((forall c chat, u <> USetGroup c chat) ->
      settings (left (dialogue_step u d)) = settings d).
Proof.
  assert (Put : forall f,
            uid <> from_id (update_ctx u) ->
            getForm uid (set_form (from_id (update_ctx u)) f (formState d))
            = getForm uid (formState d))
    by (intros f H; now apply getForm_set_other).
  assert (Stop : uid <> from_id (update_ctx u) ->
                 getForm uid (stopForm (from_id (update_ctx u)) (formState d))
                 = getForm uid (formState d))
    by (intro H; now apply getForm_stop_other).
  destruct u as [c chat | c | c | c | c message | c now message | c n edited | c edited
                | c | c edited]; cbn [dialogue_step update_ctx] in *.
  - split; [intros _ | intro H; now contradiction (H c chat)].
    unfold cmd_setgroup.
    destruct (negb (isAdmin (from_id c))); [reflexivity |].
    destruct (chat_private c); reflexivity.
  - unfold cmd_group. destruct (negb (isAdmin (from_id c))); split; reflexivity.
  - unfold cmd_newgiveaway.
    destruct (negb (isAdmin (from_id c))); [split; reflexivity |].
    destruct (negb (chat_private c)); [split; reflexivity |].
    destruct (no_number _); [split; reflexivity |].
    split; [intro H; now apply Put | reflexivity].
  - unfold cmd_abort.
    destruct (negb (isAdmin (from_id c))); [split; reflexivity |].
    split; [intro H; now apply Stop | reflexivity].
  - unfold cmd_giveaway.
    destruct (negb (isAdmin (from_id c))); [split; reflexivity |].
    destruct (negb (chat_private c)); [split; reflexivity |].
    destruct (getDefaultGroupId (settings d)) as [tg |]; [| split; reflexivity].
    destruct (js_not tg); [split; reflexivity |].
    destruct (parseGiveawayArgs message); split; reflexivity.
  - unfold form_text.
    destruct (getForm (from_id c) (formState d)) as [st |]; [| split; reflexivity].
    destruct (negb (chat_private c)); [split; reflexivity |].
    destruct (negb (isAdmin (from_id c))); [split; reflexivity |].
    destruct (String.eqb (trim message) "" || is_command (trim message));
      [split; reflexivity |].
    destruct (expectingCustomWinners st).
    { destruct (negb (js_isFinite (js_number (trim message)))
                || js_lt (js_number (trim message)) 1
                || js_gt (js_number (trim message)) 1000); [split; reflexivity |].
      split; [intro H; now apply Put | reflexivity]. }
    destruct (f_step st =? 2).
    { destruct (parse_time (trim message)) as [e |]; [| split; reflexivity].
      destruct (e <=? now); [split; reflexivity |].
      split; [intro H; now apply Put | reflexivity]. }
    destruct (f_step st =? 3).
    { destruct (js_length (trim message) <? 2); [split; reflexivity |].
      split; [intro H; now apply Put | reflexivity]. }
    destruct (f_step st =? 4); [| split; reflexivity].
    destruct (js_length (trim message) <? 2); [split; reflexivity |].
    split; [intro H; now apply Put | reflexivity].
  - unfold act_winners.
    destruct (getForm (from_id c) (formState d)) as [st |]; [| split; reflexivity].
    split; [intro H; now apply Put | reflexivity].
  - unfold act_custom.
    destruct (getForm (from_id c) (formState d)) as [st |]; [| split; reflexivity].
    split; [intro H; now apply Put | reflexivity].
  - split; [intro H; now apply Stop | reflexivity].
  - unfold act_confirm.
    destruct (getForm (from_id c) (formState d)) as [st |]; [| split; reflexivity].
    destruct (getDefaultGroupId (settings d)) as [tg |];
      [| split; [intro H; now apply Stop | reflexivity]].
    destruct (js_not tg); [split; [intro H; now apply Stop | reflexivity] |].
    destruct (d_winners (f_data st)) as [w |]; [| split; reflexivity].
    destruct (d_endUnix (f_data st)) as [e |]; [| split; reflexivity].
    destruct (d_prize (f_data st)) as [pr |]; [| split; reflexivity].
    destruct (d_sponsor (f_data st)) as [sp |]; [| split; reflexivity].
    destruct (js_not w || (e =? 0) || String.eqb pr "" || String.eqb sp "");
      [split; reflexivity |].
    split; [intro H; now apply Stop | reflexivity].
Qed.

(** [/abort] and the abort button take the form of the sender away: a
    text of theirs is then passed on to the router, and the confirm
    button creates nothing and is answered with the alert that the form
    has expired. *)
Theorem abort_discards_the_form c u d now message edited :
  isAdmin (from_id c) = true ->
  u = UAbort c \/ u = UFormAbort c ->
  let d1 := left (dialogue_step u d) in
  getForm (from_id c) (formState d1) = None
  /\ form_text c now message d1 = None
  /\ dialogue_step (UConfirm c edited) d1
     = says d1 [SayAnswer c txt_form_expired true].
Proof.
  intros Ha Hu d1.
  assert (G : getForm (from_id c) (formState d1) = None).
  { unfold d1. destruct Hu as [-> | ->]; cbn [dialogue_step].
    - unfold cmd_abort. rewrite Ha. apply getForm_stop.
    - apply getForm_stop. }
  split; [exact G |].
  split; [unfold form_text; now rewrite G |].
  cbn [dialogue_step]. unfold act_confirm. now rewrite G.
Qed.

(** ** The order of the entries *)

(** The draw does not depend on the order in which the entries of a
    giveaway are read. *)
Lemma draw_ignores_row_order sd gid st k rows :
  NoDup (map participant_key (participants st)) ->
  Permutation (participants_of gid st) rows ->
  (rows = [] <-> participants_of gid st = [])
  /\ pickWinnersDeterministic sd gid rows k
     = pickWinnersDeterministic sd gid (participants_of gid st) k.
Proof.
  intros N P. split.
  - split; intro E; rewrite E in P.
    + now apply Permutation_sym, Permutation_nil in P.
    + now apply Permutation_nil in P.
  - unfold pickWinnersDeterministic. cbv zeta.
    rewrite (ranked_sort_unique sd gid (participants_of gid st) rows);
      [reflexivity | now apply participants_of_distinct | exact P].
Qed.

End Properties.

(** * The definitions at work on concrete inputs

    From here on the environment is [example_env], and the conversions
    of numbers and times are those of [example_js]. *)

Existing Instance example_env.
Existing Instance example_js.

(** The selector on four participants and a count of two and a half. *)
Lemma pickWinnersDeterministic_spec_witness :
  (exists sorted,
     Permutation (map (fun r => (r_user_id r, r_name r)) sorted)
                 (map (fun p => (user_id p, name p)) four_users)
     /\ Forall (fun r =>
                  rank r
                  = hmacSha256Hex "k"
                      (num_to_string 42 ++ ":" ++ num_to_string (r_user_id r))%string)
               sorted
     /\ StronglySorted
          (fun a b =>
             String_as_OT.lt (rank a) (rank b)
             \/ (rank a = rank b /\ r_user_id a <= r_user_id b))
          sorted
     /\ pickWinnersDeterministic "k" 42 four_users (5 # 2)
        = firstn 2 sorted)
  /\ pickWinnersDeterministic "k" 42 (rev four_users) (5 # 2)
     = pickWinnersDeterministic "k" 42 four_users (5 # 2).
Proof.
  destruct (pickWinnersDeterministic_spec "k" 42 four_users (5 # 2)) as (A & B & _).
  split.
  - apply A. discriminate.
  - apply B.
    + repeat constructor; simpl; intuition discriminate.
    + apply Permutation_rev.
Defined.

Example pick_four_users :
  map r_user_id (pickWinnersDeterministic "k" 42 four_users 3) = [10; 21; 1]
  /\ map r_user_id (pickWinnersDeterministic "k" 42 four_users (5 # 2)) = [10; 21].
Proof. split; reflexivity. Qed.



Example draw_rolled_back :
  let st := store (fst (run one_entry init_sys)) in
  tick_body 100 second_statement_throws row_one_open st
  = (st, None, [LogError "AUTO_ANNOUNCE_FAIL" 1]).
Proof. reflexivity. Qed.

Example draw_committed :
  let st := store (fst (run one_entry init_sys)) in
  let st' := fst (fst (tick_body 100 no_faults row_one_open st)) in
  winners_tbl st' = [mkWinnerRow 1 101 "Ann"]
  /\ giveaways st' = [set_ended 100 row_one_open].
Proof. split; reflexivity. Qed.

(** The commitment of giveaway 1: in the state after its creation, through
    a run that goes on to cancel giveaway 2 and to draw and announce
    both, and at the step that inserts its row. *)
Lemma commitment_binding_witness :
  committed row_one_open
  /\ (exists new,
        map commitment (giveaways (store (fst (run tick_goes_on init_sys))))
        = (1, Some "5eed01", Some "10dee5") :: new)
  /\ (committed row_one_open
      /\ participants_of 1 (store (fst (run (firstn 2 open_one) init_sys))) = []).
Proof.
  split; [| split].
  - destruct (commitment_binding open_one) as (A & _).
    apply A. simpl. now left.
  - destruct (commitment_binding open_one) as (_ & B & _).
    destruct (B (skipn 3 tick_goes_on)) as [new E].
    exists new.
    change (fst (run tick_goes_on init_sys))
      with (fst (run (skipn 3 tick_goes_on) (fst (run open_one init_sys)))).
    rewrite E. reflexivity.
  - destruct (commitment_binding (firstn 1 open_one)) as (_ & _ & C).
    apply (C (Resume 0 10 (Some 7) no_faults) row_one_open).
    + simpl. now left.
    + simpl. tauto.
Defined.

(** The proof view of giveaway 1 once it is drawn and while it is open,
    and its delivery by [/proof]. *)
Lemma proof_view_reveal_policy_witness :
  shows_field (buildProofText row_one_announced) "🔓 <b>Seed:</b> " "5eed01"
  /\ (shows_field (buildProofText row_one_open) "🔓 <b>Seed:</b> " txt_seed_hidden
      /\ forall sd', buildProofText (with_seed sd' row_one_open)
                     = buildProofText row_one_open)
  /\ ((exists sd', buildProofText (with_seed sd' row_one_announced)
                   <> buildProofText row_one_announced)
      <-> ended row_one_announced = 1 /\ canceled row_one_announced = 0)
  /\ shows_field (buildProofText row_one_open) "🔒 <b>Commit:</b> " "10dee5"
  /\ private_delivery (Reply operator (MsgProof (buildProofText row_one_open))).
Proof.
  destruct proof_view_reveal_policy as (A & B & C & D & E).
  split; [| split; [| split; [| split]]].
  - apply (A row_one_announced "5eed01");
      [reflexivity | discriminate | reflexivity | reflexivity].
  - apply (B row_one_open). now left.
  - apply (C row_one_announced); [now right | now left].
  - apply (D row_one_open "10dee5"); [reflexivity | discriminate].
  - apply (E (CmdProof operator 1) (fst (run open_one init_sys)));
      [simpl; now left | reflexivity].
Defined.

Example proof_text_hides_seed_while_open :
  buildProofText (with_seed (Some "another seed") row_one_open)
  = buildProofText row_one_open.
Proof. reflexivity. Qed.

(** Ann joins giveaway 1 and then tries again: her first attempt passes
    the guard, its resumption writes her entry, the second attempt is
    answered with the already-joined alert and changes nothing, and her
    entry is still there after a later tick. *)
Lemma join_guard_and_no_double_join_witness :
  let sys0 := fst (run open_one init_sys) in
  let sys1 := fst (run (open_one ++ [ActJoin ann 50 1]) init_sys) in
  let st := store (fst (run one_entry init_sys)) in
  (exists g,
     get_giveaway 1 (store sys0) = Some g
     /\ ended g = 0 /\ canceled g = 0 /\ 50 < end_time g
     /\ JoinMemberAsked ann 1 row_one_open 50 = JoinMemberAsked ann 1 g 50)
  /\ (exists i now r faults c gid g jnow,
        Resume 0 51 (Some 1) no_faults = Resume i now r faults
        /\ nth_error (tasks sys1) i = Some (JoinMemberAsked c gid g jnow)
        /\ id g = gid /\ ended g = 0 /\ canceled g = 0 /\ jnow < end_time g
        /\ member_ok r = true
        /\ has_participant gid (from_id c) (store sys1) = false
        /\ participants (store (fst (step (Resume 0 51 (Some 1) no_faults) sys1)))
           = participants (store sys1)
             ++ [mkParticipantRow gid (from_id c) (join_name c) jnow])
  /\ (join_finish ann 1 row_one_open 60 (Some 1) st
      = (st, [AnswerCbQuery ann txt_join_already])
      /\ count_participants 1 st = 1)
  /\ has_participant 1 101
       (store (fst (step (Tick 100 no_faults) (fst (run one_entry init_sys))))) = true.
Proof.
  intros sys0 sys1 st.
  split; [| split; [| split]].
  - destruct (join_guard_and_no_double_join open_one) as (A & _).
    apply (A ann 50 1 (JoinMemberAsked ann 1 row_one_open 50)
             [GetChatMember (-500) 101]).
    reflexivity.
  - destruct (join_guard_and_no_double_join (open_one ++ [ActJoin ann 50 1]))
      as (_ & B & _).
    apply (B (Resume 0 51 (Some 1) no_faults)). discriminate.
  - destruct (join_guard_and_no_double_join one_entry) as (_ & _ & C & _).
    destruct (C ann 1 row_one_open 60 (Some 1) eq_refl) as [S O].
    specialize (O eq_refl). fold st in S, O.
    split; [| reflexivity].
    destruct (join_finish ann 1 row_one_open 60 (Some 1) st) as [s o].
    simpl in S, O. now subst.
  - destruct (join_guard_and_no_double_join one_entry) as (_ & _ & _ & D & _).
    apply (D (Tick 100 no_faults) 1 101). reflexivity.
Defined.

Example second_join_end_to_end :
  let sys := fst (run one_entry init_sys) in
  run [ActJoin ann 60 1; Resume 0 61 (Some 1) no_faults] sys
  = (sys, [GetChatMember (-500) 101; AnswerCbQuery ann txt_join_already]).
Proof. reflexivity. Qed.

Example join_after_close_refused :
  let sys := fst (run open_one init_sys) in
  run [ActJoin ann 100 1] sys = (sys, [AnswerCbQuery ann txt_join_closed]).
Proof. reflexivity. Qed.

(** A creation whose group post cannot be sent, and one whose post is
    sent: only the latter adds a row. *)
Lemma create_inserts_only_after_post_witness :
  let sys := fst (run [Create operator (-500) (inject_Z 1) 100 "Prize" "Sponsor" "5eed01"] init_sys) in
  (store (fst (step (Resume 0 10 None no_faults) sys)) = empty_store
   /\ snd (step (Resume 0 10 None no_faults) sys)
      = [Reply operator (MsgText txt_create_failed)])
  /\ store (fst (step (Resume 0 10 (Some 7) no_faults) sys))
     = fst (insert_giveaway (-500) 7 "Prize" "Sponsor" 1 100 10 "5eed01" "10dee5"
              empty_store)
  /\ (exists i now mid faults c tg w endUnix pr sp sd sh,
        Resume 0 10 (Some 7) no_faults = Resume i now (Some mid) faults
        /\ nth_error (tasks sys) i = Some (CreateSent c tg w endUnix pr sp sd sh)
        /\ store (fst (step (Resume 0 10 (Some 7) no_faults) sys))
           = fst (insert_giveaway tg mid pr sp w endUnix now sd sh (store sys))).
Proof.
  intro sys.
  destruct (create_inserts_only_after_post
              [Create operator (-500) (inject_Z 1) 100 "Prize" "Sponsor" "5eed01"])
    as (_ & B & C & D).
  split; [| split].
  - exact (B 0%nat 10 no_faults operator (-500) (inject_Z 1) 100 "Prize" "Sponsor" "5eed01" "10dee5"
             eq_refl).
  - exact (C 0%nat 10 7 no_faults operator (-500) (inject_Z 1) 100 "Prize" "Sponsor" "5eed01" "10dee5"
             eq_refl).
  - apply (D (Resume 0 10 (Some 7) no_faults)). discriminate.
Defined.

Example create_row_after_post :
  giveaways (store (fst (run open_one init_sys))) = [row_one_open].
Proof. reflexivity. Qed.

(** C4 does not hold as stated: the scheduler announces giveaway 1 at its
    tick of time 100; the manual announce run afterwards publishes the
    winners again and moves [announced_at] to 200. *)
Lemma manual_announce_overwrites_announced_at :
  option_map (fun g => (announced g, announced_at g))
    (get_giveaway 1 (store (fst (run announced_one init_sys))))
  = Some (1, Some 100)
  /\ option_map (fun g => (announced g, announced_at g))
       (get_giveaway 1 (store (fst (run announced_twice init_sys))))
     = Some (1, Some 200)
  /\ snd (run [CmdAnnounce operator 1] (fst (run announced_one init_sys)))
     = [SendMessage (-500) (MsgWinners row_one_announced [mkUser 101 "Ann"])].
Proof. repeat split; reflexivity. Qed.

(** Giveaway 1 once the scheduler has announced it: a later tick, a
    [/cancel] and the manual announce. *)
Lemma lifecycle_guards_in_handlers_witness :
  let st := store (fst (run announced_one init_sys)) in
  let st' := fst (drawAndAnnounce_complete 300 no_faults (fun _ => Some 12) st) in
  (exists g',
     get_giveaway 1 st' = Some g'
     /\ draw_kept row_one_announced g'
     /\ winners_of 1 st' = winners_of 1 st)
  /\ (get_giveaway 1 st' = Some row_one_announced
      /\ winners_of 1 st' = winners_of 1 st)
  /\ fst (cmd_cancel operator 300 1 "late" st) = st
  /\ (cmd_announce operator 1 st
      = (Some (AnnounceSent operator 1 row_one_announced),
         [SendMessage (-500) (MsgWinners row_one_announced (winners_of 1 st))])
      /\ get_giveaway 1
           (fst (announce_finish operator 1 row_one_announced 200 (Some 11) st))
         = Some (set_announced 200 row_one_announced)).
Proof.
  intros st st'.
  destruct (lifecycle_guards_in_handlers announced_one) as (A & B & C & D).
  split; [| split; [| split]].
  - apply (A 300 no_faults (fun _ => Some 12) row_one_announced); reflexivity.
  - apply (B 300 no_faults (fun _ => Some 12) row_one_announced); reflexivity.
  - apply (C operator 300 1 "late" row_one_announced); [reflexivity | now left].
  - apply (D operator 1 row_one_announced 200 11);
      try reflexivity; discriminate.
Defined.

Example tick_leaves_announced_row :
  let st := store (fst (run announced_one init_sys)) in
  drawAndAnnounce_complete
    300 no_faults (fun _ => Some 12) st
  = (st, []).
Proof. reflexivity. Qed.

Example cancel_after_draw_refused :
  let st := store (fst (run announced_one init_sys)) in
  cmd_cancel operator 300 1 "late" st
  = (st, [Reply operator (MsgText txt_cancel_ended)]).
Proof. reflexivity. Qed.

(** C2, where the code departs from the statement.  When the send of the
    winners fails, the next tick sends the stored batch again and draws
    nothing.  When the send of the no-entrants notice fails, the next
    tick sends nothing: it finds no winners rows, logs that and goes on
    to the next giveaway. *)
Theorem failed_notice_is_not_sent_again :
  (let sys := fst (run winners_fail init_sys) in
   step (Tick 130 no_faults) sys
   = ({| store := store sys;
         tasks := [TickWinnersSent 130 (set_ended 100 row_one_open)
                     (set_ended 100 row_one_open) []] |},
      [SendMessage (-500) (MsgWinners (set_ended 100 row_one_open) [mkUser 101 "Ann"])]))
  /\ (let sys := fst (run notice_fails init_sys) in
      step (Tick 130 no_faults) sys
      = (sys, [LogError "AUTO_ANNOUNCE_NO_WINNERS_IN_DB" 1])).
Proof. split; reflexivity. Qed.

(** C8, where the code departs from the statement.  Giveaway 1 closes with no
    entrant and the one send of the notice fails: the row is ended and
    not announced, no winners row exists, and however many ticks follow,
    at whatever later times, each of them only logs the missing winners:
    the notice is never sent again and [announced] stays 0. *)
Theorem no_entrants_notice_lost :
  let sys := fst (run notice_fails init_sys) in
  snd (run (skipn 3 notice_fails) (fst (run open_one init_sys)))
  = [SendMessage (-500) (MsgEmpty 1 "Prize" "Sponsor"); LogError "AUTO_ANNOUNCE_FAIL" 1]
  /\ option_map (fun g => (ended g, announced g, announced_at g))
       (get_giveaway 1 (store sys))
     = Some (1, 0, None)
  /\ winners_of 1 (store sys) = []
  /\ (forall delays,
        run (later_ticks delays) sys
        = (sys, map (fun _ => LogError "AUTO_ANNOUNCE_NO_WINNERS_IN_DB" 1) delays)).
Proof.
  intro sys.
  split; [reflexivity |]. split; [reflexivity |]. split; [reflexivity |].
  assert (Hstep : forall d,
             step (Tick (100 + Z.of_nat d) no_faults) sys
             = (sys, [LogError "AUTO_ANNOUNCE_NO_WINNERS_IN_DB" 1])).
  { intro d.
    assert (Hd : (100 <=? 100 + Z.of_nat d) = true) by (apply Z.leb_le; lia).
    generalize dependent (100 + Z.of_nat d). intros now Hd.
    subst sys.
    let s := eval vm_compute in (fst (run notice_fails init_sys)) in
    change (fst (run notice_fails init_sys)) with s.
    unfold step, drawAndAnnounce, due_query.
    cbn [store giveaways filter canceled end_time announced Z.eqb andb].
    rewrite Hd. reflexivity. }
  induction delays as [| d delays IH]; [reflexivity |].
  change (run (later_ticks (d :: delays)) sys)
    with (let '(sys1, out) := step (Tick (100 + Z.of_nat d) no_faults) sys in
          let '(sys2, out2) := run (later_ticks delays) sys1 in
          (sys2, out ++ out2)).
  rewrite Hstep, IH. reflexivity.
Qed.

(** C5, where the code departs from the statement.  The tick of time 100 reads
    giveaways 1 and 2 as pending and waits for the public send of
    giveaway 1; the operator cancels giveaway 2 in the meantime; the tick
    then goes on with the row of giveaway 2 it read at its start, draws
    it, publishes its winner and marks it announced. *)
Theorem stale_tick_announces_canceled :
  option_map (fun g => (canceled g, ended_at g, announced g))
    (get_giveaway 2 (store (fst (run cancel_during_tick init_sys))))
  = Some (1, Some 101, 0)
  /\ winners_of 2 (store (fst (run cancel_during_tick init_sys))) = []
  /\ option_map (fun g => (canceled g, ended_at g, announced g))
       (get_giveaway 2 (store (fst (run tick_goes_on init_sys))))
     = Some (1, Some 100, 1)
  /\ winners_of 2 (store (fst (run tick_goes_on init_sys))) = [mkUser 102 "bob"]
  /\ existsb (fun o => match o with
                       | SendMessage _ (MsgWinners g ws) => (id g =? 2) && (canceled g =? 1)
                       | _ => false
                       end)
       (snd (run tick_goes_on init_sys)) = true.
Proof. repeat split; reflexivity. Qed.



(** The step that announces giveaway 1 is the resumption of the tick
    that waited for its public send. *)
Lemma announced_only_after_success_witness :
  let sys := fst (run (one_entry ++ [Tick 100 no_faults]) init_sys) in
  exists i now v faults t,
    Resume 0 101 (Some 9) no_faults = Resume i now (Some v) faults
    /\ nth_error (tasks sys) i = Some t
    /\ awaits_public_send 1 t.
Proof.
  intro sys.
  apply (announced_only_after_success (Resume 0 101 (Some 9) no_faults) sys 1
           (set_ended 100 row_one_open) row_one_announced);
    [reflexivity | reflexivity | left; discriminate].
Defined.

(** A canceled giveaway on which a tick and a manual announce are tried. *)
Lemma cancellation_final_without_interleaving_witness :
  let g := set_canceled 20 "withdrawn" row_one_open in
  (canceled g = 1 ->
   announced g = 0 /\ winners_of (id g) (turns cancel_then_try empty_store) = []
   /\ ended g = 1)
  /\ (announced g = 1 -> ended g = 1).
Proof.
  intro g.
  apply (cancellation_final_without_interleaving cancel_then_try g).
  simpl. now left.
Defined.

Example canceled_row_after_turns :
  giveaways (turns cancel_then_try empty_store)
  = [set_canceled 20 "withdrawn" row_one_open].
Proof. reflexivity. Qed.

(** The winner of giveaway 1 is its one entrant, in the table and in the
    text of a manual announce. *)
Lemma winners_are_entrants_witness :
  let sys := fst (run announced_one init_sys) in
  In (mkUser 101 "Ann") (participants_of 1 (store sys))
  /\ In (mkUser 101 "Ann")
        (participants_of 1 (store (fst (step (CmdAnnounce operator 1) sys)))).
Proof.
  intro sys.
  destruct (winners_are_entrants announced_one) as [A B].
  split.
  - apply A. vm_compute. left. reflexivity.
  - apply (B (CmdAnnounce operator 1) (-500) row_one_announced [mkUser 101 "Ann"]).
    + vm_compute. left. reflexivity.
    + left. reflexivity.
Defined.

(** Giveaway 1, closing at time 100, was drawn by the tick of time 100. *)
Lemma no_draw_before_close_time_witness :
  let g := row_one_announced in
  (ended g = 1 -> canceled g = 0 ->
   exists t, ended_at g = Some t /\ end_time g <= t)
  /\ (winners_of (id g) (store (fst (run announced_one init_sys))) <> [] ->
      ended g = 1 /\ exists t, ended_at g = Some t /\ end_time g <= t)
  /\ (announced g = 1 -> ended g = 1).
Proof.
  intro g.
  apply (no_draw_before_close_time announced_one g).
  vm_compute. left. reflexivity.
Defined.

(** A giveaway of two and a half winners after its draw among three
    entries: two winners are stored, the selection on the entries. *)
Lemma stored_winners_are_the_selection_witness :
  let st := turns fraction_drawn empty_store in
  let g := hd row_one_open (giveaways st) in
  winners g = 5 # 2
  /\ (exists sd,
        seed g = Some sd /\ seed_hash g = Some (sha256Hex sd)
        /\ winners_of (id g) st
           = map to_user
               (pickWinnersDeterministic sd (id g) (participants_of (id g) st)
                  (winners g)))
  /\ NoDup (map user_id (winners_of (id g) st))
  /\ Z.of_nat (List.length (winners_of (id g) st)) = 2.
Proof.
  intros st g.
  destruct (stored_winners_are_the_selection fraction_drawn g) as (A & B & C);
    [vm_compute; left; reflexivity | reflexivity | reflexivity |].
  split; [reflexivity |]. split; [exact A |]. split; [exact B |].
  etransitivity; [apply C; discriminate | reflexivity].
Defined.

Example winners_after_turns :
  winners_of 1 (turns drawn_in_turn empty_store) = [mkUser 101 "Ann"].
Proof. reflexivity. Qed.

(** A text with markup and an ampersand, escaped. *)
Lemma escHtml_keeps_markup_out_witness :
  angle_count (escHtml "<b>Tom & Jerry</b>") = 0%nat
  /\ "&"%char <> ascii_of_nat 34
  /\ "<i>" = "<i>".
Proof.
  destruct escHtml_keeps_markup_out as (A & B & _ & D).
  split; [apply A |]. split.
  - apply (B "<b>"). simpl. left. reflexivity.
  - apply D. reflexivity.
Defined.

Example escHtml_on_markup :
  escHtml "<b>Tom & Jerry</b>" = "&lt;b&gt;Tom &amp; Jerry&lt;/b&gt;".
Proof. reflexivity. Qed.

(** The default group written beside another setting. *)
Lemma settings_round_trip_witness :
  let s := [("other", Some "x")] in
  getSetting "default_group_id" (setSetting "default_group_id" (js_int (-1001)) s)
  = Some "-1001"
  /\ getSetting "other" (setSetting "default_group_id" (js_int (-1001)) s) = Some "x"
  /\ NoDup (map fst (setSetting "default_group_id" (js_int (-1001)) s)).
Proof.
  intro s.
  destruct (settings_round_trip "default_group_id" (js_int (-1001)) s)
    as (_ & A & B & C & _).
  split; [apply (A (-1001)); simpl; lia |]. split.
  - rewrite B; [reflexivity | discriminate].
  - apply C. repeat constructor. simpl. tauto.
Defined.

(** The history after two creations, asked by the operator and by a
    member. *)
Lemma history_lists_latest_ten_witness :
  let st := store (fst (run two_open init_sys)) in
  map id (history_query st) = [2; 1]
  /\ cmd_history operator st
     = [Reply operator (MsgText (history_text (firstn 10 (rev (giveaways st)))))]
  /\ cmd_history ann st = [].
Proof.
  intro st.
  destruct (history_lists_latest_ten two_open operator) as (A & B & _).
  destruct (history_lists_latest_ten two_open ann) as (_ & _ & C).
  fold st in A, B, C.
  split; [rewrite A; reflexivity |].
  split; [apply B; reflexivity | apply C; reflexivity].
Defined.

(** A [/cancel] line that names the bot and gives a reason of two words. *)
Lemma router_reads_command_lines_witness :
  router operator 20
    (command_line "" "/cancel" (String "@" "GiveBot") " " 1
       [(" ", "too"); ("  ", "late")] " ")
    (fst (run open_one init_sys))
  = Some (step (CmdCancel operator 20 1 "too late") (fst (run open_one init_sys))).
Proof.
  apply (router_reads_command_lines operator 20 (fst (run open_one init_sys))
           "" "/cancel" (String "@" "GiveBot") " " 1
           [(" ", "too"); ("  ", "late")] " ").
  - reflexivity.
  - reflexivity.
  - right. exists "GiveBot". repeat split; solve [reflexivity | discriminate].
  - reflexivity.
  - reflexivity.
  - discriminate.
  - reflexivity.
  - repeat constructor; simpl; discriminate.
  - simpl. lia.
Defined.

Example router_on_a_cancel_line :
  router operator 20 "/cancel@GiveBot 1 too  late " (fst (run open_one init_sys))
  = Some (step (CmdCancel operator 20 1 "too late") (fst (run open_one init_sys))).
Proof. reflexivity. Qed.

(** Ann, who is no operator, tries [/newgiveaway] and [/cancel 1]. *)
Lemma others_change_nothing_witness :
  let d := dialogue_after group_set init_dialogue in
  left (dialogue_step (UNewGiveaway ann) d) = d
  /\ call (dialogue_step (UNewGiveaway ann) d) = None
  /\ (on_text ann 20 "/cancel 1" d (fst (run open_one init_sys)) = NoneTook
      \/ on_text ann 20 "/cancel 1" d (fst (run open_one init_sys))
         = RouterTook (fst (run open_one init_sys))
             [Reply ann (MsgText (help_text false))]).
Proof.
  apply (others_change_nothing init_dialogue group_set (UNewGiveaway ann) ann 20
           "/cancel 1" (fst (run open_one init_sys))); reflexivity.
Defined.

(** The call of a quick create, once the default group is set. *)
Lemma creation_is_for_operators_witness :
  let d := dialogue_after group_set init_dialogue in
  let u := UGiveaway operator "/giveaway 2|22:00 20/01/2026|Prize|Sponsor" in
  let k := mkCreateCall operator (js_int (-500)) (js_int 2) 1768921200
             "Prize" "Sponsor" in
  k_ctx k = update_ctx u
  /\ isAdmin (from_id (k_ctx k)) = true
  /\ getDefaultGroupId (settings d) = Some (k_targetGroupId k)
  /\ js_not (k_targetGroupId k) = false
  /\ js_not (k_winners k) = false
  /\ k_prize k <> "" /\ k_sponsor k <> ""
  /\ settings (left (dialogue_step u d)) = settings d.
Proof.
  intros d u k.
  apply (creation_is_for_operators init_dialogue group_set u k []); reflexivity.
Defined.

(** The confirm button pressed twice on a filled form. *)
Lemma confirm_creates_once_witness :
  let d := dialogue_after form_filled init_dialogue in
  let d1 := left (dialogue_step (UConfirm operator true) d) in
  getForm 900 (formState d1) = None
  /\ dialogue_step (UConfirm operator true) d1
     = says d1 [SayAnswer operator txt_form_expired true].
Proof.
  intros d d1.
  eapply (confirm_creates_once operator true true d). reflexivity.
Defined.

Example confirm_on_a_filled_form :
  option_map fst
    (call (dialogue_step (UConfirm operator true)
             (dialogue_after form_filled init_dialogue)))
  = Some (mkCreateCall operator (js_int (-500)) (js_int 2) 1768921200
            "Prize" "Sponsor").
Proof. reflexivity. Qed.

(** [/setgroup] in the group of id -500, and [/group] after it. *)
Lemma setgroup_sets_the_default_group_witness :
  let d1 := left (dialogue_step (USetGroup operator_in_group (-500)) init_dialogue) in
  getDefaultGroupId (settings d1) = Some (js_int (-500))
  /\ formState d1 = []
  /\ said (dialogue_step (UGroup operator_in_group) d1)
     = [SayReply operator_in_group
          ("📌 Group mặc định: <code>" ++ num_to_string (-500) ++ "</code>")%string []].
Proof.
  intro d1.
  destruct (setgroup_sets_the_default_group operator_in_group (-500) init_dialogue)
    as [_ B]; [reflexivity | simpl; lia |].
  destruct (B eq_refl) as (B1 & B2 & B3).
  split; [exact B1 | split; [exact B2 |]].
  unfold d1. rewrite B3; [reflexivity | discriminate].
Defined.

(** The form filled and confirmed. *)
Lemma form_creates_what_was_entered_witness :
  let d6 := dialogue_after form_filled init_dialogue in
  let k := mkCreateCall operator (js_int (-500)) (js_int 2) 1768921200
             "Prize" "Sponsor" in
  (exists after, call (dialogue_step (UConfirm operator true) d6) = Some (k, after))
  /\ call_event k "5eed01"
     = Some (Create operator (-500) 2 1768921200 "Prize" "Sponsor" "5eed01")
  /\ getForm 900 (formState (left (dialogue_step (UConfirm operator true) d6)))
     = None.
Proof.
  apply (form_creates_what_was_entered operator_in_group operator (-500) 2 true
           "22:00 20/01/2026" " Prize " "Sponsor" 20 21 22 1768921200 "5eed01"
           init_dialogue);
    try reflexivity; try discriminate; try (simpl; lia);
    apply Z.leb_le; reflexivity.
Defined.

(** The line of the usage text, with a mention and some white space
    around its bars. *)
Lemma quick_create_reads_its_fields_witness :
  let line :=
    giveaway_line (String "@" "GiveBot") " " 3 (" ", " ") "22:00 20/01/2026"
      ("", "") "ADMIN CHATGPT" ("", " ") "@zaaraowo" " " in
  parseGiveawayArgs line
  = inr (mkGiveawayArgs (js_int 3) 1768921200 "ADMIN CHATGPT" "@zaaraowo")
  /\ dialogue_step (UGiveaway operator line) (dialogue_after group_set init_dialogue)
     = {| left := dialogue_after group_set init_dialogue; said := [];
          call := Some (mkCreateCall operator (js_int (-500)) (js_int 3) 1768921200
                          "ADMIN CHATGPT" "@zaaraowo", []) |}.
Proof.
  intro line.
  destruct (quick_create_reads_its_fields (String "@" "GiveBot") " " 3 (" ", " ")
              "22:00 20/01/2026" ("", "") "ADMIN CHATGPT" ("", " ") "@zaaraowo" " "
              1768921200) as [A B].
  - right. exists "GiveBot". repeat split; solve [reflexivity | discriminate].
  - reflexivity.
  - discriminate.
  - lia.
  - exists "22:00", [(" ", "20/01/2026")].
    repeat split; try reflexivity; try discriminate.
    repeat constructor; simpl; discriminate.
  - exists "ADMIN", [(" ", "CHATGPT")].
    repeat split; try reflexivity; try discriminate.
    repeat constructor; simpl; discriminate.
  - exists "@zaaraowo", [].
    repeat split; try reflexivity; try discriminate. constructor.
  - split; reflexivity.
  - split; reflexivity.
  - split; reflexivity.
  - reflexivity.
  - reflexivity.
  - split; [exact A |].
    apply (B operator (dialogue_after group_set init_dialogue) (js_int (-500)));
      reflexivity.
Defined.

Example quick_create_on_a_line :
  parseGiveawayArgs "/giveaway@GiveBot 3 | 22:00 20/01/2026|ADMIN CHATGPT| @zaaraowo "
  = inr (mkGiveawayArgs (js_int 3) 1768921200 "ADMIN CHATGPT" "@zaaraowo").
Proof. reflexivity. Qed.

(** [/cancel 7] when no giveaway has the id 7. *)
Lemma commands_on_no_row_only_reply_witness :
  init_sys = init_sys
  /\ exists m, [Reply operator (MsgText txt_cancel_missing)]
               = [Reply operator (MsgText m)].
Proof.
  apply (commands_on_no_row_only_reply operator 20 "/cancel 7" init_sys init_sys
           [Reply operator (MsgText txt_cancel_missing)]).
  - reflexivity.
  - intros z _ _. reflexivity.
Defined.

Example router_on_missing_ids :
  router operator 20 "/cancel" init_sys
  = Some (init_sys, [Reply operator (MsgText txt_cancel_usage)])
  /\ router operator 20 "/cancel 2.5" init_sys
     = Some (init_sys, [Reply operator (MsgText txt_cancel_missing)])
  /\ router operator 20 "/cancel seven" init_sys
     = Some (init_sys, [Reply operator (MsgText txt_cancel_usage)]).
Proof. repeat split; reflexivity. Qed.

(** Ann sends [/abort] and the abort button while the operator has a
    filled form. *)
Lemma forms_are_per_user_witness :
  let d := dialogue_after form_filled init_dialogue in
  getForm 900 (formState (left (dialogue_step (UFormAbort ann) d)))
  = getForm 900 (formState d)
  /\ settings (left (dialogue_step (UFormAbort ann) d)) = settings d.
Proof.
  intro d.
  destruct (forms_are_per_user (UFormAbort ann) d 900) as [A B].
  split; [apply A; discriminate | apply B; discriminate].
Defined.

(** The operator aborts a filled form. *)
Lemma abort_discards_the_form_witness :
  let d1 := left (dialogue_step (UAbort operator)
                    (dialogue_after form_filled init_dialogue)) in
  getForm 900 (formState d1) = None
  /\ form_text operator 30 "Prize" d1 = None
  /\ dialogue_step (UConfirm operator true) d1
     = says d1 [SayAnswer operator txt_form_expired true].
Proof.
  apply (abort_discards_the_form operator (UAbort operator)
           (dialogue_after form_filled init_dialogue) 30 "Prize" true).
  - reflexivity.
  - now left.
Defined.

(** C9, where the code departs from the statement.  The join action
    checks the giveaway when the button is pressed and writes the entry
    after the membership lookup, without reading the row again: a join
    pressed at time 99 is accepted, with the success answer, after the
    tick of time 100 has ended and announced the giveaway, and a join
    pressed before a cancellation is accepted after it. *)
Theorem join_accepted_after_close :
  option_map (fun g => (ended g, announced g, end_time g))
    (get_giveaway 1 (store (fst (run join_over_close init_sys))))
  = Some (1, 1, 100)
  /\ step (Resume 0 102 (Some 1) no_faults) (fst (run join_over_close init_sys))
     = ({| store :=
             {| giveaways := giveaways (store (fst (run join_over_close init_sys)));
                participants := [mkParticipantRow 1 101 "Ann" 99];
                winners_tbl := [];
                next_id := 2 |};
           tasks := [] |},
        [EditMessageText (-500) 7 (MsgGiveawayPost "Prize" "Sponsor" 1 100 1);
         AnswerCbQuery ann txt_join_ok])
  /\ option_map (fun g => (ended g, canceled g))
       (get_giveaway 1 (store (fst (run join_over_cancel init_sys))))
     = Some (1, 1)
  /\ participants
       (store (fst (step (Resume 0 61 (Some 1) no_faults)
                      (fst (run join_over_cancel init_sys)))))
     = [mkParticipantRow 1 101 "Ann" 50]
  /\ snd (step (Resume 0 61 (Some 1) no_faults) (fst (run join_over_cancel init_sys)))
     = [EditMessageText (-500) 7 (MsgGiveawayPost "Prize" "Sponsor" 1 100 1);
        AnswerCbQuery ann txt_join_ok].
Proof. repeat split; reflexivity. Qed.
